(** * Homepage animations of the HIFI docs site

    A shallow embedding of the two decorative effects of the site's
    home page (the flowing-light particle field and the typewriter
    title) together with the part of the browser they talk to: timers,
    animation frames, event listeners, mutation observers and the DOM
    objects they read and write.

    The script is single threaded.  Every callback runs to completion,
    so an execution is a sequence of callback invocations; the state of
    the closure variables and of the browser registries is threaded
    explicitly through each of them. *)

From Stdlib Require Import ZArith QArith Qround Qminmax Reals Lra Psatz Lia String Ascii.
From stdpp Require Import base gmap list strings.

Open Scope Z_scope.

(** ** Configuration constants *)

Record flowing_light_config := {
  GRID_SIZE : Z;
  DOT_SIZE : Z;
  OPACITY_BASE : Q;
  OPACITY_SCALE : Q;
  PROX_RADIUS : Z;
  RESIZE_DEBOUNCE_MS : Z;
  MAX_RETRIES : Z;
}.

Definition FLOWING_LIGHT_CONFIG : flowing_light_config := {|
  GRID_SIZE := 25;
  DOT_SIZE := 1;
  OPACITY_BASE := 2 # 100;
  OPACITY_SCALE := 5 # 10;
  PROX_RADIUS := 150;
  RESIZE_DEBOUNCE_MS := 150;
  MAX_RETRIES := 20;
|}.

Record typewriter_config := {
  text : string;
  typeSpeed : Z;
  pauseDuration : Z;
  deleteSpeed : Z;
  deletePause : Z;
  loop : bool;
}.

Definition TYPEWRITER_CONFIG : typewriter_config := {|
  text := "HIFI DOCS";
  typeSpeed := 150;
  pauseDuration := 5000;
  deleteSpeed := 50;
  deletePause := 500;
  loop := true;
|}.

(** ** The browser

    Timer handles and animation-frame handles are positive integers
    handed out in increasing order; [0] is never a live handle, which is
    why the script can initialise [rafId] and [resizeTimer] to [0] and
    clear them blindly.  [setTimeout] and [setInterval] draw from one
    pool of handles, and [clearTimeout]/[clearInterval] are the same
    operation on it. *)

Inductive callback :=
| CbTypewriterTick      (* typewriterTick, given to setInterval *)
| CbStartTypewriter     (* startTypewriterAnimation, the 100 ms retry *)
| CbAfterType           (* the arrow function run after pauseDuration *)
| CbAfterDelete         (* the arrow function run after deletePause *)
| CbStartAnimation      (* startAnimation, the backoff retry *)
| CbDebounce (r : nat)  (* the debounced resize of run r *)
| CbBootFallback.       (* boot's delayed "start both" *)

Inductive timer_kind := OneShot | Repeating.

Record timer := Timer {
  t_kind : timer_kind;
  t_delay : Z;
  t_due : Z;
  t_cb : callback;
}.

Record browser := Browser {
  now : Z;                       (* clock, in ms *)
  next_timer : nat;
  timers : gmap nat timer;
  next_frame : nat;
  frames : gmap nat nat;         (* pending frame handle -> run whose tick it calls *)
  resize_listeners : list nat;   (* runs whose onResize listens on window *)
  dcl_listener : bool;           (* the once-only DOMContentLoaded listener *)
}.

(** ** The document

    DOM elements are objects with identity; the script keeps references
    to them across callbacks, so they live in a store indexed by
    identity.  The container object carries the expando property
    [_flowingLightCleanup] and its own mousemove listeners. *)

Record container_obj := Container {
  rect_width : Q;
  rect_height : Q;
  _flowingLightCleanup : option nat;   (* the run whose cleanup it holds *)
  mousemove_listeners : list nat;
  canvases : list nat;                 (* child canvases, by owning run *)
}.

Record document := Document {
  hero_title : option nat;           (* document.querySelector(".hero-title") *)
  textContent : gmap nat string;
  container : option nat;            (* getElementById("flowing-light-container") *)
  containers : gmap nat container_obj;
}.

(** ** Closure variables *)

Record typewriter := Typewriter {
  typewriterInterval : option nat;
  typewriterElement : option nat;
  isTyping : bool;
  isDeleting : bool;
  currentText : string;
  currentIndex : nat;
}.

(** One record per call of [startAnimation] that got past the container
    lookup: the variables its inner functions close over.  [mouseX],
    [mouseY] and [time] only feed the painting arithmetic, which is
    modelled separately below; [drawn] counts the frames painted. *)
Record run := Run {
  r_container : nat;
  running : bool;
  rafId : nat;
  resizeTimer : nat;
  width : Z;
  height : Z;
  cols : Z;
  rows : Z;
  dots : list Z;
  drawn : nat;
}.

Record flowing := Flowing {
  retryCount : Z;
  next_run : nat;
  runs : gmap nat run;
}.

Record state := State {
  br : browser;
  doc : document;
  tw : typewriter;
  fl : flowing;
  lastUrl : string;
}.

(** *** Field updates *)

Definition with_br (f : browser → browser) (s : state) : state :=
  {| br := f (br s); doc := doc s; tw := tw s; fl := fl s; lastUrl := lastUrl s |}.
Definition with_doc (f : document → document) (s : state) : state :=
  {| br := br s; doc := f (doc s); tw := tw s; fl := fl s; lastUrl := lastUrl s |}.
Definition with_tw (f : typewriter → typewriter) (s : state) : state :=
  {| br := br s; doc := doc s; tw := f (tw s); fl := fl s; lastUrl := lastUrl s |}.
Definition with_fl (f : flowing → flowing) (s : state) : state :=
  {| br := br s; doc := doc s; tw := tw s; fl := f (fl s); lastUrl := lastUrl s |}.
Definition set_lastUrl (u : string) (s : state) : state :=
  {| br := br s; doc := doc s; tw := tw s; fl := fl s; lastUrl := u |}.

Definition set_now (t : Z) (b : browser) : browser :=
  {| now := t; next_timer := next_timer b; timers := timers b;
     next_frame := next_frame b; frames := frames b;
     resize_listeners := resize_listeners b; dcl_listener := dcl_listener b |}.
Definition set_timers (next : nat) (m : gmap nat timer) (b : browser) : browser :=
  {| now := now b; next_timer := next; timers := m;
     next_frame := next_frame b; frames := frames b;
     resize_listeners := resize_listeners b; dcl_listener := dcl_listener b |}.
Definition set_frames (next : nat) (m : gmap nat nat) (b : browser) : browser :=
  {| now := now b; next_timer := next_timer b; timers := timers b;
     next_frame := next; frames := m;
     resize_listeners := resize_listeners b; dcl_listener := dcl_listener b |}.
Definition set_resize_listeners (l : list nat) (b : browser) : browser :=
  {| now := now b; next_timer := next_timer b; timers := timers b;
     next_frame := next_frame b; frames := frames b;
     resize_listeners := l; dcl_listener := dcl_listener b |}.
Definition set_dcl_listener (v : bool) (b : browser) : browser :=
  {| now := now b; next_timer := next_timer b; timers := timers b;
     next_frame := next_frame b; frames := frames b;
     resize_listeners := resize_listeners b; dcl_listener := v |}.

Definition set_typewriterInterval (v : option nat) (t : typewriter) : typewriter :=
  {| typewriterInterval := v; typewriterElement := typewriterElement t;
     isTyping := isTyping t; isDeleting := isDeleting t;
     currentText := currentText t; currentIndex := currentIndex t |}.
Definition set_typewriterElement (v : option nat) (t : typewriter) : typewriter :=
  {| typewriterInterval := typewriterInterval t; typewriterElement := v;
     isTyping := isTyping t; isDeleting := isDeleting t;
     currentText := currentText t; currentIndex := currentIndex t |}.
Definition set_isTyping (v : bool) (t : typewriter) : typewriter :=
  {| typewriterInterval := typewriterInterval t; typewriterElement := typewriterElement t;
     isTyping := v; isDeleting := isDeleting t;
     currentText := currentText t; currentIndex := currentIndex t |}.
Definition set_isDeleting (v : bool) (t : typewriter) : typewriter :=
  {| typewriterInterval := typewriterInterval t; typewriterElement := typewriterElement t;
     isTyping := isTyping t; isDeleting := v;
     currentText := currentText t; currentIndex := currentIndex t |}.
Definition set_currentText (v : string) (t : typewriter) : typewriter :=
  {| typewriterInterval := typewriterInterval t; typewriterElement := typewriterElement t;
     isTyping := isTyping t; isDeleting := isDeleting t;
     currentText := v; currentIndex := currentIndex t |}.
Definition set_currentIndex (v : nat) (t : typewriter) : typewriter :=
  {| typewriterInterval := typewriterInterval t; typewriterElement := typewriterElement t;
     isTyping := isTyping t; isDeleting := isDeleting t;
     currentText := currentText t; currentIndex := v |}.

Definition set_hero_title (v : option nat) (d : document) : document :=
  {| hero_title := v; textContent := textContent d;
     container := container d; containers := containers d |}.
Definition set_textContent (m : gmap nat string) (d : document) : document :=
  {| hero_title := hero_title d; textContent := m;
     container := container d; containers := containers d |}.
Definition set_container (v : option nat) (d : document) : document :=
  {| hero_title := hero_title d; textContent := textContent d;
     container := v; containers := containers d |}.
Definition set_containers (m : gmap nat container_obj) (d : document) : document :=
  {| hero_title := hero_title d; textContent := textContent d;
     container := container d; containers := m |}.

(** *** Timer and frame primitives *)

Definition schedule (k : timer_kind) (cb : callback) (delay : Z) (s : state) : nat * state :=
  let id := next_timer (br s) in
  let tm := Timer k delay (now (br s) + delay) cb in
  (id, with_br (set_timers (S id) (<[id := tm]> (timers (br s)))) s).

Definition setTimeout := schedule OneShot.
Definition setInterval := schedule Repeating.

(** [clearTimeout] and [clearInterval]. *)
Definition clearTimer (id : nat) (s : state) : state :=
  with_br (λ b, set_timers (next_timer b) (delete id (timers b)) b) s.

Definition requestAnimationFrame (r : nat) (s : state) : nat * state :=
  let id := next_frame (br s) in
  (id, with_br (set_frames (S id) (<[id := r]> (frames (br s)))) s).

Definition cancelAnimationFrame (id : nat) (s : state) : state :=
  with_br (λ b, set_frames (next_frame b) (delete id (frames b)) b) s.

(** ** The typewriter *)

(** [s + t[i]]: indexing a string past its end yields [undefined], which
    [+=] would append as text. *)
Definition append_char_at (s t : string) (i : nat) : string :=
  match String.get i t with
  | Some c => s +:+ String c EmptyString
  | None => s +:+ "undefined"
  end.

(** [s.slice(0, -1)] *)
Definition slice_drop_last (s : string) : string :=
  String.substring 0 (String.length s - 1) s.

(** [typewriterElement.textContent = v].  When [typewriterElement] is
    [null] the assignment throws a TypeError; it is the last statement
    of its branch, so the callback ends there with the closure
    variables already updated and nothing written. *)
Definition write_textContent (v : string) (s : state) : state :=
  match typewriterElement (tw s) with
  | Some e => with_doc (λ d, set_textContent (<[e := v]> (textContent d)) d) s
  | None => s
  end.

Definition clear_typewriterInterval (s : state) : state :=
  match typewriterInterval (tw s) with
  | Some id => clearTimer id s
  | None => s
  end.

(** [typewriterInterval = setInterval(typewriterTick, delay)] *)
Definition start_interval (delay : Z) (s : state) : state :=
  let (id, s) := setInterval CbTypewriterTick delay s in
  with_tw (set_typewriterInterval (Some id)) s.

Definition startTypewriterAnimation (s : state) : state :=
  let s := with_tw (set_typewriterElement (hero_title (doc s))) s in
  match typewriterElement (tw s) with
  | None => snd (setTimeout CbStartTypewriter 100 s)
  | Some _ =>
    match typewriterInterval (tw s) with
    | Some _ => s
    | None =>
      let s := with_tw (set_currentText "") s in
      let s := with_tw (set_currentIndex 0) s in
      let s := with_tw (set_isTyping true) s in
      let s := with_tw (set_isDeleting false) s in
      start_interval (typeSpeed TYPEWRITER_CONFIG) s
    end
  end.

(** The arrow function scheduled when typing has finished. *)
Definition afterTypePause (s : state) : state :=
  let s := with_tw (set_isDeleting true) s in
  start_interval (deleteSpeed TYPEWRITER_CONFIG) s.

(** The arrow function scheduled when deleting has finished. *)
Definition afterDeletePause (s : state) : state :=
  if loop TYPEWRITER_CONFIG then
    let s := with_tw (set_currentIndex 0) s in
    let s := with_tw (set_isTyping true) s in
    start_interval (typeSpeed TYPEWRITER_CONFIG) s
  else s.

Definition typewriterTick (s : state) : state :=
  if isTyping (tw s) then
    if (currentIndex (tw s) <? String.length (text TYPEWRITER_CONFIG))%nat then
      let t := append_char_at (currentText (tw s)) (text TYPEWRITER_CONFIG)
                 (currentIndex (tw s)) in
      let s := with_tw (set_currentText t) s in
      let s := with_tw (set_currentIndex (S (currentIndex (tw s)))) s in
      write_textContent (currentText (tw s)) s
    else
      let s := with_tw (set_isTyping false) s in
      let s := clear_typewriterInterval s in
      let s := with_tw (set_typewriterInterval None) s in
      snd (setTimeout CbAfterType (pauseDuration TYPEWRITER_CONFIG) s)
  else if isDeleting (tw s) then
    if (0 <? String.length (currentText (tw s)))%nat then
      let s := with_tw (set_currentText (slice_drop_last (currentText (tw s)))) s in
      write_textContent (currentText (tw s)) s
    else
      let s := with_tw (set_isDeleting false) s in
      let s := clear_typewriterInterval s in
      let s := with_tw (set_typewriterInterval None) s in
      snd (setTimeout CbAfterDelete (deletePause TYPEWRITER_CONFIG) s)
  else s.

Definition stopTypewriterAnimation (s : state) : state :=
  let s := match typewriterInterval (tw s) with
           | Some id => with_tw (set_typewriterInterval None) (clearTimer id s)
           | None => s
           end in
  write_textContent (text TYPEWRITER_CONFIG) s.

(** ** The flowing-light particle field *)

(** [x | 0]: ToInt32 of a finite number, truncation towards zero
    followed by wrap-around into the signed 32-bit range. *)
Definition Qtruncate (q : Q) : Z := Z.quot (Qnum q) (Zpos (Qden q)).

Definition to_int32 (q : Q) : Z :=
  (Qtruncate q + 2 ^ 31) mod 2 ^ 32 - 2 ^ 31.

(** [Math.ceil(n / d)] for integers [n] and [d].  The quotient is a
    double in the script; for the 32-bit [n] and the spacing [d] used
    here its rounding error is far below the distance of [n / d] to the
    next integer, so the ceiling is that of the exact quotient. *)
Definition ceil_div (n d : Z) : Z := Qceiling (inject_Z n / inject_Z d).

(** A store into a [Float32Array] rounds the value to single precision
    (24 significant bits, ties to even).  [fround] is that rounding on
    integer values. *)
Definition fround (n : Z) : Z :=
  let a := Z.abs n in
  if a <? 2 ^ 24 then n
  else
    let e := Z.log2 a - 23 in
    let q := a / 2 ^ e in
    let r := a mod 2 ^ e in
    let h := 2 ^ (e - 1) in
    let q' := if r <? h then q
              else if h <? r then q + 1
              else if Z.even q then q else q + 1 in
    Z.sgn n * (q' * 2 ^ e).

(** [new Float32Array(n)]: [n] zeros.  Allocation is assumed to succeed. *)
Definition Float32Array (n : Z) : list Z := replicate (Z.to_nat n) 0.

(** [a[i] = v] on a typed array: rounded, and ignored out of range. *)
Definition store (i : nat) (v : Z) (a : list Z) : list Z := <[i := fround v]> a.

(** The body of the inner loop: two stores, each followed by [i++]. *)
Definition fill_cell (r : Z) (acc : nat * list Z) (c : Z) : nat * list Z :=
  let '(i, a) := acc in
  let a := store i (c * GRID_SIZE FLOWING_LIGHT_CONFIG) a in
  let i := S i in
  let a := store i (r * GRID_SIZE FLOWING_LIGHT_CONFIG) a in
  let i := S i in
  (i, a).

(** [for (let c = 0; c < cols; c++)] *)
Definition fill_row (cols : Z) (acc : nat * list Z) (r : Z) : nat * list Z :=
  foldl (fill_cell r) acc (seqZ 0 cols).

(** [for (let r = 0; r < rows; r++)] *)
Definition fill_grid (rows cols : Z) (a : list Z) : nat * list Z :=
  foldl (fill_row cols) (0%nat, a) (seqZ 0 rows).

Definition set_geometry (w h c r : Z) (d : list Z) (x : run) : run :=
  {| r_container := r_container x; running := running x; rafId := rafId x;
     resizeTimer := resizeTimer x; width := w; height := h; cols := c; rows := r;
     dots := d; drawn := drawn x |}.
Definition set_running (v : bool) (x : run) : run :=
  {| r_container := r_container x; running := v; rafId := rafId x;
     resizeTimer := resizeTimer x; width := width x; height := height x;
     cols := cols x; rows := rows x; dots := dots x; drawn := drawn x |}.
Definition set_rafId (v : nat) (x : run) : run :=
  {| r_container := r_container x; running := running x; rafId := v;
     resizeTimer := resizeTimer x; width := width x; height := height x;
     cols := cols x; rows := rows x; dots := dots x; drawn := drawn x |}.
Definition set_resizeTimer (v : nat) (x : run) : run :=
  {| r_container := r_container x; running := running x; rafId := rafId x;
     resizeTimer := v; width := width x; height := height x;
     cols := cols x; rows := rows x; dots := dots x; drawn := drawn x |}.
Definition set_drawn (v : nat) (x : run) : run :=
  {| r_container := r_container x; running := running x; rafId := rafId x;
     resizeTimer := resizeTimer x; width := width x; height := height x;
     cols := cols x; rows := rows x; dots := dots x; drawn := v |}.

(** [resize], on the variables of one run, given the container's
    bounding rectangle.  The canvas attributes it also sets are not
    read back anywhere. *)
Definition resize (rect_w rect_h : Q) (x : run) : run :=
  let w := Z.max 1 (to_int32 rect_w) in
  let h := Z.max 1 (to_int32 rect_h) in
  let c := ceil_div w (GRID_SIZE FLOWING_LIGHT_CONFIG) in
  let r := ceil_div h (GRID_SIZE FLOWING_LIGHT_CONFIG) in
  let d := Float32Array (c * r * 2) in
  set_geometry w h c r (snd (fill_grid r c d)) x.

Definition set_retryCount (v : Z) (f : flowing) : flowing :=
  {| retryCount := v; next_run := next_run f; runs := runs f |}.
Definition set_runs (next : nat) (m : gmap nat run) (f : flowing) : flowing :=
  {| retryCount := retryCount f; next_run := next; runs := m |}.

Definition update_run (r : nat) (f : run → run) (s : state) : state :=
  with_fl (λ g, set_runs (next_run g) (alter f r (runs g)) g) s.

Definition update_container (c : nat) (f : container_obj → container_obj) (s : state) : state :=
  with_doc (λ d, set_containers (alter f c (containers d)) d) s.

Definition set_cleanup (v : option nat) (o : container_obj) : container_obj :=
  {| rect_width := rect_width o; rect_height := rect_height o;
     _flowingLightCleanup := v; mousemove_listeners := mousemove_listeners o;
     canvases := canvases o |}.
Definition set_mousemove_listeners (l : list nat) (o : container_obj) : container_obj :=
  {| rect_width := rect_width o; rect_height := rect_height o;
     _flowingLightCleanup := _flowingLightCleanup o; mousemove_listeners := l;
     canvases := canvases o |}.
Definition set_canvases (l : list nat) (o : container_obj) : container_obj :=
  {| rect_width := rect_width o; rect_height := rect_height o;
     _flowingLightCleanup := _flowingLightCleanup o;
     mousemove_listeners := mousemove_listeners o; canvases := l |}.
Definition set_rect (w h : Q) (o : container_obj) : container_obj :=
  {| rect_width := w; rect_height := h;
     _flowingLightCleanup := _flowingLightCleanup o;
     mousemove_listeners := mousemove_listeners o; canvases := canvases o |}.

(** [addEventListener] ignores a listener that is already registered;
    [removeEventListener] removes it. *)
Definition add_listener (r : nat) (l : list nat) : list nat :=
  if decide (r ∈ l) then l else l ++ [r].
Definition remove_listener (r : nat) (l : list nat) : list nat :=
  filter (λ x, x ≠ r) l.

(** [resize()] as called from inside run [r]: reads the rectangle of the
    container the run closed over. *)
Definition resize_run (r : nat) (s : state) : state :=
  match runs (fl s) !! r with
  | None => s
  | Some x =>
    match containers (doc s) !! r_container x with
    | None => s
    | Some o => update_run r (resize (rect_width o) (rect_height o)) s
    end
  end.

(** [rafId = requestAnimationFrame(tick)] inside run [r]. *)
Definition request_tick (r : nat) (s : state) : state :=
  let (id, s) := requestAnimationFrame r s in
  update_run r (set_rafId id) s.

(** [tick] of run [r], called by the browser for a frame. *)
Definition tick (r : nat) (s : state) : state :=
  match runs (fl s) !! r with
  | None => s
  | Some x =>
    if running x then
      let s := update_run r (λ x, set_drawn (S (drawn x)) x) s in
      request_tick r s
    else s
  end.

(** [onResize] of run [r]: restart the debounce timeout. *)
Definition onResize (r : nat) (s : state) : state :=
  match runs (fl s) !! r with
  | None => s
  | Some x =>
    let s := clearTimer (resizeTimer x) s in
    let (id, s) := setTimeout (CbDebounce r) (RESIZE_DEBOUNCE_MS FLOWING_LIGHT_CONFIG) s in
    update_run r (set_resizeTimer id) s
  end.

(** The arrow function inside [onResize]. *)
Definition debounced (r : nat) (s : state) : state :=
  match runs (fl s) !! r with
  | None => s
  | Some x =>
    let s := cancelAnimationFrame (rafId x) s in
    let s := resize_run r s in
    if running x then request_tick r s else s
  end.

(** [cleanup] of run [r]. *)
Definition cleanup (r : nat) (s : state) : state :=
  match runs (fl s) !! r with
  | None => s
  | Some x =>
    let s := update_run r (set_running false) s in
    let s := cancelAnimationFrame (rafId x) s in
    let s := with_br (λ b, set_resize_listeners (remove_listener r (resize_listeners b)) b) s in
    let c := r_container x in
    let s := update_container c
               (λ o, set_mousemove_listeners (remove_listener r (mousemove_listeners o)) o) s in
    let s := update_container c (λ o, set_canvases (remove_listener r (canvases o)) o) s in
    update_container c (set_cleanup None) s
  end.

Definition new_run (c : nat) : run :=
  {| r_container := c; running := true; rafId := 0; resizeTimer := 0;
     width := 0; height := 0; cols := 0; rows := 0;
     dots := Float32Array 0; drawn := 0 |}.

Definition startAnimation (s : state) : state :=
  match container (doc s) with
  | None =>
    if retryCount (fl s) <? MAX_RETRIES FLOWING_LIGHT_CONFIG then
      let s := with_fl (λ g, set_retryCount (retryCount g + 1) g) s in
      snd (setTimeout CbStartAnimation (Z.min (50 * retryCount (fl s)) 500) s)
    else s
  | Some c =>
    let s := with_fl (set_retryCount 0) s in
    let s := match containers (doc s) !! c with
             | Some o =>
               match _flowingLightCleanup o with
               | Some r0 => cleanup r0 s
               | None => s
               end
             | None => s
             end in
    let r := next_run (fl s) in
    let s := update_container c (λ o, set_canvases (canvases o ++ [r]) o) s in
    let s := with_fl (λ g, set_runs (S r) (<[r := new_run c]> (runs g)) g) s in
    let s := resize_run r s in
    let s := request_tick r s in
    let s := with_br (λ b, set_resize_listeners (add_listener r (resize_listeners b)) b) s in
    let s := update_container c
               (λ o, set_mousemove_listeners (add_listener r (mousemove_listeners o)) o) s in
    update_container c (set_cleanup (Some r)) s
  end.

(** [window.hifiAnimations.stopFlowingLight] *)
Definition stopFlowingLight (s : state) : state :=
  match container (doc s) with
  | None => s
  | Some c =>
    match containers (doc s) !! c with
    | Some o =>
      match _flowingLightCleanup o with
      | Some r => cleanup r s
      | None => s
      end
    | None => s
    end
  end.

(** ** Boot and the mutation observers *)

Definition start_both (s : state) : state :=
  startTypewriterAnimation (startAnimation s).

Inductive readyState := Loading | Interactive | Complete.

Definition boot (rs : readyState) (s : state) : state :=
  let s := match rs with
           | Complete | Interactive => start_both s
           | Loading => s
           end in
  let s := match rs with
           | Loading => with_br (set_dcl_listener true) s
           | _ => s
           end in
  let s := snd (setTimeout CbBootFallback 100 s) in
  snd (setTimeout CbBootFallback 500 s).

(** The DOM nodes a mutation record can list. *)
#[local] Set Warnings "-register-all".
Inductive node :=
| ElementNode (id : string) (children : list node)
| TextNode (data : string)
| CommentNode (data : string).

Definition ELEMENT_NODE : Z := 1.

Definition nodeType (n : node) : Z :=
  match n with
  | ElementNode _ _ => 1
  | TextNode _ => 3
  | CommentNode _ => 8
  end.

Definition node_id (n : node) : option string :=
  match n with
  | ElementNode i _ => Some i
  | _ => None
  end.

Definition container_id : string := "flowing-light-container".

(** [n.querySelector("#" + i)]: the first descendant element of [n], in
    document order, whose id is [i].  Only elements have the method. *)
Fixpoint querySelector_id (i : string) (n : node) : option node :=
  match n with
  | ElementNode _ ch =>
    (fix first_in (l : list node) : option node :=
       match l with
       | [] => None
       | c :: l' =>
         let hit := match c with
                    | ElementNode ci _ =>
                      if String.eqb ci i then Some c else querySelector_id i c
                    | _ => None
                    end in
         match hit with
         | Some m => Some m
         | None => first_in l'
         end
       end) ch
  | _ => None
  end.

Inductive mutation_type := ChildList | Attributes | CharacterData.

Record mutation := Mutation {
  m_type : mutation_type;
  addedNodes : list node;
}.

(** The test applied to each added node. *)
Definition adds_container (n : node) : bool :=
  (nodeType n =? ELEMENT_NODE) &&
  (match node_id n with
   | Some i => String.eqb i container_id
   | None => false
   end
   || bool_decide (is_Some (querySelector_id container_id n))).

(** The two nested [for ... of] loops; [true] when the [return] inside
    them is reached. *)
Fixpoint scan_nodes (ns : list node) : bool :=
  match ns with
  | [] => false
  | n :: ns' => if adds_container n then true else scan_nodes ns'
  end.

Fixpoint scan_mutations (ms : list mutation) : bool :=
  match ms with
  | [] => false
  | m :: ms' =>
    match m_type m with
    | ChildList => if scan_nodes (addedNodes m) then true else scan_mutations ms'
    | _ => scan_mutations ms'
    end
  end.

Definition containerObserver (ms : list mutation) (s : state) : state :=
  if scan_mutations ms then start_both s else s.

(** The second observer; [href] is [location.href] when it runs. *)
Definition urlObserver (href : string) (s : state) : state :=
  if String.eqb href (lastUrl s) then s
  else start_both (set_lastUrl href s).

(** ** Executions *)

Inductive event :=
| TimerFires (id : nat)
| FrameFires (id : nat)
| WindowResize
| DOMContentLoaded
| Mutations (ms : list mutation) (href : string)
| CallStartTypewriter        (* window.hifiAnimations.startTypewriter() *)
| CallStopTypewriter
| CallStartFlowingLight
| CallStopFlowingLight
| DomHeroTitle (e : option nat)     (* the page changes what .hero-title matches *)
| DomContainer (c : option nat)     (* ... and which container is attached *)
| DomLayout (c : nat) (w h : Q).    (* ... and the container's rectangle *)

Definition run_callback (cb : callback) (s : state) : state :=
  match cb with
  | CbTypewriterTick => typewriterTick s
  | CbStartTypewriter => startTypewriterAnimation s
  | CbAfterType => afterTypePause s
  | CbAfterDelete => afterDeletePause s
  | CbStartAnimation => startAnimation s
  | CbDebounce r => debounced r s
  | CbBootFallback => start_both s
  end.

(** A one-shot timer leaves the pool before its callback runs; a
    repeating one is rescheduled. *)
Definition fire_timer (id : nat) (s : state) : state :=
  match timers (br s) !! id with
  | None => s
  | Some tm =>
    let s :=
      match t_kind tm with
      | OneShot => clearTimer id s
      | Repeating =>
        let tm' := Timer Repeating (t_delay tm) (now (br s) + t_delay tm) (t_cb tm) in
        with_br (λ b, set_timers (next_timer b) (<[id := tm']> (timers b)) b) s
      end in
    run_callback (t_cb tm) s
  end.

Definition fire_frame (id : nat) (s : state) : state :=
  match frames (br s) !! id with
  | None => s
  | Some r => tick r (cancelAnimationFrame id s)
  end.

Definition fresh_container (w h : Q) : container_obj :=
  {| rect_width := w; rect_height := h; _flowingLightCleanup := None;
     mousemove_listeners := []; canvases := [] |}.

Definition attach_container (c : option nat) (s : state) : state :=
  let s := with_doc (set_container c) s in
  match c with
  | Some i =>
    match containers (doc s) !! i with
    | Some _ => s
    | None => with_doc (λ d, set_containers (<[i := fresh_container 0 0]> (containers d)) d) s
    end
  | None => s
  end.

Definition handle (e : event) (s : state) : state :=
  match e with
  | TimerFires id => fire_timer id s
  | FrameFires id => fire_frame id s
  | WindowResize => foldl (λ s r, onResize r s) s (resize_listeners (br s))
  | DOMContentLoaded =>
    if dcl_listener (br s) then start_both (with_br (set_dcl_listener false) s) else s
  | Mutations ms href => urlObserver href (containerObserver ms s)
  | CallStartTypewriter => startTypewriterAnimation s
  | CallStopTypewriter => stopTypewriterAnimation s
  | CallStartFlowingLight => startAnimation s
  | CallStopFlowingLight => stopFlowingLight s
  | DomHeroTitle e => with_doc (set_hero_title e) s
  | DomContainer c => attach_container c s
  | DomLayout c w h => update_container c (set_rect w h) s
  end.

(** An event happens at a time. *)
Definition step (s : state) (te : Z * event) : state :=
  handle (snd te) (with_br (set_now (fst te)) s).

Definition run_events (s : state) (tes : list (Z * event)) : state :=
  foldl step s tes.

(** The page as the script finds it, and the state once the script has
    run to its end. *)
Definition initial_state (hero : option nat) (cont : option (nat * (Q * Q)))
    (href : string) : state :=
  {| br := {| now := 0; next_timer := 1; timers := ∅; next_frame := 1; frames := ∅;
              resize_listeners := []; dcl_listener := false |};
     doc := {| hero_title := hero; textContent := ∅;
               container := fst <$> cont;
               containers := match cont with
                             | Some (c, (w, h)) => {[ c := fresh_container w h ]}
                             | None => ∅
                             end |};
     tw := {| typewriterInterval := None; typewriterElement := None;
              isTyping := false; isDeleting := false;
              currentText := ""; currentIndex := 0 |};
     fl := {| retryCount := 0; next_run := 1; runs := ∅ |};
     lastUrl := href |}.

Definition script_loaded (rs : readyState) (hero : option nat)
    (cont : option (nat * (Q * Q))) (href : string) : state :=
  boot rs (initial_state hero cont href).

(** *** Nominal timing

    An event list is on time when it is in chronological order, no
    timer is overdue when an event happens, and a timer fires exactly
    when it is due. *)
Definition none_overdue (t : Z) (s : state) : bool :=
  forallb (λ p, t <=? t_due (snd p)) (map_to_list (timers (br s))).

Definition on_time (s : state) (te : Z * event) : bool :=
  (now (br s) <=? fst te) && none_overdue (fst te) s &&
  match snd te with
  | TimerFires id =>
    match timers (br s) !! id with
    | Some tm => t_due tm =? fst te
    | None => false
    end
  | _ => true
  end.

Fixpoint all_on_time (s : state) (tes : list (Z * event)) : bool :=
  match tes with
  | [] => true
  | te :: tes' => on_time s te && all_on_time (step s te) tes'
  end.

(** ** Painting

    The arithmetic [tick] performs for one dot, over the real numbers:
    [time] is the elapsed animation time, [(mouseX, mouseY)] the cursor
    and [(x0, y0)] the dot's grid position. *)

Definition hypot (dx dy : R) : R := sqrt (dx * dx + dy * dy).

Definition w1 (time dist : R) : R :=
  (sin (time * 0.8 - dist * 0.005) * 0.5 + 0.5)%R.
Definition w2 (time dist : R) : R :=
  (sin (time * 0.6 - dist * 0.004 + PI / 3) * 0.5 + 0.5)%R.
Definition w3 (time dist : R) : R :=
  (sin (time * 0.7 - dist * 0.006 + PI / 6) * 0.5 + 0.5)%R.

Definition intensity (time dist : R) : R :=
  ((w1 time dist + w2 time dist + w3 time dist) / 3)%R.

Definition proxInv : R := (1 / IZR (PROX_RADIUS FLOWING_LIGHT_CONFIG))%R.

Definition proxBoost (dist : R) : R := (Rmax 0 (1 - dist * proxInv) * 0.4)%R.

Definition finalIntensity (time dist : R) : R :=
  Rmin 1 (intensity time dist + proxBoost dist).

(** The value assigned to [ctx.globalAlpha]. *)
Definition opacity (time dist : R) : R :=
  (Q2R (OPACITY_BASE FLOWING_LIGHT_CONFIG) +
   finalIntensity time dist * Q2R (OPACITY_SCALE FLOWING_LIGHT_CONFIG))%R.

Definition dot_dist (mouseX mouseY x0 y0 : R) : R :=
  hypot (mouseX - x0) (mouseY - y0).

Definition dot_opacity (time mouseX mouseY x0 y0 : R) : R :=
  opacity time (dot_dist mouseX mouseY x0 y0).

(** ** The rest of [resize] and of [tick]

    What [resize] writes to the canvas, and where [tick] paints a dot. *)





(** [dirX = dx / Math.max(1, width)] *)
Definition dir (d side : R) : R := (d / Rmax 1 side)%R.

(** [offsetX] and [offsetY] *)
Definition offsetX (time dist dirX : R) : R :=
  (sin (time * 0.6 - dist * 0.005) * 3 + dirX * 2)%R.
Definition offsetY (time dist dirY : R) : R :=
  (cos (time * 0.5 - dist * 0.005) * 3 + dirY * 2)%R.

(** The centre of the circle [tick] draws for the dot at [(x0, y0)]. *)
Definition painted_x (time mouseX mouseY x0 y0 width : R) : R :=
  (x0 + offsetX time (dot_dist mouseX mouseY x0 y0) (dir (mouseX - x0) width))%R.
Definition painted_y (time mouseX mouseY x0 y0 height : R) : R :=
  (y0 + offsetY time (dot_dist mouseX mouseY x0 y0) (dir (mouseY - y0) height))%R.

(** ** The particle field on its own

    [flowing-light.js] is the particle field without the typewriter:
    [startAnimation] and the functions inside it are those of the
    homepage script, with the constants as local [const]s; boot, the
    DOMContentLoaded listener, the fallbacks and the two observers call
    [startAnimation] alone, and nothing is exported on [window]. *)
Module FlowingLight.

(** The two fallbacks hand [startAnimation] itself to [setTimeout]. *)
Definition boot (rs : readyState) (s : state) : state :=
  let s := match rs with
           | Complete | Interactive => startAnimation s
           | Loading => s
           end in
  let s := match rs with
           | Loading => with_br (set_dcl_listener true) s
           | _ => s
           end in
  let s := snd (setTimeout CbStartAnimation 100 s) in
  snd (setTimeout CbStartAnimation 500 s).

Definition containerObserver (ms : list mutation) (s : state) : state :=
  if scan_mutations ms then startAnimation s else s.

Definition urlObserver (href : string) (s : state) : state :=
  if String.eqb href (lastUrl s) then s
  else startAnimation (set_lastUrl href s).

(** The callbacks this script gives to [setTimeout]; it schedules no
    other. *)
Definition run_callback (cb : callback) (s : state) : state :=
  match cb with
  | CbStartAnimation => startAnimation s
  | CbDebounce r => debounced r s
  | _ => s
  end.

Definition fire_timer (id : nat) (s : state) : state :=
  match timers (br s) !! id with
  | None => s
  | Some tm =>
    let s :=
      match t_kind tm with
      | OneShot => clearTimer id s
      | Repeating =>
        let tm' := Timer Repeating (t_delay tm) (now (br s) + t_delay tm) (t_cb tm) in
        with_br (λ b, set_timers (next_timer b) (<[id := tm']> (timers b)) b) s
      end in
    run_callback (t_cb tm) s
  end.

(** There is no [window.hifiAnimations] here: the four calls reach
    nothing. *)
Definition handle (e : event) (s : state) : state :=
  match e with
  | TimerFires id => fire_timer id s
  | FrameFires id => fire_frame id s
  | WindowResize => foldl (λ s r, onResize r s) s (resize_listeners (br s))
  | DOMContentLoaded =>
    if dcl_listener (br s) then startAnimation (with_br (set_dcl_listener false) s) else s
  | Mutations ms href => urlObserver href (containerObserver ms s)
  | CallStartTypewriter | CallStopTypewriter
  | CallStartFlowingLight | CallStopFlowingLight => s
  | DomHeroTitle e => with_doc (set_hero_title e) s
  | DomContainer c => attach_container c s
  | DomLayout c w h => update_container c (set_rect w h) s
  end.

Definition step (s : state) (te : Z * event) : state :=
  handle (snd te) (with_br (set_now (fst te)) s).

Definition run_events (s : state) (tes : list (Z * event)) : state :=
  foldl step s tes.

Definition script_loaded (rs : readyState) (hero : option nat)
    (cont : option (nat * (Q * Q))) (href : string) : state :=
  boot rs (initial_state hero cont href).

Definition reachable (s : state) : Prop :=
  ∃ rs hero cont href tes, s = run_events (script_loaded rs hero cont href) tes.

End FlowingLight.

(** ** Notions used in the statements *)

(** States the script can be in: those an execution reaches from a
    page load. *)
Definition reachable (s : state) : Prop :=
  ∃ rs hero cont href tes, s = run_events (script_loaded rs hero cont href) tes.

(** The live interval timers that call [typewriterTick]. *)
Definition is_typewriter_interval (tm : timer) : bool :=
  match t_kind tm, t_cb tm with
  | Repeating, CbTypewriterTick => true
  | _, _ => false
  end.

Definition typewriter_intervals (s : state) : list nat :=
  (map_to_list (filter (λ p, is_typewriter_interval (snd p) = true) (timers (br s)))).*1.

(** Following one retry chain.  [scheduled_since s s'] is the handle of
    the timer created between [s] and [s'], if one was: handles are
    consecutive.  [follow_retries fuel s id] lets the pending retry
    [id] fire when it is due, then the retry that call scheduled, and
    so on; it returns the delays of the retries that fired and whether
    the chain ended within [fuel] links. *)
Definition scheduled_since (s s' : state) : option nat :=
  if decide (next_timer (br s) < next_timer (br s'))%nat
  then Some (next_timer (br s)) else None.

Fixpoint follow_retries (fuel : nat) (s : state) (id : nat) : list Z * bool :=
  match fuel with
  | O => ([], false)
  | S fuel' =>
    match timers (br s) !! id with
    | None => ([], true)
    | Some tm =>
      let s' := step s (t_due tm, TimerFires id) in
      match scheduled_since s s' with
      | None => ([t_delay tm], true)
      | Some id' =>
        let (ds, ended) := follow_retries fuel' s' id' in
        (t_delay tm :: ds, ended)
      end
    end
  end.

(** [d] lies strictly inside the subtree of [n]. *)
Inductive descendant (d : node) : node → Prop :=
| desc_child i ch : d ∈ ch → descendant d (ElementNode i ch)
| desc_deeper i ch c : c ∈ ch → descendant d c → descendant d (ElementNode i ch).

(** An added node that is the flowing-light container or contains it. *)
Definition is_or_contains_container (n : node) : Prop :=
  nodeType n = ELEMENT_NODE ∧
  (node_id n = Some container_id ∨
   ∃ d, descendant d n ∧ node_id d = Some container_id).

Definition listens_mousemove (r : nat) (s : state) : Prop :=
  ∃ c o, containers (doc s) !! c = Some o ∧ r ∈ mousemove_listeners o.

Definition debounce_pending (r : nat) (s : state) : Prop :=
  ∃ id tm, timers (br s) !! id = Some tm ∧ t_cb tm = CbDebounce r.

Definition pause_pending (s : state) : Prop :=
  ∃ id tm, timers (br s) !! id = Some tm ∧
           (t_cb tm = CbAfterType ∨ t_cb tm = CbAfterDelete).

Definition drawn_by (r : nat) (s : state) : nat :=
  match runs (fl s) !! r with
  | Some x => drawn x
  | None => 0
  end.

(** Run [r] has been shut down: it exists and is not running, and the
    browser holds no frame request and no listener of it. *)
Record shut_down (r : nat) (s : state) : Prop := {
  sd_stopped : ∃ x, runs (fl s) !! r = Some x ∧ running x = false;
  sd_frames : ∀ id, frames (br s) !! id ≠ Some r;
  sd_resize : r ∉ resize_listeners (br s);
  sd_mousemove : ¬ listens_mousemove r s;
}.

(** Bookkeeping that holds in every reachable state: whatever the
    browser holds for a run belongs to a run that exists and is running,
    a pending frame is the one the run remembers in [rafId], and a
    mousemove listener sits on the container its run closed over. *)
Record consistent (s : state) : Prop := {
  co_frames : ∀ id r, frames (br s) !! id = Some r →
                ∃ x, runs (fl s) !! r = Some x ∧ rafId x = id ∧ running x = true;
  co_runs : ∀ r x, runs (fl s) !! r = Some x → (r < next_run (fl s))%nat;
  co_resize : ∀ r, r ∈ resize_listeners (br s) →
                ∃ x, runs (fl s) !! r = Some x ∧ running x = true;
  co_mousemove : ∀ c o r, containers (doc s) !! c = Some o →
                   r ∈ mousemove_listeners o →
                   ∃ x, runs (fl s) !! r = Some x ∧ r_container x = c ∧ running x = true;
}.

(** The part of the state that bookkeeping talks about. *)
Definition same_flowing (s s' : state) : Prop :=
  frames (br s') = frames (br s) ∧
  resize_listeners (br s') = resize_listeners (br s) ∧
  runs (fl s') = runs (fl s) ∧
  next_run (fl s') = next_run (fl s) ∧
  containers (doc s') = containers (doc s).

(** Run [r] exists, closes over container [c] and is running. *)
Definition live_run (r c : nat) (s : state) : Prop :=
  ∃ x, runs (fl s) !! r = Some x ∧ r_container x = c ∧ running x = true.

(** Going from [s] to [s'] leaves a stopped run [r] stopped and the
    number of frames it has painted unchanged. *)
Definition inert_on (r : nat) (s s' : state) : Prop :=
  ∀ x, runs (fl s) !! r = Some x → running x = false →
       ∃ x', runs (fl s') !! r = Some x' ∧ running x' = false ∧ drawn x' = drawn x.

(** *** The typewriter's timers *)

(** The timers of the typewriter's state machine. *)
Definition machine_cb (cb : callback) : bool :=
  match cb with
  | CbTypewriterTick | CbAfterType | CbAfterDelete => true
  | _ => false
  end.

Definition machine (tm : timer) : bool := machine_cb (t_cb tm).

(** Timer handles are handed out once and remembered correctly. *)
Record hygienic (s : state) : Prop := {
  hy_zero : timers (br s) !! 0%nat = None;
  hy_pos : (0 < next_timer (br s))%nat;
  hy_fresh : ∀ id tm, timers (br s) !! id = Some tm → (id < next_timer (br s))%nat;
  hy_handle : ∀ r x, runs (fl s) !! r = Some x → (resizeTimer x < next_timer (br s))%nat;
  hy_debounce : ∀ r x tm, runs (fl s) !! r = Some x →
                  timers (br s) !! resizeTimer x = Some tm → machine tm = false;
}.

(** [s'] has the timers, the next handle and the runs of [s]. *)
Definition same_timing (s s' : state) : Prop :=
  timers (br s') = timers (br s) ∧
  next_timer (br s') = next_timer (br s) ∧
  runs (fl s') = runs (fl s).

(** [typewriterTick] is only ever given to [setInterval], every other
    callback to [setTimeout]. *)
Definition expected_kind (cb : callback) : timer_kind :=
  match cb with
  | CbTypewriterTick => Repeating
  | _ => OneShot
  end.

(** One timer at a time drives the typewriter, the displayed text is a
    prefix of the target, and the typing position is its length. *)
Record disciplined (s : state) : Prop := {
  di_kind : ∀ id tm, timers (br s) !! id = Some tm → machine tm = true →
              t_kind tm = expected_kind (t_cb tm);
  di_single : ∀ id1 tm1 id2 tm2,
                timers (br s) !! id1 = Some tm1 → timers (br s) !! id2 = Some tm2 →
                machine tm1 = true → machine tm2 = true → id1 = id2;
  di_held : ∀ id tm, timers (br s) !! id = Some tm → t_cb tm = CbTypewriterTick →
              typewriterInterval (tw s) = Some id;
  di_prefix : String.prefix (currentText (tw s)) (text TYPEWRITER_CONFIG) = true;
  di_typing : isTyping (tw s) = true →
              String.length (currentText (tw s)) = currentIndex (tw s);
  di_empty : ∀ id tm, timers (br s) !! id = Some tm → t_cb tm = CbAfterDelete →
               currentText (tw s) = EmptyString;
}.

(** No timer of the typewriter's state machine is scheduled. *)
Definition at_rest (s : state) : Prop :=
  ∀ id tm, timers (br s) !! id = Some tm → machine tm = false.

(** [s'] differs from [s] in nothing the typewriter's state machine
    looks at. *)
Definition same_typewriter (s s' : state) : Prop :=
  (∀ id tm, machine tm = true →
            (timers (br s') !! id = Some tm ↔ timers (br s) !! id = Some tm)) ∧
  typewriterInterval (tw s') = typewriterInterval (tw s) ∧
  isTyping (tw s') = isTyping (tw s) ∧
  currentText (tw s') = currentText (tw s) ∧
  currentIndex (tw s') = currentIndex (tw s).

(** Does handling [e] in [s] call [startTypewriterAnimation]? *)
Definition requests_start (s : state) (e : event) : bool :=
  match e with
  | TimerFires id =>
    match timers (br s) !! id with
    | Some tm =>
      match t_cb tm with
      | CbStartTypewriter | CbBootFallback => true
      | _ => false
      end
    | None => false
    end
  | DOMContentLoaded => dcl_listener (br s)
  | Mutations ms href => scan_mutations ms || negb (String.eqb href (lastUrl s))
  | CallStartTypewriter => true
  | _ => false
  end.

(** An execution in which no start is requested while a pause timeout
    of the typewriter is pending. *)
Fixpoint starts_outside_pauses (s : state) (tes : list (Z * event)) : Prop :=
  match tes with
  | [] => True
  | te :: tes' =>
    (requests_start s (snd te) = true → ¬ pause_pending s) ∧
    starts_outside_pauses (step s te) tes'
  end.

(** The same, as checks that compute. *)
Definition pause_pendingb (s : state) : bool :=
  existsb (λ p : nat * timer,
             match t_cb (snd p) with
             | CbAfterType | CbAfterDelete => true
             | _ => false
             end)
          (map_to_list (timers (br s))).

Fixpoint starts_outside_pausesb (s : state) (tes : list (Z * event)) : bool :=
  match tes with
  | [] => true
  | te :: tes' =>
    (negb (requests_start s (snd te)) || negb (pause_pendingb s)) &&
    starts_outside_pausesb (step s te) tes'
  end.

(** *** The animation loop and the containers *)



(** The container the document points to exists; a running run listens
    for window resizes and is the run whose cleanup its container
    holds; and a container holds the canvas and the mousemove listener
    of that run and of no other. *)
Record housed (s : state) : Prop := {
  ho_container : ∀ c, container (doc s) = Some c → is_Some (containers (doc s) !! c);
  ho_nodup : NoDup (resize_listeners (br s));
  ho_listens : ∀ r x, runs (fl s) !! r = Some x → running x = true →
                 r ∈ resize_listeners (br s);
  ho_handle : ∀ r x, runs (fl s) !! r = Some x → running x = true →
                ∃ o, containers (doc s) !! r_container x = Some o ∧
                     _flowingLightCleanup o = Some r;
  ho_canvas : ∀ c o, containers (doc s) !! c = Some o →
                match _flowingLightCleanup o with
                | Some r => canvases o = [r] ∧ mousemove_listeners o = [r] ∧ live_run r c s
                | None => canvases o = [] ∧ mousemove_listeners o = []
                end;
}.

(** [s'] differs from [s] in nothing the particle field looks at. *)
Definition same_stage (s s' : state) : Prop :=
  frames (br s') = frames (br s) ∧
  next_frame (br s') = next_frame (br s) ∧
  resize_listeners (br s') = resize_listeners (br s) ∧
  fl s' = fl s ∧
  containers (doc s') = containers (doc s) ∧
  container (doc s') = container (doc s).

(** *** Debounce timeouts, the retry budget and the typing position *)

(** A pending debounce timeout belongs to a run that remembers it in
    [resizeTimer], and the handle in [resizeTimer] names no timer but
    the run's own debounce timeout. *)
Record debouncing (s : state) : Prop := {
  de_owner : ∀ id tm r, timers (br s) !! id = Some tm → t_cb tm = CbDebounce r →
               t_kind tm = OneShot ∧
               t_delay tm = RESIZE_DEBOUNCE_MS FLOWING_LIGHT_CONFIG ∧
               ∃ x, runs (fl s) !! r = Some x ∧ resizeTimer x = id;
  de_points : ∀ r x tm, runs (fl s) !! r = Some x →
                timers (br s) !! resizeTimer x = Some tm → t_cb tm = CbDebounce r;
}.

(** Run [r] has its debounce timeout pending: timer [id], due [due]. *)
Definition debounce_due (r id : nat) (due : Z) (s : state) : Prop :=
  ∃ x, runs (fl s) !! r = Some x ∧ resizeTimer x = id ∧
       timers (br s) !! id =
         Some (Timer OneShot (RESIZE_DEBOUNCE_MS FLOWING_LIGHT_CONFIG) due (CbDebounce r)).

(** A callback other than a debounced resize. *)
Definition not_debounce (cb : callback) : Prop := ∀ r, cb ≠ CbDebounce r.

(** [retryCount] is within its budget. *)
Definition retry_in_budget (s : state) : Prop :=
  0 ≤ retryCount (fl s) ≤ MAX_RETRIES FLOWING_LIGHT_CONFIG.

(** The typing position is within the title. *)
Definition index_in_range (s : state) : Prop :=
  (currentIndex (tw s) ≤ String.length (text TYPEWRITER_CONFIG))%nat.

(** The state of the typewriter while interval [i] is at work. *)
Record at_work (i e : nat) (typing deleting : bool) (txt : string) (k : nat)
    (next : nat) (s : state) : Prop := {
  aw_tw : tw s = Typewriter (Some i) (Some e) typing deleting txt k;
  aw_timer : ∃ tm, timers (br s) !! i = Some tm ∧ t_kind tm = Repeating ∧
                   t_cb tm = CbTypewriterTick;
  aw_next : next_timer (br s) = next;
}.


(** ** Sample executions

    All of them start from the home page, fully loaded: the title is
    element 7, the container element 3 with a 50 by 30 rectangle. *)

Definition home : string := "https://docs.hifibridge.com/".

Definition home_page : state :=
  script_loaded Complete (Some 7%nat) (Some (3%nat, (50 # 1, 30 # 1)%Q)) home.

(** A page without title and without container. *)
Definition other_page : state := script_loaded Complete None None home.

(** [n] firings of timer [id], the first at [first], then every [period]. *)
Definition ticks (id : nat) (first period : Z) (n : nat) : list (Z * event) :=
  (λ k : nat, (first + period * Z.of_nat k, TimerFires id)) <$> seq 0 n.

(** The first 500 ms: the two boot fallbacks and three characters typed
    by interval 1. *)
Definition first_half_second : list (Z * event) :=
  [(100, TimerFires 2%nat)] ++ ticks 1 150 150 3 ++ [(500, TimerFires 3%nat)].

(** One full cycle: the title typed (interval 1) and held for 5 s
    (timeout 4), deleted (interval 5), and the 500 ms pause before the
    next cycle (timeout 6) begun at 7000 ms. *)
Definition first_cycle : list (Z * event) :=
  first_half_second ++ ticks 1 600 150 7 ++
  [(6500, TimerFires 4%nat)] ++ ticks 5 6550 50 10.

(** 10 ms into that pause an anchor link has been followed and the
    page changes something in the DOM: the URL observer sees a new URL
    and starts both effects.  The new interval 7 types three characters
    before timeout 6 fires, then types a fourth. *)
Definition anchor_followed : event :=
  Mutations [] "https://docs.hifibridge.com/#quickstart".

Definition restart_in_delete_pause : list (Z * event) :=
  first_cycle ++ [(7010, anchor_followed)] ++ ticks 7 7160 150 3 ++
  [(7500, TimerFires 6%nat); (7610, TimerFires 7%nat)].

(** ... and intervals 7 and 8 go on to the end of the title. *)
Definition restart_in_delete_pause_typed_out : list (Z * event) :=
  restart_in_delete_pause ++
  [(7650, TimerFires 8%nat); (7760, TimerFires 7%nat); (7800, TimerFires 8%nat);
   (7910, TimerFires 7%nat); (7950, TimerFires 8%nat); (8060, TimerFires 7%nat);
   (8100, TimerFires 8%nat); (8210, TimerFires 7%nat)].

(** A start request while the typed title is held: interval 5 retypes
    it and is still live when timeout 4 starts the deleting interval. *)
Definition restart_in_type_pause : list (Z * event) :=
  first_half_second ++ ticks 1 600 150 7 ++
  [(5100, CallStartTypewriter)] ++ ticks 5 5250 150 9 ++ [(6500, TimerFires 4%nat)].

(** ... and interval 6, then interval 5, tick once more. *)
Definition restart_in_type_pause_goes_on : list (Z * event) :=
  restart_in_type_pause ++ [(6550, TimerFires 6%nat); (6600, TimerFires 5%nat)].

(** The window is resized at 1000 ms and the particle field stopped
    10 ms later, inside the debounce delay. *)
Definition stop_flowing_in_debounce : list (Z * event) :=
  first_half_second ++ ticks 1 600 150 3 ++
  [(1000, WindowResize); (1010, CallStopFlowingLight)].

(** Then the debounce timeout 4 fires, the title is completed, and the
    typewriter is stopped at 2000 ms, while the title is held. *)
Definition stop_typewriter_in_pause : list (Z * event) :=
  stop_flowing_in_debounce ++
  [(1050, TimerFires 1%nat); (1150, TimerFires 4%nat); (1200, TimerFires 1%nat);
   (1350, TimerFires 1%nat); (1500, TimerFires 1%nat); (2000, CallStopTypewriter)].

(** The hold ends at 6500 ms, and the deleting interval ticks once. *)
Definition after_stopped_typewriter : list (Z * event) :=
  stop_typewriter_in_pause ++ [(6500, TimerFires 5%nat); (6550, TimerFires 6%nat)].

(** Mutation records of a navigation that inserts the page body. *)
Definition page_subtree : node :=
  ElementNode "page"
    [ ElementNode "hero" [ TextNode "HIFI DOCS" ];
      ElementNode "flowing-light-container" [] ].

Definition page_inserted : mutation :=
  {| m_type := ChildList; addedNodes := [ TextNode "x"; page_subtree ] |}.

Definition sample_mutations : list mutation :=
  [ {| m_type := Attributes; addedNodes := [] |}; page_inserted ].

(** One cycle of the typewriter begun at [t0] by a start that created
    interval [i]: ten ticks of the typing interval, the hold, ten ticks
    of the deleting interval, and the pause before the next cycle. *)
Definition typing_ticks (i : nat) (t0 : Z) (n : nat) : list (Z * event) :=
  ticks i (t0 + 150) 150 n.
Definition deleting_ticks (i : nat) (t0 : Z) (n : nat) : list (Z * event) :=
  ticks (S (S i)) (t0 + 6550) 50 n.
Definition one_cycle (i : nat) (t0 : Z) : list (Z * event) :=
  typing_ticks i t0 10 ++ [(t0 + 6500, TimerFires (S i))] ++
  deleting_ticks i t0 10 ++ [(t0 + 7500, TimerFires (S (S (S i))))].

(** Mutation records that have nothing to do with the container: the
    container's id appears only in a text node and in a node listed by
    an attribute mutation. *)
Definition unrelated_mutations : list mutation :=
  [ Mutation ChildList
      [ TextNode "loading"; ElementNode "sidebar" [ElementNode "nav" []; CommentNode "x"] ];
    Mutation Attributes [ ElementNode "flowing-light-container" [] ];
    Mutation ChildList [ TextNode "flowing-light-container" ] ].

(** * Properties *)

(** ** The grid built by [resize] *)

Lemma fill_cell_eq r i a c :
  fill_cell r (i, a) c =
  (S (S i), <[S i := fround (r * 25)]> (<[i := fround (c * 25)]> a)).
Proof. reflexivity. Qed.

Lemma fill_cells_spec r (n : nat) i a :
  ∃ a', foldl (fill_cell r) (i, a) (seqZ 0 (Z.of_nat n)) = ((i + 2 * n)%nat, a') ∧
    length a' = length a ∧
    (∀ j, (j < i ∨ i + 2 * n ≤ j)%nat → a' !! j = a !! j) ∧
    (∀ c, (c < n)%nat → (i + 2 * c + 1 < length a)%nat →
       a' !! (i + 2 * c)%nat = Some (fround (Z.of_nat c * 25)) ∧
       a' !! (i + 2 * c + 1)%nat = Some (fround (r * 25))).
Proof.
  induction n as [|n IH].
  - exists a. replace (i + 2 * 0)%nat with i by lia.
    split; [done|]. split; [done|]. split; [done|]. intros; lia.
  - destruct IH as (a' & Hf & Hlen & Hout & Hin).
    rewrite seqZ_S, foldl_snoc, Hf, fill_cell_eq, Z.add_0_l.
    eexists. split; [f_equal; lia|].
    split; [by rewrite !length_insert|].
    split.
    + intros j Hj. rewrite !list_lookup_insert_ne by lia. apply Hout. lia.
    + intros c Hc Hlt.
      destruct (decide (c = n)) as [->|Hne].
      * split.
        -- rewrite list_lookup_insert_ne by lia.
           rewrite list_lookup_insert_eq by (rewrite ?length_insert; lia). done.
        -- replace (i + 2 * n + 1)%nat with (S (i + 2 * n)) by lia.
           rewrite list_lookup_insert_eq by (rewrite ?length_insert; lia). done.
      * rewrite !list_lookup_insert_ne by lia. apply Hin; lia.
Qed.

Lemma fill_rows_spec (cn : nat) (m : nat) a :
  ∃ a', foldl (fill_row (Z.of_nat cn)) (0%nat, a) (seqZ 0 (Z.of_nat m)) = ((2 * cn * m)%nat, a') ∧
    length a' = length a ∧
    (∀ j, (2 * cn * m ≤ j)%nat → a' !! j = a !! j) ∧
    (∀ r c, (r < m)%nat → (c < cn)%nat → (2 * (r * cn + c) + 1 < length a)%nat →
       a' !! (2 * (r * cn + c))%nat = Some (fround (Z.of_nat c * 25)) ∧
       a' !! (2 * (r * cn + c) + 1)%nat = Some (fround (Z.of_nat r * 25))).
Proof.
  induction m as [|m IH].
  - exists a. replace (2 * cn * 0)%nat with 0%nat by lia.
    split; [done|]. split; [done|]. split; [done|]. intros; lia.
  - destruct IH as (a' & Hf & Hlen & Hout & Hin).
    rewrite seqZ_S, foldl_snoc, Hf, Z.add_0_l. unfold fill_row at 1.
    destruct (fill_cells_spec (Z.of_nat m) cn (2 * cn * m) a')
      as (a'' & Hf' & Hlen' & Hout' & Hin').
    exists a''. rewrite Hf'.
    split; [f_equal; lia|].
    split; [congruence|].
    split.
    + intros j Hj. rewrite Hout' by lia. apply Hout. lia.
    + intros r c Hr Hc Hlt.
      destruct (decide (r = m)) as [->|Hne].
      * replace (2 * (m * cn + c))%nat with (2 * cn * m + 2 * c)%nat by lia.
        apply Hin'; [done|]. rewrite Hlen. lia.
      * assert (r < m)%nat as Hr' by lia.
        assert (2 * (r * cn + c) + 1 < 2 * cn * m)%nat as Hb by nia.
        rewrite !Hout' by lia. apply Hin; auto.
Qed.

Lemma ceil_div_25 n : ceil_div n 25 = - ((- n) / 25).
Proof.
  unfold ceil_div, Qceiling, Qfloor. simpl. rewrite Z.mul_1_r. reflexivity.
Qed.

Lemma ceil_div_25_bounds n :
  (ceil_div n 25 - 1) * 25 < n ≤ ceil_div n 25 * 25.
Proof.
  rewrite ceil_div_25.
  pose proof (Z.div_mod (- n) 25 ltac:(lia)).
  pose proof (Z.mod_pos_bound (- n) 25 ltac:(lia)). lia.
Qed.

Lemma ceil_div_25_pos n : 1 ≤ n → 1 ≤ ceil_div n 25.
Proof. intros. pose proof (ceil_div_25_bounds n). lia. Qed.

Lemma fround_small n : Z.abs n < 2 ^ 24 → fround n = n.
Proof.
  intros H. unfold fround. destruct (Z.ltb_spec (Z.abs n) (2 ^ 24)); [done|lia].
Qed.

Lemma resize_width w h x : width (resize w h x) = Z.max 1 (to_int32 w).
Proof. reflexivity. Qed.
Lemma resize_height w h x : height (resize w h x) = Z.max 1 (to_int32 h).
Proof. reflexivity. Qed.
Lemma resize_cols w h x :
  cols (resize w h x) = ceil_div (width (resize w h x)) (GRID_SIZE FLOWING_LIGHT_CONFIG).
Proof. reflexivity. Qed.
Lemma resize_rows w h x :
  rows (resize w h x) = ceil_div (height (resize w h x)) (GRID_SIZE FLOWING_LIGHT_CONFIG).
Proof. reflexivity. Qed.

Lemma resize_cols_rows_pos w h x : 1 ≤ cols (resize w h x) ∧ 1 ≤ rows (resize w h x).
Proof.
  rewrite resize_cols, resize_rows, resize_width, resize_height.
  split; apply ceil_div_25_pos; lia.
Qed.

Lemma resize_dots w h x :
  dots (resize w h x) =
  snd (fill_grid (rows (resize w h x)) (cols (resize w h x))
         (Float32Array (cols (resize w h x) * rows (resize w h x) * 2))).
Proof. reflexivity. Qed.

Lemma resize_dots_length w h x :
  Z.of_nat (length (dots (resize w h x))) = cols (resize w h x) * rows (resize w h x) * 2.
Proof.
  destruct (resize_cols_rows_pos w h x) as [Hc Hr].
  rewrite resize_dots. unfold fill_grid.
  generalize dependent (cols (resize w h x)). generalize dependent (rows (resize w h x)).
  intros rn Hr cn Hc.
  rewrite <- (Z2Nat.id cn), <- (Z2Nat.id rn) by lia.
  destruct (fill_rows_spec (Z.to_nat cn) (Z.to_nat rn)
              (Float32Array (Z.of_nat (Z.to_nat cn) * Z.of_nat (Z.to_nat rn) * 2)))
    as (a' & Hf & Hlen & _).
  rewrite Hf. simpl. rewrite Hlen. unfold Float32Array. rewrite length_replicate. lia.
Qed.

Lemma fill_grid_lookup (cn rn r c : nat) :
  (r < rn)%nat → (c < cn)%nat →
  let a := snd (fill_grid (Z.of_nat rn) (Z.of_nat cn)
                  (Float32Array (Z.of_nat cn * Z.of_nat rn * 2))) in
  a !! (2 * (r * cn + c))%nat = Some (fround (Z.of_nat c * 25)) ∧
  a !! (2 * (r * cn + c) + 1)%nat = Some (fround (Z.of_nat r * 25)).
Proof.
  intros Hr Hc. unfold fill_grid.
  destruct (fill_rows_spec cn rn (Float32Array (Z.of_nat cn * Z.of_nat rn * 2)))
    as (a' & Hf & Hlen & _ & Hin).
  rewrite Hf. simpl.
  apply Hin; [done..|].
  unfold Float32Array. rewrite length_replicate. nia.
Qed.

Lemma resize_dots_lookup w h x r c :
  0 ≤ r < rows (resize w h x) → 0 ≤ c < cols (resize w h x) →
  dots (resize w h x) !! Z.to_nat (2 * (r * cols (resize w h x) + c))
    = Some (fround (c * 25)) ∧
  dots (resize w h x) !! Z.to_nat (2 * (r * cols (resize w h x) + c) + 1)
    = Some (fround (r * 25)).
Proof.
  rewrite resize_dots.
  generalize (cols (resize w h x)) (rows (resize w h x)).
  intros cn rn Hr Hc.
  pose proof (fill_grid_lookup (Z.to_nat cn) (Z.to_nat rn) (Z.to_nat r) (Z.to_nat c)
                ltac:(lia) ltac:(lia)) as H.
  rewrite !Z2Nat.id in H by lia.
  replace (Z.to_nat (2 * (r * cn + c)))
    with (2 * (Z.to_nat r * Z.to_nat cn + Z.to_nat c))%nat by nia.
  replace (Z.to_nat (2 * (r * cn + c) + 1))
    with (2 * (Z.to_nat r * Z.to_nat cn + Z.to_nat c) + 1)%nat by nia.
  exact H.
Qed.

(** C5.  After every call of [resize] the number of grid points, the
    length of [dots] divided by two, is
    [ceil(width / GRID_SIZE) * ceil(height / GRID_SIZE)], where [width]
    and [height] are the sides of the container's rectangle truncated
    to 32-bit integers and clamped to at least 1, and [GRID_SIZE] is
    25. *)
Theorem resize_point_count (rect_w rect_h : Q) (x : run) :
  let x' := resize rect_w rect_h x in
  width x' = Z.max 1 (to_int32 rect_w) ∧
  height x' = Z.max 1 (to_int32 rect_h) ∧
  Z.of_nat (length (dots x')) / 2 =
    Qceiling (inject_Z (width x') / inject_Z (GRID_SIZE FLOWING_LIGHT_CONFIG)) *
    Qceiling (inject_Z (height x') / inject_Z (GRID_SIZE FLOWING_LIGHT_CONFIG)) ∧
  GRID_SIZE FLOWING_LIGHT_CONFIG = 25.
Proof.
  intros x'. split; [done|]. split; [done|]. split; [|done].
  unfold x'. rewrite resize_dots_length, Z.div_mul by lia.
  reflexivity.
Qed.

(** C7, as amended.  After every call of [resize] the point at row [r]
    and column [c] is stored at index [2 * (r * cols + c)] and the next
    one, and its coordinates are [c * GRID_SIZE] and [r * GRID_SIZE]
    rounded to single precision, which is what a [Float32Array] keeps;
    the rounding changes nothing while the clamped width, respectively
    height, is at most [2 ^ 24].  The lattice spans the clamped width
    and height: the last column and row start inside them and end at or
    past them. *)
Theorem resize_lattice (rect_w rect_h : Q) (x : run) (r c : Z) :
  let x' := resize rect_w rect_h x in
  let g := GRID_SIZE FLOWING_LIGHT_CONFIG in
  0 ≤ r < rows x' → 0 ≤ c < cols x' →
  dots x' !! Z.to_nat (2 * (r * cols x' + c)) = Some (fround (c * g)) ∧
  dots x' !! Z.to_nat (2 * (r * cols x' + c) + 1) = Some (fround (r * g)) ∧
  (width x' ≤ 2 ^ 24 → fround (c * g) = c * g) ∧
  (height x' ≤ 2 ^ 24 → fround (r * g) = r * g) ∧
  (cols x' - 1) * g < width x' ≤ cols x' * g ∧
  (rows x' - 1) * g < height x' ≤ rows x' * g.
Proof.
  intros x' g Hr Hc. unfold g. simpl (GRID_SIZE _).
  pose proof (ceil_div_25_bounds (width x')) as Hw.
  pose proof (ceil_div_25_bounds (height x')) as Hh.
  change (ceil_div (width x') 25) with (cols x') in Hw.
  change (ceil_div (height x') 25) with (rows x') in Hh.
  destruct (resize_dots_lookup rect_w rect_h x r c Hr Hc) as [H1 H2].
  split; [exact H1|]. split; [exact H2|].
  split; [intros; apply fround_small; lia|].
  split; [intros; apply fround_small; lia|].
  split; assumption.
Qed.

Lemma resize_lattice_witness :
  let x' := resize (50 # 1) (30 # 1) (new_run 0) in
  (0 ≤ 1 < rows x' ∧ 0 ≤ 1 < cols x') ∧
  dots x' !! Z.to_nat (2 * (1 * cols x' + 1)) = Some 25 ∧
  dots x' !! Z.to_nat (2 * (1 * cols x' + 1) + 1) = Some 25.
Proof.
  intros x'.
  assert (0 ≤ 1 < rows x') as Hr by (vm_compute; split; congruence).
  assert (0 ≤ 1 < cols x') as Hc by (vm_compute; split; congruence).
  split; [split; assumption|].
  destruct (resize_lattice (50 # 1) (30 # 1) (new_run 0) 1 1 Hr Hc) as (H1 & H2 & _).
  split; [exact H1 | exact H2].
Defined.

(** C7 as stated fails for a container wider than [2 ^ 24] pixels: in
    a rectangle 16777250 wide and 1 high, column 671089 of row 0 is
    not at x = 16777225 but at 16777224, the nearest single-precision
    number. *)
Lemma float32_store_rounds_coordinate :
  let x' := resize (16777250 # 1) (1 # 1) (new_run 0) in
  let c := 671089 in
  (0 ≤ 0 < rows x' ∧ 0 ≤ c < cols x') ∧
  c * GRID_SIZE FLOWING_LIGHT_CONFIG = 16777225 ∧
  dots x' !! Z.to_nat (2 * (0 * cols x' + c)) = Some 16777224 ∧
  dots x' !! Z.to_nat (2 * (0 * cols x' + c)) ≠ Some (c * GRID_SIZE FLOWING_LIGHT_CONFIG).
Proof.
  intros x' c.
  assert (cols x' = 671090) as Hcols by (unfold x'; rewrite resize_cols, resize_width; by vm_compute).
  assert (rows x' = 1) as Hrows by (unfold x'; rewrite resize_rows, resize_height; by vm_compute).
  assert (0 ≤ 0 < rows x') as Hr by lia.
  assert (0 ≤ c < cols x') as Hc by (unfold c; lia).
  split; [split; assumption|]. split; [reflexivity|].
  destruct (resize_dots_lookup _ _ _ 0 c Hr Hc) as [H1 _].
  fold x' in H1. rewrite H1.
  assert (fround (c * 25) = 16777224) as -> by reflexivity.
  split; [reflexivity | discriminate].
Qed.

(** ** Brightness and opacity of a dot *)

Section Painting.
#[local] Open Scope R_scope.

Lemma wave_unit (a : R) : 0 <= sin a * 0.5 + 0.5 <= 1.
Proof. pose proof (SIN_bound a). lra. Qed.

Lemma dot_dist_nonneg mx my x0 y0 : 0 <= dot_dist mx my x0 y0.
Proof. apply sqrt_pos. Qed.

Lemma intensity_unit time dist : 0 <= intensity time dist <= 1.
Proof.
  unfold intensity, w1, w2, w3.
  pose proof (wave_unit (time * 0.8 - dist * 0.005)).
  pose proof (wave_unit (time * 0.6 - dist * 0.004 + PI / 3)).
  pose proof (wave_unit (time * 0.7 - dist * 0.006 + PI / 6)).
  lra.
Qed.

Lemma proxBoost_eq dist :
  proxBoost dist = Rmax 0 (1 - dist / 150) * 0.4.
Proof. unfold proxBoost, proxInv. simpl. f_equal. f_equal. lra. Qed.

Lemma proxBoost_nonneg dist : 0 <= proxBoost dist.
Proof.
  unfold proxBoost. pose proof (Rmax_l 0 (1 - dist * proxInv)). lra.
Qed.

Lemma finalIntensity_unit time dist : 0 <= finalIntensity time dist <= 1.
Proof.
  unfold finalIntensity. pose proof (intensity_unit time dist).
  pose proof (proxBoost_nonneg dist).
  split; [apply Rmin_glb; lra | apply Rmin_l].
Qed.

Lemma opacity_eq time dist :
  opacity time dist = 0.02 + finalIntensity time dist * 0.5.
Proof. unfold opacity, Q2R. simpl. lra. Qed.

(** C6.  For every grid point, elapsed time and cursor position, the
    brightness [tick] computes is the mean of three phase-shifted sine
    waves of the elapsed time and the distance to the cursor, each
    mapped into [0, 1], plus the proximity boost
    [max(0, 1 - dist / PROX_RADIUS) * 0.4], the sum capped at 1; the
    painted opacity is [OPACITY_BASE + finalIntensity * OPACITY_SCALE]
    and lies in [0.02, 0.52].  The arithmetic is that of the real
    numbers. *)
Theorem dot_opacity_formula_and_range (time mouseX mouseY x0 y0 : R) :
  let dist := dot_dist mouseX mouseY x0 y0 in
  let a1 := sin (time * 0.8 - dist * 0.005) * 0.5 + 0.5 in
  let a2 := sin (time * 0.6 - dist * 0.004 + PI / 3) * 0.5 + 0.5 in
  let a3 := sin (time * 0.7 - dist * 0.006 + PI / 6) * 0.5 + 0.5 in
  dist = sqrt ((mouseX - x0) * (mouseX - x0) + (mouseY - y0) * (mouseY - y0)) /\
  (0 <= a1 <= 1 /\ 0 <= a2 <= 1 /\ 0 <= a3 <= 1) /\
  finalIntensity time dist =
    Rmin 1 ((a1 + a2 + a3) / 3 + Rmax 0 (1 - dist / 150) * 0.4) /\
  dot_opacity time mouseX mouseY x0 y0 = 0.02 + finalIntensity time dist * 0.5 /\
  0.02 <= dot_opacity time mouseX mouseY x0 y0 <= 0.52.
Proof.
  intros dist a1 a2 a3.
  split; [reflexivity|].
  split; [repeat split; apply wave_unit|].
  split; [unfold finalIntensity; rewrite proxBoost_eq; reflexivity|].
  unfold dot_opacity. fold dist. rewrite opacity_eq.
  split; [reflexivity|].
  pose proof (finalIntensity_unit time dist). lra.
Qed.
End Painting.

(** ** Mutation observers *)

Lemma querySelector_id_cons i j c l :
  querySelector_id i (ElementNode j (c :: l)) =
  match match c with
        | ElementNode ci _ => if String.eqb ci i then Some c else querySelector_id i c
        | _ => None
        end with
  | Some m => Some m
  | None => querySelector_id i (ElementNode j l)
  end.
Proof. reflexivity. Qed.

Lemma querySelector_id_found i j l c :
  c ∈ l →
  node_id c = Some i ∨ is_Some (querySelector_id i c) →
  is_Some (querySelector_id i (ElementNode j l)).
Proof.
  induction l as [|c' l IH]; intros Hin Hc; [by apply elem_of_nil in Hin|].
  rewrite querySelector_id_cons.
  apply elem_of_cons in Hin as [->|Hin].
  - destruct c' as [ci ch| |].
    + destruct Hc as [[= ->]|[m Hm]].
      * rewrite String.eqb_refl. eauto.
      * destruct (String.eqb ci i); [eauto|]. rewrite Hm. eauto.
    + destruct Hc as [?|[? ?]]; discriminate.
    + destruct Hc as [?|[? ?]]; discriminate.
  - destruct (match c' with ElementNode _ _ => _ | _ => _ end); eauto.
Qed.

Lemma descendant_found i d n :
  descendant d n → node_id d = Some i → is_Some (querySelector_id i n).
Proof.
  induction 1 as [j ch Hin | j ch c Hin Hd IH]; intros Hid.
  - eapply querySelector_id_found; eauto.
  - eapply querySelector_id_found; eauto.
Qed.

Lemma adds_container_complete n :
  is_or_contains_container n → adds_container n = true.
Proof.
  intros [Hty [Hid | (d & Hd & Hid)]]; unfold adds_container; rewrite Hty; simpl.
  - rewrite Hid. by rewrite String.eqb_refl.
  - rewrite (bool_decide_eq_true_2 _ (descendant_found _ _ _ Hd Hid)).
    apply orb_true_r.
Qed.

Lemma scan_nodes_complete ns n :
  n ∈ ns → adds_container n = true → scan_nodes ns = true.
Proof.
  induction ns as [|n' ns IH]; intros Hin Hn; [by apply elem_of_nil in Hin|].
  simpl. apply elem_of_cons in Hin as [->|Hin]; [by rewrite Hn|].
  destruct (adds_container n'); auto.
Qed.

Lemma scan_mutations_complete ms m :
  m ∈ ms → m_type m = ChildList → scan_nodes (addedNodes m) = true →
  scan_mutations ms = true.
Proof.
  induction ms as [|m' ms IH]; intros Hin Hty Hn; [by apply elem_of_nil in Hin|].
  simpl. apply elem_of_cons in Hin as [->|Hin]; [by rewrite Hty, Hn|].
  destruct (m_type m'); auto. destruct (scan_nodes (addedNodes m')); auto.
Qed.

Lemma lastUrl_startTypewriterAnimation s :
  lastUrl (startTypewriterAnimation s) = lastUrl s.
Proof.
  unfold startTypewriterAnimation. simpl.
  destruct (hero_title (doc s)); [destruct (typewriterInterval (tw s))|]; reflexivity.
Qed.

Lemma lastUrl_cleanup r s : lastUrl (cleanup r s) = lastUrl s.
Proof. unfold cleanup. destruct (runs (fl s) !! r); reflexivity. Qed.

Lemma lastUrl_startAnimation s : lastUrl (startAnimation s) = lastUrl s.
Proof.
  unfold startAnimation.
  destruct (container (doc s)) as [c|].
  - simpl. unfold resize_run. simpl. rewrite lookup_insert_eq.
    repeat case_match; simpl; rewrite ?lastUrl_cleanup; reflexivity.
  - destruct (retryCount (fl s) <? MAX_RETRIES FLOWING_LIGHT_CONFIG); reflexivity.
Qed.

Lemma lastUrl_containerObserver ms s : lastUrl (containerObserver ms s) = lastUrl s.
Proof.
  unfold containerObserver, start_both. destruct (scan_mutations ms); [|done].
  by rewrite lastUrl_startTypewriterAnimation, lastUrl_startAnimation.
Qed.

(** C8.  When a batch of mutation records lists, among the nodes added
    by a child-list mutation, an element that is the flowing-light
    container or contains it, the container observer calls
    [startAnimation] and then [startTypewriterAnimation]; when the URL
    seen by the second observer differs from [lastUrl], that observer
    records it and calls the same two functions.  Both happen inside
    the step that delivers the records. *)
Theorem observers_restart_both_effects :
  (∀ ms href s m n,
     m ∈ ms → m_type m = ChildList → n ∈ addedNodes m →
     is_or_contains_container n →
     containerObserver ms s = startTypewriterAnimation (startAnimation s) ∧
     handle (Mutations ms href) s =
       urlObserver href (startTypewriterAnimation (startAnimation s))) ∧
  (∀ ms href s,
     href ≠ lastUrl s →
     urlObserver href s =
       startTypewriterAnimation (startAnimation (set_lastUrl href s)) ∧
     handle (Mutations ms href) s =
       startTypewriterAnimation
         (startAnimation (set_lastUrl href (containerObserver ms s)))).
Proof.
  split.
  - intros ms href s m n Hm Hty Hn Hc.
    assert (containerObserver ms s = startTypewriterAnimation (startAnimation s)) as Heq.
    { unfold containerObserver.
      erewrite scan_mutations_complete; eauto.
      eapply scan_nodes_complete; eauto using adds_container_complete. }
    split; [exact Heq|]. simpl. by rewrite Heq.
  - intros ms href s Hne.
    assert (∀ s', lastUrl s' = lastUrl s →
              urlObserver href s' =
              startTypewriterAnimation (startAnimation (set_lastUrl href s'))) as Hurl.
    { intros s' Hs'. unfold urlObserver. rewrite Hs'.
      destruct (String.eqb_spec href (lastUrl s)); done. }
    split; [by apply Hurl|]. simpl. apply Hurl, lastUrl_containerObserver.
Qed.

Lemma observers_restart_both_effects_witness :
  let s := script_loaded Complete (Some 7%nat) None home in
  containerObserver sample_mutations s = startTypewriterAnimation (startAnimation s) ∧
  urlObserver "https://docs.hifibridge.com/#intro" s =
    startTypewriterAnimation
      (startAnimation (set_lastUrl "https://docs.hifibridge.com/#intro" s)).
Proof.
  intros s. split.
  - refine (proj1 (proj1 observers_restart_both_effects sample_mutations home s
                     page_inserted page_subtree _ _ _ _)).
    + apply list_elem_of_further, list_elem_of_here.
    + reflexivity.
    + apply list_elem_of_further, list_elem_of_here.
    + split; [reflexivity|]. right.
      exists (ElementNode "flowing-light-container" []). split; [|reflexivity].
      apply desc_child, list_elem_of_further, list_elem_of_here.
  - refine (proj1 (proj2 observers_restart_both_effects [] _ s _)).
    vm_compute. discriminate.
Defined.

(** ** Stopping the typewriter *)

Lemma write_textContent_lookup v s e :
  typewriterElement (tw s) = Some e →
  textContent (doc (write_textContent v s)) !! e = Some v.
Proof. intros H. unfold write_textContent. rewrite H. simpl. apply lookup_insert_eq. Qed.

(** C10.  Called while [typewriterElement] holds the element found by
    a start, [stopTypewriterAnimation] sets that element's text to the
    whole target string "HIFI DOCS", whatever partial string was
    showing. *)
Theorem stop_shows_full_text (s : state) (e : nat) :
  typewriterElement (tw s) = Some e →
  textContent (doc (stopTypewriterAnimation s)) !! e = Some (text TYPEWRITER_CONFIG) ∧
  text TYPEWRITER_CONFIG = "HIFI DOCS"%string.
Proof.
  intros H. split; [|reflexivity]. unfold stopTypewriterAnimation.
  apply write_textContent_lookup.
  destruct (typewriterInterval (tw s)); exact H.
Qed.

Lemma stop_shows_full_text_witness :
  let s := run_events home_page first_half_second in
  (typewriterElement (tw s) = Some 7%nat ∧
   textContent (doc s) !! 7%nat = Some "HIF"%string) ∧
  textContent (doc (stopTypewriterAnimation s)) !! 7%nat = Some "HIFI DOCS"%string.
Proof.
  intros s.
  assert (typewriterElement (tw s) = Some 7%nat) as He by (vm_compute; reflexivity).
  split; [split; [exact He | vm_compute; reflexivity]|].
  exact (proj1 (stop_shows_full_text s 7%nat He)).
Defined.

(** ** The typewriter, one callback at a time *)

Lemma typing_appends_next_character s :
  isTyping (tw s) = true →
  (currentIndex (tw s) < String.length (text TYPEWRITER_CONFIG))%nat →
  currentText (tw (typewriterTick s)) =
    append_char_at (currentText (tw s)) (text TYPEWRITER_CONFIG) (currentIndex (tw s)) ∧
  currentIndex (tw (typewriterTick s)) = S (currentIndex (tw s)) ∧
  timers (br (typewriterTick s)) = timers (br s).
Proof.
  intros Hty Hlt. unfold typewriterTick. rewrite Hty.
  apply Nat.ltb_lt in Hlt. rewrite Hlt.
  unfold write_textContent. simpl.
  destruct (typewriterElement (tw s)); done.
Qed.

Lemma deleting_removes_last_character s :
  isTyping (tw s) = false → isDeleting (tw s) = true →
  (0 < String.length (currentText (tw s)))%nat →
  currentText (tw (typewriterTick s)) = slice_drop_last (currentText (tw s)) ∧
  currentIndex (tw (typewriterTick s)) = currentIndex (tw s) ∧
  timers (br (typewriterTick s)) = timers (br s).
Proof.
  intros Hty Hdel Hlt. unfold typewriterTick. rewrite Hty, Hdel.
  apply Nat.ltb_lt in Hlt. rewrite Hlt.
  unfold write_textContent. simpl.
  destruct (typewriterElement (tw s)); done.
Qed.

(** The guard of [startTypewriterAnimation]: with an interval handle in
    [typewriterInterval] and the element in place, a start request
    changes nothing. *)
Lemma start_while_interval_held s e id :
  hero_title (doc s) = Some e → typewriterElement (tw s) = Some e →
  typewriterInterval (tw s) = Some id →
  startTypewriterAnimation s = s.
Proof.
  intros Hh He Hi. unfold startTypewriterAnimation. simpl. rewrite Hh, Hi.
  destruct s as [b d [i el ty de t ix] f u]. simpl in *. by subst.
Qed.

(** The guard looks at [typewriterInterval] only.  During either pause
    that variable is [null] while a timeout is waiting to install the
    next interval, so a start request gets through. *)
Lemma start_during_pause_gets_through s e :
  hero_title (doc s) = Some e → typewriterInterval (tw s) = None →
  timers (br (startTypewriterAnimation s)) =
    <[next_timer (br s) :=
        Timer Repeating 150 (now (br s) + 150) CbTypewriterTick]> (timers (br s)) ∧
  typewriterInterval (tw (startTypewriterAnimation s)) = Some (next_timer (br s)).
Proof.
  intros Hh Hi. unfold startTypewriterAnimation. simpl. by rewrite Hh, Hi.
Qed.

(** ** String facts *)

Lemma prefix_empty u : String.prefix EmptyString u = true.
Proof. by destruct u. Qed.

Lemma prefix_substring t : ∀ u n,
  String.prefix t u = true → String.prefix (substring 0 n t) u = true.
Proof.
  induction t as [|a t IH]; intros u n H.
  - destruct n; exact H.
  - destruct n; [apply prefix_empty|]. destruct u as [|b u]; simpl in *; [done|].
    destruct (ascii_dec a b); [|done]. by apply IH.
Qed.

Lemma prefix_snoc t : ∀ u c,
  String.prefix t u = true → String.get (String.length t) u = Some c →
  String.prefix (t +:+ String c EmptyString) u = true.
Proof.
  induction t as [|a t IH]; intros u c H Hget; destruct u as [|b u]; simpl in *; try done.
  - injection Hget as ->. destruct (ascii_dec c c); [apply prefix_empty|done].
  - destruct (ascii_dec a b); [|done]. by apply IH.
Qed.

Lemma prefix_length t : ∀ u,
  String.prefix t u = true → (String.length t ≤ String.length u)%nat.
Proof.
  induction t as [|a t IH]; intros u H; destruct u as [|b u]; simpl in *; try done; try lia.
  destruct (ascii_dec a b); [|done]. apply IH in H. lia.
Qed.

Lemma get_in_range u : ∀ i, (i < String.length u)%nat → is_Some (String.get i u).
Proof.
  induction u as [|b u IH]; intros i Hi; simpl in *; [lia|].
  destruct i; [eauto|]. apply IH. lia.
Qed.

Lemma length_zero_empty (t : string) : String.length t = 0%nat → t = EmptyString.
Proof. by destruct t. Qed.

(** ** Timer hygiene *)

Ltac same_timers := intros; repeat split; reflexivity.

Lemma hygienic_same s s' : same_timing s s' → hygienic s → hygienic s'.
Proof.
  intros (Ht & Hn & Hr) [H1 H2 H3 H4 H5].
  split; rewrite ?Ht, ?Hn, ?Hr; assumption.
Qed.

Lemma hygienic_schedule k cb d s : hygienic s → hygienic (snd (schedule k cb d s)).
Proof.
  intros [H1 H2 H3 H4 H5]. split; simpl.
  - rewrite lookup_insert_ne by lia. done.
  - lia.
  - intros id tm [[<- _]|[_ Hid]]%lookup_insert_Some; [lia|]. apply H3 in Hid. lia.
  - intros r x Hx. apply H4 in Hx. lia.
  - intros r x tm Hx. pose proof (H4 _ _ Hx).
    rewrite lookup_insert_ne by lia. eauto.
Qed.

Lemma hygienic_clearTimer id s : hygienic s → hygienic (clearTimer id s).
Proof.
  intros [H1 H2 H3 H4 H5]. split; simpl; try assumption.
  - apply lookup_delete_None. auto.
  - intros j tm [_ Hj]%lookup_delete_Some. eauto.
  - intros r x tm Hx [_ Hj]%lookup_delete_Some. eauto.
Qed.

Lemma hygienic_update_run r f s :
  (∀ x, resizeTimer (f x) = resizeTimer x) →
  hygienic s → hygienic (update_run r f s).
Proof.
  intros Hf [H1 H2 H3 H4 H5]. split; simpl; try assumption.
  - intros r' x' [(-> & y & Hy & ->)|[_ Hx]]%lookup_alter_Some; rewrite ?Hf; eauto.
  - intros r' x' tm [(-> & y & Hy & ->)|[_ Hx]]%lookup_alter_Some; rewrite ?Hf; eauto.
Qed.

Lemma hygienic_start_interval d s : hygienic s → hygienic (start_interval d s).
Proof.
  intros Hs. eapply hygienic_same; [|apply (hygienic_schedule Repeating CbTypewriterTick d), Hs].
  same_timers.
Qed.

Lemma hygienic_with_tw f s : hygienic s → hygienic (with_tw f s).
Proof. apply hygienic_same. same_timers. Qed.

Lemma hygienic_write_textContent v s : hygienic s → hygienic (write_textContent v s).
Proof.
  unfold write_textContent. destruct (typewriterElement (tw s)); [|done].
  apply hygienic_same. same_timers.
Qed.

Lemma hygienic_clear_typewriterInterval s :
  hygienic s → hygienic (clear_typewriterInterval s).
Proof.
  unfold clear_typewriterInterval.
  destruct (typewriterInterval (tw s)); auto using hygienic_clearTimer.
Qed.

Lemma hygienic_startTypewriterAnimation s :
  hygienic s → hygienic (startTypewriterAnimation s).
Proof.
  intros Hs. unfold startTypewriterAnimation. cbv zeta.
  set (s0 := with_tw (set_typewriterElement (hero_title (doc s))) s).
  assert (hygienic s0) as Hs0 by by apply hygienic_with_tw.
  clearbody s0.
  destruct (typewriterElement (tw s0)).
  - destruct (typewriterInterval (tw s0)); [done|].
    apply hygienic_start_interval. by repeat apply hygienic_with_tw.
  - by apply hygienic_schedule.
Qed.

Lemma hygienic_afterTypePause s : hygienic s → hygienic (afterTypePause s).
Proof.
  intros Hs. unfold afterTypePause.
  by apply hygienic_start_interval, hygienic_with_tw.
Qed.

Lemma hygienic_afterDeletePause s : hygienic s → hygienic (afterDeletePause s).
Proof.
  intros Hs. unfold afterDeletePause. case_match; [|done].
  apply hygienic_start_interval. by repeat apply hygienic_with_tw.
Qed.

Lemma hygienic_typewriterTick s : hygienic s → hygienic (typewriterTick s).
Proof.
  intros Hs. unfold typewriterTick.
  repeat case_match; try done.
  - apply hygienic_write_textContent. by repeat apply hygienic_with_tw.
  - apply hygienic_schedule, hygienic_with_tw, hygienic_clear_typewriterInterval.
    by apply hygienic_with_tw.
  - apply hygienic_write_textContent. by repeat apply hygienic_with_tw.
  - apply hygienic_schedule, hygienic_with_tw, hygienic_clear_typewriterInterval.
    by apply hygienic_with_tw.
Qed.

Lemma hygienic_stopTypewriterAnimation s :
  hygienic s → hygienic (stopTypewriterAnimation s).
Proof.
  intros Hs. unfold stopTypewriterAnimation.
  apply hygienic_write_textContent.
  destruct (typewriterInterval (tw s)); [|done].
  by apply hygienic_with_tw, hygienic_clearTimer.
Qed.

Lemma hygienic_request_tick r s : hygienic s → hygienic (request_tick r s).
Proof.
  intros Hs. unfold request_tick. simpl.
  apply (hygienic_update_run r (set_rafId (next_frame (br s)))); [done|].
  eapply hygienic_same; [|exact Hs]. same_timers.
Qed.

Lemma hygienic_cancel id s : hygienic s → hygienic (cancelAnimationFrame id s).
Proof. apply hygienic_same. same_timers. Qed.

Lemma hygienic_update_container c f s : hygienic s → hygienic (update_container c f s).
Proof. apply hygienic_same. same_timers. Qed.

Lemma hygienic_resize_run r s : hygienic s → hygienic (resize_run r s).
Proof.
  intros Hs. unfold resize_run. repeat case_match; try done.
  by apply hygienic_update_run.
Qed.

Lemma hygienic_tick r s : hygienic s → hygienic (tick r s).
Proof.
  intros Hs. unfold tick. repeat case_match; try done.
  by apply hygienic_request_tick, hygienic_update_run.
Qed.

Lemma hygienic_fire_frame id s : hygienic s → hygienic (fire_frame id s).
Proof.
  intros Hs. unfold fire_frame. case_match; [|done].
  by apply hygienic_tick, hygienic_cancel.
Qed.

Lemma hygienic_cleanup r s : hygienic s → hygienic (cleanup r s).
Proof.
  intros Hs. unfold cleanup. destruct (runs (fl s) !! r) as [x|]; [|done].
  repeat apply hygienic_update_container.
  assert (hygienic (cancelAnimationFrame (rafId x) (update_run r (set_running false) s)))
    as Hc by by apply hygienic_cancel, hygienic_update_run.
  eapply hygienic_same; [|exact Hc]. same_timers.
Qed.

Lemma hygienic_debounced r s : hygienic s → hygienic (debounced r s).
Proof.
  intros Hs. unfold debounced. case_match; [|done].
  case_match; [apply hygienic_request_tick|]; by apply hygienic_resize_run, hygienic_cancel.
Qed.

Lemma hygienic_onResize r s : hygienic s → hygienic (onResize r s).
Proof.
  intros Hs. unfold onResize. destruct (runs (fl s) !! r) as [x|] eqn:Hx; [|done].
  set (s1 := clearTimer (resizeTimer x) s).
  assert (hygienic s1) as Hs1 by by apply hygienic_clearTimer.
  pose proof (hygienic_schedule OneShot (CbDebounce r) 150 s1 Hs1) as [H1 H2 H3 H4 H5].
  split; simpl in *; try assumption.
  - intros r' x' [(-> & y & Hy & ->)|[_ Hx']]%lookup_alter_Some; simpl; [lia|eauto].
  - intros r' x' tm [(-> & y & Hy & ->)|[_ Hx']]%lookup_alter_Some; simpl; [|eauto].
    rewrite lookup_insert_eq. by intros [= <-].
Qed.

Lemma hygienic_new_run c s :
  hygienic s →
  hygienic (with_fl (λ g, set_runs (S (next_run (fl s)))
                            (<[next_run (fl s) := new_run c]> (runs g)) g) s).
Proof.
  intros [H1 H2 H3 H4 H5]. split; simpl; try assumption.
  - intros r x [[_ <-]|[_ Hx]]%lookup_insert_Some; simpl; eauto.
  - intros r x tm [[_ <-]|[_ Hx]]%lookup_insert_Some; simpl; [congruence|eauto].
Qed.

Lemma hygienic_startAnimation s : hygienic s → hygienic (startAnimation s).
Proof.
  intros Hs. unfold startAnimation.
  destruct (container (doc s)) as [c|].
  - cbv zeta.
    set (s1 := with_fl (set_retryCount 0) s).
    set (s2 := match containers (doc s1) !! c with
               | Some o => match _flowingLightCleanup o with
                           | Some r0 => cleanup r0 s1
                           | None => s1
                           end
               | None => s1
               end).
    assert (hygienic s2) as Hs2.
    { assert (hygienic s1) as Hs1 by (eapply hygienic_same; [|exact Hs]; same_timers).
      unfold s2. repeat case_match; auto using hygienic_cleanup. }
    clearbody s2. clear s1.
    set (q := next_run (fl s2)).
    set (s3 := update_container c (λ o, set_canvases (canvases o ++ [q]) o) s2).
    assert (hygienic s3) as Hs3 by by apply hygienic_update_container.
    assert (next_run (fl s3) = q) as Hq3 by reflexivity.
    clearbody s3.
    set (s4 := with_fl _ s3).
    assert (hygienic s4) as Hs4.
    { unfold s4. rewrite <- Hq3. apply hygienic_new_run, Hs3. }
    clearbody s4.
    repeat apply hygienic_update_container.
    eapply hygienic_same; [|apply hygienic_request_tick, hygienic_resize_run, Hs4].
    same_timers.
  - case_match; [|done].
    apply hygienic_schedule. eapply hygienic_same; [|exact Hs]. same_timers.
Qed.

Lemma hygienic_start_both s : hygienic s → hygienic (start_both s).
Proof.
  intros Hs. by apply hygienic_startTypewriterAnimation, hygienic_startAnimation.
Qed.

Lemma hygienic_run_callback cb s : hygienic s → hygienic (run_callback cb s).
Proof.
  destruct cb; simpl;
    auto using hygienic_typewriterTick, hygienic_startTypewriterAnimation,
      hygienic_afterTypePause, hygienic_afterDeletePause, hygienic_startAnimation,
      hygienic_debounced, hygienic_start_both.
Qed.

Lemma hygienic_reschedule id tm due s :
  timers (br s) !! id = Some tm →
  hygienic s →
  hygienic (with_br (λ b, set_timers (next_timer b)
              (<[id := Timer Repeating (t_delay tm) due (t_cb tm)]> (timers b)) b) s).
Proof.
  intros Hid [H1 H2 H3 H4 H5]. split; simpl; try assumption.
  - rewrite lookup_insert_ne; [done|]. intros ->. congruence.
  - intros j tm' [[<- _]|[_ Hj]]%lookup_insert_Some; eauto.
  - intros r x tm' Hx [[Heq <-]|[_ Hj]]%lookup_insert_Some; [|eauto].
    rewrite Heq in Hid. apply (H5 _ _ _ Hx Hid).
Qed.

Lemma hygienic_fire_timer id s : hygienic s → hygienic (fire_timer id s).
Proof.
  intros Hs. unfold fire_timer.
  destruct (timers (br s) !! id) as [tm|] eqn:Hid; [|done].
  apply hygienic_run_callback.
  destruct (t_kind tm); [by apply hygienic_clearTimer | by apply hygienic_reschedule].
Qed.

Lemma hygienic_handle e s : hygienic s → hygienic (handle e s).
Proof.
  intros Hs. destruct e; simpl.
  - by apply hygienic_fire_timer.
  - by apply hygienic_fire_frame.
  - generalize (resize_listeners (br s)). intros l. revert s Hs.
    induction l as [|r l IH]; intros s Hs; simpl; [done|].
    apply IH, hygienic_onResize, Hs.
  - destruct (dcl_listener (br s)); [|done].
    apply hygienic_start_both. eapply hygienic_same; [|exact Hs]. same_timers.
  - unfold urlObserver, containerObserver.
    assert (hygienic (if scan_mutations ms then start_both s else s)) as Hs'
      by (destruct (scan_mutations ms); auto using hygienic_start_both).
    destruct (String.eqb _ _); [done|].
    apply hygienic_start_both. eapply hygienic_same; [|exact Hs']. same_timers.
  - by apply hygienic_startTypewriterAnimation.
  - by apply hygienic_stopTypewriterAnimation.
  - by apply hygienic_startAnimation.
  - unfold stopFlowingLight. repeat case_match; auto using hygienic_cleanup.
  - eapply hygienic_same; [|exact Hs]. same_timers.
  - unfold attach_container. repeat case_match;
      (eapply hygienic_same; [|exact Hs]; same_timers).
  - by apply hygienic_update_container.
Qed.

Lemma hygienic_step s te : hygienic s → hygienic (step s te).
Proof.
  intros Hs. unfold step. apply hygienic_handle.
  eapply hygienic_same; [|exact Hs]. same_timers.
Qed.

Lemma hygienic_script_loaded rs hero cont href :
  hygienic (script_loaded rs hero cont href).
Proof.
  assert (hygienic (initial_state hero cont href)) as H0.
  { split; simpl; try done; try lia; intros; simplify_map_eq. }
  unfold script_loaded, boot.
  repeat apply hygienic_schedule.
  destruct rs.
  - eapply hygienic_same; [|exact H0]. same_timers.
  - by apply hygienic_start_both.
  - by apply hygienic_start_both.
Qed.

(** ** The typewriter kept in step *)

Lemma same_typewriter_refl s : same_typewriter s s.
Proof. by repeat split. Qed.

Lemma same_typewriter_trans s1 s2 s3 :
  same_typewriter s1 s2 → same_typewriter s2 s3 → same_typewriter s1 s3.
Proof.
  intros (Ht & ? & ? & ? & ?) (Ht' & ? & ? & ? & ?).
  split; [|repeat split; congruence].
  intros id tm Hm. rewrite (Ht' id tm Hm). by apply Ht.
Qed.

Lemma same_typewriter_plain s s' :
  timers (br s') = timers (br s) →
  typewriterInterval (tw s') = typewriterInterval (tw s) →
  isTyping (tw s') = isTyping (tw s) →
  currentText (tw s') = currentText (tw s) →
  currentIndex (tw s') = currentIndex (tw s) →
  same_typewriter s s'.
Proof. intros Ht ????. split; [|done]. intros id tm _. by rewrite Ht. Qed.

Ltac plain := intros; apply same_typewriter_plain; reflexivity.

Lemma disciplined_same s s' : same_typewriter s s' → disciplined s → disciplined s'.
Proof.
  intros (Ht & Hi & Hty & Htx & Hix) [H1 H2 H3 H4 H5 H6].
  assert (∀ id tm, timers (br s') !! id = Some tm → t_cb tm = CbTypewriterTick →
            timers (br s) !! id = Some tm) as Htick.
  { intros id tm Hid Hcb. apply Ht; [|done]. unfold machine. by rewrite Hcb. }
  assert (∀ id tm, timers (br s') !! id = Some tm → t_cb tm = CbAfterDelete →
            timers (br s) !! id = Some tm) as Hdel.
  { intros id tm Hid Hcb. apply Ht; [|done]. unfold machine. by rewrite Hcb. }
  split; rewrite ?Hi, ?Hty, ?Htx, ?Hix; try assumption.
  - intros id tm Hid Hm. apply Ht in Hid; eauto.
  - intros id1 tm1 id2 tm2 Hid1 Hid2 Hm1 Hm2.
    apply Ht in Hid1, Hid2; eauto.
  - eauto.
  - eauto.
Qed.

Lemma pause_pending_same s s' :
  same_typewriter s s' → pause_pending s' → pause_pending s.
Proof.
  intros (Ht & _) (id & tm & Hid & Hcb). exists id, tm. split; [|done].
  apply Ht; [|done]. unfold machine. by destruct Hcb as [-> | ->].
Qed.

Lemma same_typewriter_schedule k cb d s :
  hygienic s → machine_cb cb = false → same_typewriter s (snd (schedule k cb d s)).
Proof.
  intros Hs Hcb. split; [|done]. intros id tm Hm. simpl.
  rewrite lookup_insert_Some. split.
  - intros [[_ <-]|[_ Hid]]; [|done]. unfold machine in Hm. simpl in Hm. congruence.
  - intros Hid. right. split; [|done]. apply (hy_fresh _ Hs) in Hid. lia.
Qed.

Lemma same_typewriter_clearTimer id s :
  (∀ tm, timers (br s) !! id = Some tm → machine tm = false) →
  same_typewriter s (clearTimer id s).
Proof.
  intros Hid. split; [|done]. intros j tm Hm. simpl.
  rewrite lookup_delete_Some. split; [by intros [_ ?]|].
  intros Hj. split; [|done]. intros ->. apply Hid in Hj. congruence.
Qed.

Lemma same_typewriter_cleanup r s : same_typewriter s (cleanup r s).
Proof. unfold cleanup. case_match; plain. Qed.

Lemma same_typewriter_resize_run r s : same_typewriter s (resize_run r s).
Proof. unfold resize_run. repeat case_match; plain. Qed.

Lemma same_typewriter_request_tick r s : same_typewriter s (request_tick r s).
Proof. plain. Qed.

Lemma same_typewriter_fire_frame id s : same_typewriter s (fire_frame id s).
Proof. unfold fire_frame, tick. simpl. repeat case_match; plain. Qed.

Lemma same_typewriter_debounced r s : same_typewriter s (debounced r s).
Proof.
  unfold debounced. destruct (runs (fl s) !! r) as [x|]; [|plain].
  assert (same_typewriter s (resize_run r (cancelAnimationFrame (rafId x) s))) as H.
  { eapply same_typewriter_trans; [|apply same_typewriter_resize_run]. plain. }
  destruct (running x); [|done].
  eapply same_typewriter_trans; [exact H | apply same_typewriter_request_tick].
Qed.

Lemma same_typewriter_onResize r s : hygienic s → same_typewriter s (onResize r s).
Proof.
  intros Hs. unfold onResize. destruct (runs (fl s) !! r) as [x|] eqn:Hx; [|plain].
  eapply same_typewriter_trans.
  { apply (same_typewriter_clearTimer (resizeTimer x)). intros tm. apply (hy_debounce _ Hs _ _ _ Hx). }
  eapply same_typewriter_trans.
  { apply (same_typewriter_schedule OneShot (CbDebounce r) 150); [|done].
    by apply hygienic_clearTimer. }
  plain.
Qed.

Lemma same_typewriter_startAnimation s : hygienic s → same_typewriter s (startAnimation s).
Proof.
  intros Hs. unfold startAnimation.
  destruct (container (doc s)) as [c|].
  - cbv zeta.
    set (s1 := with_fl (set_retryCount 0) s).
    set (s2 := match containers (doc s1) !! c with
               | Some o => match _flowingLightCleanup o with
                           | Some r0 => cleanup r0 s1
                           | None => s1
                           end
               | None => s1
               end).
    assert (same_typewriter s s2) as H2.
    { apply (same_typewriter_trans s s1); [plain|].
      unfold s2. repeat case_match;
        auto using same_typewriter_cleanup, same_typewriter_refl. }
    clearbody s2. clear s1.
    eapply same_typewriter_trans; [exact H2|].
    set (s4 := with_fl _ _).
    assert (same_typewriter s2 s4) as H4 by plain.
    clearbody s4.
    eapply same_typewriter_trans; [exact H4|].
    eapply same_typewriter_trans; [apply (same_typewriter_resize_run (next_run (fl s2)))|].
    eapply same_typewriter_trans; [apply (same_typewriter_request_tick (next_run (fl s2)))|].
    plain.
  - case_match; [|apply same_typewriter_refl].
    eapply same_typewriter_trans;
      [|apply (same_typewriter_schedule OneShot CbStartAnimation); [|done]].
    + plain.
    + eapply hygienic_same; [|exact Hs]. same_timers.
Qed.

Lemma at_rest_when_idle s :
  disciplined s → typewriterInterval (tw s) = None → ¬ pause_pending s → at_rest s.
Proof.
  intros Hd Hi Hp id tm Hid. destruct (machine tm) eqn:Hm; [|done]. exfalso.
  unfold machine in Hm. destruct (t_cb tm) eqn:Hcb; try done.
  - pose proof (di_held _ Hd _ _ Hid Hcb). congruence.
  - apply Hp. exists id, tm. auto.
  - apply Hp. exists id, tm. auto.
Qed.

Lemma at_rest_after_clear id tm s :
  disciplined s → timers (br s) !! id = Some tm → machine tm = true →
  at_rest (clearTimer id s).
Proof.
  intros Hd Hid Hm j tm' Hj. simpl in Hj.
  apply lookup_delete_Some in Hj as [Hne Hj].
  destruct (machine tm') eqn:Hm'; [|done].
  destruct Hne. apply (di_single _ Hd _ _ _ _ Hid Hj Hm Hm').
Qed.

Lemma disciplined_one_timer s' m n tm :
  timers (br s') = <[n := tm]> m →
  (∀ id t, m !! id = Some t → machine t = false) →
  t_kind tm = expected_kind (t_cb tm) →
  (t_cb tm = CbTypewriterTick → typewriterInterval (tw s') = Some n) →
  String.prefix (currentText (tw s')) (text TYPEWRITER_CONFIG) = true →
  (isTyping (tw s') = true → String.length (currentText (tw s')) = currentIndex (tw s')) →
  (t_cb tm = CbAfterDelete → currentText (tw s') = EmptyString) →
  disciplined s'.
Proof.
  intros Ht Hm Hk Hh Hp Hty He.
  assert (∀ id t, timers (br s') !! id = Some t → machine t = true → id = n ∧ t = tm) as Hone.
  { intros id t. rewrite Ht. intros [[<- <-]|[_ Hid]]%lookup_insert_Some Hmt; [done|].
    apply Hm in Hid. congruence. }
  split; try assumption.
  - intros id t Hid Hmt. by destruct (Hone _ _ Hid Hmt) as [_ ->].
  - intros id1 t1 id2 t2 Hid1 Hid2 Hm1 Hm2.
    destruct (Hone _ _ Hid1 Hm1) as [-> _]. by destruct (Hone _ _ Hid2 Hm2) as [-> _].
  - intros id t Hid Hcb.
    destruct (Hone _ _ Hid) as [-> ->]; [unfold machine; by rewrite Hcb|]. auto.
  - intros id t Hid Hcb.
    destruct (Hone _ _ Hid) as [-> ->]; [unfold machine; by rewrite Hcb|]. auto.
Qed.

Lemma disciplined_at_rest s' :
  at_rest s' →
  String.prefix (currentText (tw s')) (text TYPEWRITER_CONFIG) = true →
  (isTyping (tw s') = true → String.length (currentText (tw s')) = currentIndex (tw s')) →
  disciplined s'.
Proof.
  intros Hr Hp Hty.
  assert (∀ id t, timers (br s') !! id = Some t → machine t = true → False) as Hnone.
  { intros id t Hid Hm. apply Hr in Hid. congruence. }
  split; try assumption.
  - intros id t Hid Hm. destruct (Hnone _ _ Hid Hm).
  - intros id1 t1 id2 t2 Hid1 _ Hm1 _. destruct (Hnone _ _ Hid1 Hm1).
  - intros id t Hid Hcb. destruct (Hnone _ _ Hid). unfold machine. by rewrite Hcb.
  - intros id t Hid Hcb. destruct (Hnone _ _ Hid). unfold machine. by rewrite Hcb.
Qed.

(** The text changes while the timers stay as they are. *)
Lemma disciplined_retext s s' :
  timers (br s') = timers (br s) →
  typewriterInterval (tw s') = typewriterInterval (tw s) →
  String.prefix (currentText (tw s')) (text TYPEWRITER_CONFIG) = true →
  (isTyping (tw s') = true → String.length (currentText (tw s')) = currentIndex (tw s')) →
  (∀ id tm, timers (br s) !! id = Some tm → t_cb tm ≠ CbAfterDelete) →
  disciplined s → disciplined s'.
Proof.
  intros Ht Hi Hp Hty Hnd [H1 H2 H3 _ _ _].
  split; rewrite ?Ht, ?Hi; try assumption.
  intros id tm Hid Hcb. destruct (Hnd _ _ Hid Hcb).
Qed.

Lemma length_snoc (t : string) c :
  String.length (t +:+ String c EmptyString) = S (String.length t).
Proof. induction t as [|a t IH]; simpl; [done|]. by rewrite IH. Qed.

Lemma disciplined_startTypewriterAnimation s :
  hygienic s → disciplined s → ¬ pause_pending s →
  disciplined (startTypewriterAnimation s).
Proof.
  intros Hs Hd Hp. unfold startTypewriterAnimation. cbv zeta.
  set (s0 := with_tw (set_typewriterElement (hero_title (doc s))) s).
  assert (same_typewriter s s0) as H0 by plain.
  assert (hygienic s0) as Hs0 by by apply hygienic_with_tw.
  assert (disciplined s0) as Hd0 by by eapply disciplined_same.
  assert (¬ pause_pending s0) as Hp0 by (intros ?; by eapply Hp, pause_pending_same).
  clearbody s0. clear s Hs Hd Hp H0.
  destruct (typewriterElement (tw s0)).
  - destruct (typewriterInterval (tw s0)) eqn:Hi; [done|].
    eapply (disciplined_one_timer _ (timers (br s0)) (next_timer (br s0))
              (Timer Repeating 150 (now (br s0) + 150) CbTypewriterTick)).
    + reflexivity.
    + by apply at_rest_when_idle.
    + reflexivity.
    + intros _. reflexivity.
    + reflexivity.
    + intros _. reflexivity.
    + discriminate.
  - eapply disciplined_same; [|exact Hd0].
    by apply same_typewriter_schedule.
Qed.

Lemma disciplined_afterTypePause s :
  at_rest s → disciplined s → disciplined (afterTypePause s).
Proof.
  intros Hr Hd. unfold afterTypePause.
  eapply (disciplined_one_timer _ (timers (br s)) (next_timer (br s))
            (Timer Repeating 50 (now (br s) + 50) CbTypewriterTick)).
  - reflexivity.
  - exact Hr.
  - reflexivity.
  - intros _. reflexivity.
  - apply (di_prefix _ Hd).
  - apply (di_typing _ Hd).
  - discriminate.
Qed.

Lemma disciplined_afterDeletePause s :
  at_rest s → currentText (tw s) = EmptyString → disciplined s →
  disciplined (afterDeletePause s).
Proof.
  intros Hr He Hd. unfold afterDeletePause. simpl.
  eapply (disciplined_one_timer _ (timers (br s)) (next_timer (br s))
            (Timer Repeating 150 (now (br s) + 150) CbTypewriterTick)).
  - reflexivity.
  - exact Hr.
  - reflexivity.
  - intros _. reflexivity.
  - apply (di_prefix _ Hd).
  - intros _. simpl. by rewrite He.
  - discriminate.
Qed.

Lemma write_textContent_br v s : br (write_textContent v s) = br s.
Proof. unfold write_textContent. by destruct (typewriterElement (tw s)). Qed.

Lemma write_textContent_tw v s : tw (write_textContent v s) = tw s.
Proof. unfold write_textContent. by destruct (typewriterElement (tw s)). Qed.

Lemma disciplined_typewriterTick s id tm :
  timers (br s) !! id = Some tm → t_cb tm = CbTypewriterTick →
  disciplined s → disciplined (typewriterTick s).
Proof.
  intros Hid Hcb Hd.
  pose proof (di_held _ Hd _ _ Hid Hcb) as Hheld.
  assert (machine tm = true) as Hm by (unfold machine; by rewrite Hcb).
  assert (∀ j t, timers (br s) !! j = Some t → t_cb t ≠ CbAfterDelete) as Hnd.
  { intros j t Hj Hc.
    assert (j = id) as -> by (eapply (di_single _ Hd); eauto; unfold machine; by rewrite Hc).
    congruence. }
  pose proof (at_rest_after_clear id tm s Hd Hid Hm) as Hrest.
  unfold typewriterTick.
  destruct (isTyping (tw s)) eqn:Hty.
  - destruct (currentIndex (tw s) <? String.length (text TYPEWRITER_CONFIG))%nat eqn:Hlt.
    + apply Nat.ltb_lt in Hlt. cbv zeta.
      destruct (get_in_range _ _ Hlt) as [c Hc].
      assert (append_char_at (currentText (tw s)) (text TYPEWRITER_CONFIG)
                (currentIndex (tw s)) = currentText (tw s) +:+ String c EmptyString)%string
        as Happ by (unfold append_char_at; by rewrite Hc).
      eapply disciplined_retext; [| | | |exact Hnd|exact Hd];
        rewrite ?write_textContent_br, ?write_textContent_tw; try reflexivity.
      * change (String.prefix
                  (append_char_at (currentText (tw s)) (text TYPEWRITER_CONFIG)
                     (currentIndex (tw s))) (text TYPEWRITER_CONFIG) = true).
        rewrite Happ.
        apply prefix_snoc; [apply (di_prefix _ Hd)|].
        by rewrite (di_typing _ Hd Hty).
      * intros _.
        change (String.length
                  (append_char_at (currentText (tw s)) (text TYPEWRITER_CONFIG)
                     (currentIndex (tw s))) = S (currentIndex (tw s))).
        rewrite Happ, length_snoc.
        by rewrite (di_typing _ Hd Hty).
    + cbv zeta. unfold clear_typewriterInterval. simpl. rewrite Hheld.
      eapply (disciplined_one_timer _ (delete id (timers (br s))) (next_timer (br s))
                (Timer OneShot 5000 (now (br s) + 5000) CbAfterType)).
      * reflexivity.
      * exact Hrest.
      * reflexivity.
      * discriminate.
      * apply (di_prefix _ Hd).
      * discriminate.
      * discriminate.
  - destruct (isDeleting (tw s)) eqn:Hdel; [|exact Hd].
    destruct (0 <? String.length (currentText (tw s)))%nat eqn:Hlt.
    + cbv zeta.
      eapply disciplined_retext; [| | | |exact Hnd|exact Hd];
        rewrite ?write_textContent_br, ?write_textContent_tw; try reflexivity.
      * apply (prefix_substring (currentText (tw s))), (di_prefix _ Hd).
      * intros Hty'. change (isTyping (tw s) = true) in Hty'. congruence.
    + cbv zeta. unfold clear_typewriterInterval. simpl. rewrite Hheld.
      apply Nat.ltb_ge in Hlt.
      eapply (disciplined_one_timer _ (delete id (timers (br s))) (next_timer (br s))
                (Timer OneShot 500 (now (br s) + 500) CbAfterDelete)).
      * reflexivity.
      * exact Hrest.
      * reflexivity.
      * discriminate.
      * apply (di_prefix _ Hd).
      * simpl. rewrite Hty. discriminate.
      * intros _. simpl. apply length_zero_empty. lia.
Qed.

Lemma disciplined_stopTypewriterAnimation s :
  disciplined s → disciplined (stopTypewriterAnimation s).
Proof.
  intros Hd. unfold stopTypewriterAnimation.
  destruct (typewriterInterval (tw s)) as [id|] eqn:Hi.
  - destruct Hd as [H1 H2 H3 H4 H5 H6].
    split; rewrite ?write_textContent_br, ?write_textContent_tw; simpl; try assumption.
    + intros j tm [_ Hj]%lookup_delete_Some. eauto.
    + intros j1 t1 j2 t2 [_ Hj1]%lookup_delete_Some [_ Hj2]%lookup_delete_Some. eauto.
    + intros j tm [Hne Hj]%lookup_delete_Some Hcb.
      pose proof (H3 _ _ Hj Hcb). congruence.
    + intros j tm [_ Hj]%lookup_delete_Some. eauto.
  - eapply disciplined_same; [|exact Hd].
    apply same_typewriter_plain;
      rewrite ?write_textContent_br, ?write_textContent_tw; reflexivity.
Qed.

Lemma no_pause_startTypewriterAnimation s :
  hygienic s → ¬ pause_pending s → ¬ pause_pending (startTypewriterAnimation s).
Proof.
  intros Hs Hp (id & tm & Hid & Hcb). apply Hp. clear Hp.
  unfold startTypewriterAnimation in Hid. cbv zeta in Hid.
  set (s0 := with_tw (set_typewriterElement (hero_title (doc s))) s) in Hid.
  assert (pause_pending s0 → pause_pending s) as Hback by (intros H; exact H).
  apply Hback. clearbody s0. exists id, tm. split; [|done].
  destruct (typewriterElement (tw s0)).
  - destruct (typewriterInterval (tw s0)); [done|].
    simpl in Hid. apply lookup_insert_Some in Hid as [[_ <-]|[_ Hid]]; [|done].
    by destruct Hcb.
  - simpl in Hid. apply lookup_insert_Some in Hid as [[_ <-]|[_ Hid]]; [|done].
    by destruct Hcb.
Qed.

Lemma disciplined_start_both s :
  hygienic s → disciplined s → ¬ pause_pending s →
  hygienic (start_both s) ∧ disciplined (start_both s) ∧ ¬ pause_pending (start_both s).
Proof.
  intros Hs Hd Hp. unfold start_both.
  pose proof (same_typewriter_startAnimation s Hs) as Hsame.
  pose proof (hygienic_startAnimation s Hs) as Hs'.
  assert (¬ pause_pending (startAnimation s)) as Hp'
    by (intros ?; by eapply Hp, pause_pending_same).
  split; [by apply hygienic_startTypewriterAnimation|].
  split; [|by apply no_pause_startTypewriterAnimation].
  apply disciplined_startTypewriterAnimation; [done| |done].
  by eapply disciplined_same.
Qed.

Lemma disciplined_reschedule id tm due s :
  timers (br s) !! id = Some tm → t_kind tm = Repeating →
  disciplined s →
  disciplined (with_br (λ b, set_timers (next_timer b)
                 (<[id := Timer Repeating (t_delay tm) due (t_cb tm)]> (timers b)) b) s).
Proof.
  intros Hid Hk [H1 H2 H3 H4 H5 H6].
  assert (∀ j t, <[id := Timer Repeating (t_delay tm) due (t_cb tm)]> (timers (br s)) !! j
                   = Some t →
            ∃ t', timers (br s) !! j = Some t' ∧ t_cb t' = t_cb t ∧ t_kind t' = t_kind t)
    as Hold.
  { intros j t [[<- <-]|[_ Hj]]%lookup_insert_Some; eauto. }
  split; simpl; try assumption.
  - intros j t Hj Hm. destruct (Hold _ _ Hj) as (t' & Hj' & Hcb & Hkind).
    rewrite <- Hkind, <- Hcb. apply (H1 _ _ Hj'). unfold machine in *. by rewrite Hcb.
  - intros j1 t1 j2 t2 Hj1 Hj2 Hm1 Hm2.
    destruct (Hold _ _ Hj1) as (t1' & Hj1' & Hcb1 & _).
    destruct (Hold _ _ Hj2) as (t2' & Hj2' & Hcb2 & _).
    apply (H2 _ _ _ _ Hj1' Hj2'); unfold machine in *; congruence.
  - intros j t Hj Hcb. destruct (Hold _ _ Hj) as (t' & Hj' & Hcb' & _).
    apply (H3 _ _ Hj'). congruence.
  - intros j t Hj Hcb. destruct (Hold _ _ Hj) as (t' & Hj' & Hcb' & _).
    apply (H6 _ _ Hj'). congruence.
Qed.

Lemma same_typewriter_after_firing id tm s :
  timers (br s) !! id = Some tm → machine tm = false →
  same_typewriter s
    match t_kind tm with
    | OneShot => clearTimer id s
    | Repeating =>
      with_br (λ b, set_timers (next_timer b)
        (<[id := Timer Repeating (t_delay tm) (now (br s) + t_delay tm) (t_cb tm)]>
           (timers b)) b) s
    end.
Proof.
  intros Hid Hm. destruct (t_kind tm).
  - apply same_typewriter_clearTimer. intros tm'. rewrite Hid. by intros [= <-].
  - split; [|done]. intros j t Ht. simpl. rewrite lookup_insert_Some. split.
    + intros [[_ <-]|[_ Hj]]; [|done]. unfold machine in *. simpl in Ht. congruence.
    + intros Hj. right. split; [|done]. intros ->. congruence.
Qed.

Lemma disciplined_clearTimer id s : disciplined s → disciplined (clearTimer id s).
Proof.
  intros [H1 H2 H3 H4 H5 H6]. split; simpl; try assumption.
  - intros j tm [_ Hj]%lookup_delete_Some. eauto.
  - intros j1 t1 j2 t2 [_ Hj1]%lookup_delete_Some [_ Hj2]%lookup_delete_Some. eauto.
  - intros j tm [_ Hj]%lookup_delete_Some. eauto.
  - intros j tm [_ Hj]%lookup_delete_Some. eauto.
Qed.

Lemma disciplined_fire_timer id s :
  hygienic s → disciplined s →
  (requests_start s (TimerFires id) = true → ¬ pause_pending s) →
  disciplined (fire_timer id s).
Proof.
  intros Hs Hd Hreq. unfold fire_timer. simpl in Hreq.
  destruct (timers (br s) !! id) as [tm|] eqn:Hid; [|done].
  destruct (machine tm) eqn:Hm.
  - pose proof (di_kind _ Hd _ _ Hid Hm) as Hk. rewrite Hk.
    pose proof (at_rest_after_clear id tm s Hd Hid Hm) as Hrest.
    unfold machine in Hm. destruct (t_cb tm) eqn:Hcb; try done; simpl.
    + eapply (disciplined_typewriterTick _ id).
      * simpl. apply lookup_insert_eq.
      * reflexivity.
      * pose proof (disciplined_reschedule id tm (now (br s) + t_delay tm) s Hid) as Hre.
        rewrite Hcb in Hre. apply Hre; [|done]. by rewrite Hk.
    + apply disciplined_afterTypePause; [done|]. by apply disciplined_clearTimer.
    + apply disciplined_afterDeletePause; [done| |by apply disciplined_clearTimer].
      apply (di_empty _ Hd _ _ Hid Hcb).
  - pose proof (same_typewriter_after_firing id tm s Hid Hm) as Hsame.
    set (s1 := match t_kind tm with OneShot => _ | Repeating => _ end) in *.
    assert (hygienic s1) as Hs1.
    { unfold s1. destruct (t_kind tm);
        [by apply hygienic_clearTimer | by apply hygienic_reschedule]. }
    assert (disciplined s1) as Hd1 by by eapply disciplined_same.
    assert (pause_pending s1 → pause_pending s) as Hp1 by by apply pause_pending_same.
    clearbody s1.
    unfold machine in Hm. destruct (t_cb tm) eqn:Hcb; try done; simpl.
    + apply disciplined_startTypewriterAnimation; [done..|].
      intros H. by apply (Hreq eq_refl), Hp1.
    + eapply disciplined_same; [by apply same_typewriter_startAnimation|done].
    + eapply disciplined_same; [by apply same_typewriter_debounced|done].
    + apply disciplined_start_both; [done..|].
      intros H. by apply (Hreq eq_refl), Hp1.
Qed.

Lemma same_typewriter_handle_resize l : ∀ s,
  hygienic s → same_typewriter s (foldl (λ s r, onResize r s) s l).
Proof.
  induction l as [|r l IH]; intros s Hs; simpl; [apply same_typewriter_refl|].
  eapply same_typewriter_trans; [by apply same_typewriter_onResize|].
  by apply IH, hygienic_onResize.
Qed.

Lemma disciplined_handle e s :
  hygienic s → disciplined s →
  (requests_start s e = true → ¬ pause_pending s) →
  disciplined (handle e s).
Proof.
  intros Hs Hd Hreq. destruct e; simpl in *.
  - by apply disciplined_fire_timer.
  - eapply disciplined_same; [apply same_typewriter_fire_frame|done].
  - eapply disciplined_same; [by apply same_typewriter_handle_resize|done].
  - destruct (dcl_listener (br s)); [|done].
    apply disciplined_start_both.
    + eapply hygienic_same; [|exact Hs]. same_timers.
    + eapply disciplined_same; [|exact Hd]. plain.
    + exact (Hreq eq_refl).
  - unfold urlObserver, containerObserver.
    set (s' := if scan_mutations ms then start_both s else s).
    assert (lastUrl s' = lastUrl s) as Hurl
      by apply (lastUrl_containerObserver ms s).
    assert (hygienic s' ∧ disciplined s' ∧
            (negb (String.eqb href (lastUrl s)) = true → ¬ pause_pending s')) as (Hs' & Hd' & Hp').
    { unfold s'. destruct (scan_mutations ms); simpl in Hreq.
      - destruct (disciplined_start_both s Hs Hd (Hreq eq_refl)) as (? & ? & ?). auto.
      - auto. }
    clearbody s'. rewrite Hurl.
    destruct (String.eqb href (lastUrl s)); [done|].
    apply disciplined_start_both.
    + eapply hygienic_same; [|exact Hs']. same_timers.
    + eapply disciplined_same; [|exact Hd']. plain.
    + exact (Hp' eq_refl).
  - apply disciplined_startTypewriterAnimation; auto.
  - by apply disciplined_stopTypewriterAnimation.
  - eapply disciplined_same; [by apply same_typewriter_startAnimation|done].
  - eapply disciplined_same; [|exact Hd].
    unfold stopFlowingLight. repeat case_match;
      auto using same_typewriter_cleanup, same_typewriter_refl.
  - eapply disciplined_same; [|exact Hd]. plain.
  - eapply disciplined_same; [|exact Hd].
    unfold attach_container. repeat case_match; plain.
  - eapply disciplined_same; [|exact Hd]. plain.
Qed.

Lemma disciplined_step s te :
  hygienic s → disciplined s →
  (requests_start s (snd te) = true → ¬ pause_pending s) →
  disciplined (step s te).
Proof.
  intros Hs Hd Hreq. unfold step.
  apply disciplined_handle.
  - eapply hygienic_same; [|exact Hs]. same_timers.
  - eapply disciplined_same; [|exact Hd]. plain.
  - exact Hreq.
Qed.

Lemma disciplined_run_events tes : ∀ s,
  hygienic s → disciplined s → starts_outside_pauses s tes →
  disciplined (run_events s tes).
Proof.
  induction tes as [|te tes IH]; intros s Hs Hd Hout; simpl; [done|].
  destruct Hout as [Hreq Hout].
  apply IH; [by apply hygienic_step | by apply disciplined_step | done].
Qed.

Lemma disciplined_script_loaded rs hero cont href :
  disciplined (script_loaded rs hero cont href).
Proof.
  assert (hygienic (initial_state hero cont href)) as Hs0.
  { split; simpl; try done; try lia; intros; simplify_map_eq. }
  assert (disciplined (initial_state hero cont href)) as Hd0.
  { apply disciplined_at_rest; [|done..]. intros id tm Hid. simpl in Hid. simplify_map_eq. }
  assert (¬ pause_pending (initial_state hero cont href)) as Hp0.
  { intros (id & tm & Hid & _). simpl in Hid. simplify_map_eq. }
  assert (∀ s2, hygienic s2 → disciplined s2 →
            disciplined (snd (setTimeout CbBootFallback 500
                                (snd (setTimeout CbBootFallback 100 s2))))) as Hrest.
  { intros s2 Hs2 Hd2. eapply disciplined_same; [|exact Hd2].
    eapply same_typewriter_trans;
      [apply (same_typewriter_schedule OneShot CbBootFallback 100); done|].
    apply (same_typewriter_schedule OneShot CbBootFallback 500); [|done].
    by apply hygienic_schedule. }
  destruct (disciplined_start_both _ Hs0 Hd0 Hp0) as (Hs1 & Hd1 & _).
  unfold script_loaded, boot.
  destruct rs; apply Hrest;
    first [ assumption
          | eapply hygienic_same; [|exact Hs0]; same_timers
          | eapply disciplined_same; [|exact Hd0]; plain ].
Qed.

Lemma at_most_one {A} (l : list A) :
  NoDup l → (∀ x y, x ∈ l → y ∈ l → x = y) → (length l ≤ 1)%nat.
Proof.
  intros Hnd Heq. destruct l as [|a [|b l]]; simpl; try lia.
  assert (a = b) as -> by (apply Heq; set_solver).
  apply NoDup_cons in Hnd as [Hnotin _]. set_solver.
Qed.

Lemma typewriter_intervals_single s :
  disciplined s → (length (typewriter_intervals s) ≤ 1)%nat.
Proof.
  intros Hd. unfold typewriter_intervals.
  apply at_most_one; [apply NoDup_fst_map_to_list|].
  assert (∀ x, x ∈ (map_to_list
                      (filter (λ p, is_typewriter_interval (snd p) = true)
                         (timers (br s)))).*1 →
            ∃ tm, timers (br s) !! x = Some tm ∧ machine tm = true) as Hin.
  { intros x ([j tm] & -> & Hx)%list_elem_of_fmap.
    apply elem_of_map_to_list, map_lookup_filter_Some in Hx as [Hx Hp].
    exists tm. split; [done|]. simpl in Hp. unfold is_typewriter_interval in Hp.
    unfold machine. by destruct (t_kind tm), (t_cb tm). }
  intros x y (tx & Hx & Hmx)%Hin (ty & Hy & Hmy)%Hin.
  eapply (di_single _ Hd); eauto.
Qed.

(** X1.  What the guard of [startTypewriterAnimation] is there for does hold
    as long as no start is requested while a pause timeout is pending:
    in every state of such an execution the text is a prefix of the
    target, hence no longer than it, and at most one interval calls
    [typewriterTick]. *)
Theorem typewriter_orderly_without_overlapping_starts rs hero cont href tes :
  starts_outside_pauses (script_loaded rs hero cont href) tes →
  let s := run_events (script_loaded rs hero cont href) tes in
  String.prefix (currentText (tw s)) (text TYPEWRITER_CONFIG) = true ∧
  (String.length (currentText (tw s)) ≤ String.length (text TYPEWRITER_CONFIG))%nat ∧
  (length (typewriter_intervals s) ≤ 1)%nat.
Proof.
  intros Hout s.
  assert (disciplined s) as Hd.
  { apply disciplined_run_events; [|apply disciplined_script_loaded|done].
    apply hygienic_script_loaded. }
  split; [apply (di_prefix _ Hd)|].
  split; [apply prefix_length, (di_prefix _ Hd)|].
  by apply typewriter_intervals_single.
Qed.


Lemma pause_pendingb_complete s : pause_pending s → pause_pendingb s = true.
Proof.
  intros (id & tm & Hid & Hcb). unfold pause_pendingb.
  apply existsb_exists. exists (id, tm). split.
  - apply list_elem_of_In, elem_of_map_to_list, Hid.
  - simpl. by destruct Hcb as [-> | ->].
Qed.

Lemma starts_outside_pausesb_sound tes : ∀ s,
  starts_outside_pausesb s tes = true → starts_outside_pauses s tes.
Proof.
  induction tes as [|te tes IH]; intros s H; simpl in *; [done|].
  apply andb_true_iff in H as [Hhere Hrest]. split; [|by apply IH].
  intros Hreq Hp. apply pause_pendingb_complete in Hp.
  rewrite Hreq, Hp in Hhere. discriminate.
Qed.

(** The first cycle of the home page is such an execution ... *)
Lemma first_cycle_starts_outside_pauses : starts_outside_pauses home_page first_cycle.
Proof. apply starts_outside_pausesb_sound. by vm_compute. Qed.

Lemma first_cycle_orderly :
  let s := run_events home_page first_cycle in
  String.prefix (currentText (tw s)) (text TYPEWRITER_CONFIG) = true ∧
  (String.length (currentText (tw s)) ≤ String.length (text TYPEWRITER_CONFIG))%nat ∧
  (length (typewriter_intervals s) ≤ 1)%nat.
Proof.
  exact (typewriter_orderly_without_overlapping_starts Complete (Some 7%nat)
           (Some (3%nat, (50 # 1, 30 # 1)%Q)) home first_cycle
           first_cycle_starts_outside_pauses).
Defined.

(** ... and the executions in which the typewriter gets out of step are
    not: each contains a start requested during a pause. *)
Lemma restart_in_delete_pause_overlaps :
  starts_outside_pausesb home_page restart_in_delete_pause = false ∧
  starts_outside_pausesb home_page restart_in_type_pause = false.
Proof. split; by vm_compute. Qed.

(** ** The typewriter out of step *)

(** C1, at the input on which the script breaks it.  The page loads,
    the title is typed, held and deleted; 10 ms into the pause that
    follows, the URL observer sees that an anchor link was followed and
    starts both effects.  Every timer fires on time, and at 8210 ms the
    title shows twelve characters, three more than the target text
    has. *)
Theorem typewriter_text_exceeds_target :
  let s := run_events home_page restart_in_delete_pause_typed_out in
  all_on_time home_page restart_in_delete_pause_typed_out = true ∧
  currentText (tw s) = "HIFHIFI DOCS"%string ∧
  textContent (doc s) !! 7%nat = Some "HIFHIFI DOCS"%string ∧
  (String.length (text TYPEWRITER_CONFIG) < String.length (currentText (tw s)))%nat.
Proof.
  intros s.
  assert (currentText (tw s) = "HIFHIFI DOCS"%string) as H by by vm_compute.
  split; [by vm_compute|]. split; [exact H|]. split; [by vm_compute|].
  rewrite H. simpl. lia.
Qed.

(** C2, at the input on which the script breaks it.  A start requested
    at 5100 ms, while the typed title is held, installs interval 5; the
    timeout of the hold installs interval 6 at 6500 ms.  Both are live
    and both call [typewriterTick]; [typewriterInterval] remembers only
    the second.  Two ticks later interval 6 has cleared itself and
    interval 5, which no variable refers to any more, is deleting the
    title; [stopTypewriterAnimation] does not reach it. *)
Theorem two_typewriter_intervals_live :
  let s := run_events home_page restart_in_type_pause in
  let s' := run_events home_page restart_in_type_pause_goes_on in
  all_on_time home_page restart_in_type_pause_goes_on = true ∧
  (timers (br s) !! 5%nat = Some (Timer Repeating 150 6600 CbTypewriterTick) ∧
   timers (br s) !! 6%nat = Some (Timer Repeating 50 6550 CbTypewriterTick) ∧
   length (typewriter_intervals s) = 2%nat ∧
   typewriterInterval (tw s) = Some 6%nat) ∧
  (typewriterInterval (tw s') = None ∧
   typewriter_intervals s' = [5%nat] ∧
   textContent (doc s') !! 7%nat = Some "HIFI DOC"%string ∧
   typewriter_intervals (stopTypewriterAnimation s') = [5%nat]).
Proof. intros s s'. repeat split; by vm_compute. Qed.

(** C9, at the input on which the script breaks it.  In the execution
    of C1, the first character typed after the pause ends is appended
    to the three typed before it: the title shows "HIFH", which is not
    a prefix of "HIFI DOCS". *)
Theorem typewriter_shows_non_prefix :
  let s := run_events home_page restart_in_delete_pause in
  all_on_time home_page restart_in_delete_pause = true ∧
  currentText (tw s) = "HIFH"%string ∧
  textContent (doc s) !! 7%nat = Some "HIFH"%string ∧
  String.prefix (currentText (tw s)) (text TYPEWRITER_CONFIG) = false.
Proof. intros s. repeat split; by vm_compute. Qed.

(** ** Retry chains *)

Lemma typewriter_retry_fires s id tm :
  hero_title (doc s) = None → timers (br s) !! id = Some tm →
  t_cb tm = CbStartTypewriter →
  let s' := step s (t_due tm, TimerFires id) in
  hero_title (doc s') = None ∧
  scheduled_since s s' = Some (next_timer (br s)) ∧
  timers (br s') !! next_timer (br s) =
    Some (Timer OneShot 100 (t_due tm + 100) CbStartTypewriter).
Proof.
  intros Hh Hid Hcb s'. unfold s', step, scheduled_since. simpl.
  unfold fire_timer. simpl. rewrite Hid, Hcb.
  destruct (t_kind tm); simpl; unfold startTypewriterAnimation; simpl;
    rewrite Hh; simpl;
    (split; [done|]); (split; [case_decide; [done|lia]|]); apply lookup_insert_eq.
Qed.

Lemma typewriter_retry_chain_goes_on fuel : ∀ s id tm,
  hero_title (doc s) = None → timers (br s) !! id = Some tm →
  t_cb tm = CbStartTypewriter → t_delay tm = 100 →
  follow_retries fuel s id = (replicate fuel 100, false).
Proof.
  induction fuel as [|fuel IH]; intros s id tm Hh Hid Hcb Hd; [done|].
  destruct (typewriter_retry_fires s id tm Hh Hid Hcb) as (Hh' & Hs & Hnew).
  simpl. rewrite Hid, Hs.
  erewrite IH; eauto. by rewrite Hd.
Qed.

(** C3, at the input on which the script breaks it.  On a page without
    a [.hero-title] element the retry scheduled by
    [startTypewriterAnimation] reschedules itself every 100 ms: however
    many links of the chain are followed, it has not ended. *)
Theorem typewriter_retry_never_gives_up (fuel : nat) :
  hero_title (doc other_page) = None ∧
  timers (br other_page) !! 2%nat = Some (Timer OneShot 100 100 CbStartTypewriter) ∧
  follow_retries fuel other_page 2 = (replicate fuel 100, false).
Proof.
  split; [done|]. split; [done|].
  by eapply typewriter_retry_chain_goes_on.
Qed.

Lemma animation_retry_fires s id tm :
  container (doc s) = None → timers (br s) !! id = Some tm →
  t_cb tm = CbStartAnimation → t_kind tm = OneShot →
  let s' := step s (t_due tm, TimerFires id) in
  container (doc s') = None ∧
  if retryCount (fl s) <? MAX_RETRIES FLOWING_LIGHT_CONFIG then
    retryCount (fl s') = retryCount (fl s) + 1 ∧
    scheduled_since s s' = Some (next_timer (br s)) ∧
    timers (br s') !! next_timer (br s) =
      Some (Timer OneShot (Z.min (50 * (retryCount (fl s) + 1)) 500)
              (t_due tm + Z.min (50 * (retryCount (fl s) + 1)) 500) CbStartAnimation)
  else
    retryCount (fl s') = retryCount (fl s) ∧ scheduled_since s s' = None.
Proof.
  intros Hc Hid Hcb Hk s'. unfold s', step, scheduled_since. simpl.
  unfold fire_timer. simpl. rewrite Hid, Hcb, Hk. simpl.
  unfold startAnimation. simpl. rewrite Hc.
  destruct (retryCount (fl s) <? 20); simpl.
  - split; [done|]. split; [done|]. split; [case_decide; [done|lia]|].
    apply lookup_insert_eq.
  - split; [done|]. split; [done|]. case_decide; [lia|done].
Qed.

Lemma follow_retries_S fuel s id :
  follow_retries (S fuel) s id =
  match timers (br s) !! id with
  | None => ([], true)
  | Some tm =>
    let s' := step s (t_due tm, TimerFires id) in
    match scheduled_since s s' with
    | None => ([t_delay tm], true)
    | Some id' =>
      let (ds, ended) := follow_retries fuel s' id' in
      (t_delay tm :: ds, ended)
    end
  end.
Proof. reflexivity. Qed.

(** X2.  [startAnimation] does bound its retries: without a container,
    a chain of retries ends within [MAX_RETRIES - retryCount + 1]
    links. *)
Lemma animation_retry_chain_bounded n : ∀ s id tm,
  container (doc s) = None → timers (br s) !! id = Some tm →
  t_cb tm = CbStartAnimation → t_kind tm = OneShot →
  MAX_RETRIES FLOWING_LIGHT_CONFIG - retryCount (fl s) ≤ Z.of_nat n →
  ∃ ds, follow_retries (S n) s id = (ds, true) ∧ (length ds ≤ S n)%nat.
Proof.
  induction n as [|n IH]; intros s id tm Hc Hid Hcb Hk Hn;
    destruct (animation_retry_fires s id tm Hc Hid Hcb Hk) as (Hc' & Hstep);
    simpl in Hn, Hstep.
  - destruct (Z.ltb_spec (retryCount (fl s)) 20); [lia|].
    destruct Hstep as [_ Hs]. simpl. rewrite Hid.
    simpl in Hs. rewrite Hs. eexists. split; [done|]. simpl. lia.
  - destruct (Z.ltb_spec (retryCount (fl s)) 20).
    + destruct Hstep as (Hrc & Hs & Hnew).
      edestruct (IH _ _ _ Hc' Hnew) as (ds & Hds & Hlen); [done..| |].
      { simpl. rewrite Hrc. lia. }
      rewrite follow_retries_S, Hid. cbv zeta. rewrite Hs, Hds.
      eexists. split; [done|]. simpl. lia.
    + destruct Hstep as [_ Hs].
      rewrite follow_retries_S, Hid. cbv zeta. rewrite Hs. eexists. split; [done|]. simpl. lia.
Qed.

Lemma animation_retry_chain_bounded_witness :
  ∃ ds, follow_retries 21 other_page 1 = (ds, true) ∧ (length ds ≤ 21)%nat.
Proof.
  apply (animation_retry_chain_bounded 20 other_page 1%nat
           (Timer OneShot 50 50 CbStartAnimation));
    first [reflexivity | vm_compute; discriminate].
Defined.

(** On the page without container the chain begun by boot ends after
    twenty retries, spaced 50, 100, ..., 500, 500, ... ms. *)
Lemma animation_retry_chain_from_boot :
  follow_retries 20 other_page 1 =
    ([50; 100; 150; 200; 250; 300; 350; 400; 450; 500;
      500; 500; 500; 500; 500; 500; 500; 500; 500; 500], true).
Proof. by vm_compute. Qed.

(** ** Bookkeeping of the flowing-light runs *)

Lemma same_flowing_trans s1 s2 s3 :
  same_flowing s1 s2 → same_flowing s2 s3 → same_flowing s1 s3.
Proof.
  intros (?&?&?&?&?) (?&?&?&?&?). repeat split; congruence.
Qed.

Lemma consistent_same s s' : same_flowing s s' → consistent s → consistent s'.
Proof.
  intros (Hf & Hl & Hr & Hn & Hc) [H1 H2 H3 H4].
  split; rewrite ?Hf, ?Hl, ?Hr, ?Hn, ?Hc; assumption.
Qed.

Ltac untouched :=
  intros; repeat split; reflexivity.

Lemma same_schedule k cb d s : same_flowing s (snd (schedule k cb d s)).
Proof. untouched. Qed.
Lemma same_clearTimer id s : same_flowing s (clearTimer id s).
Proof. untouched. Qed.
Lemma same_with_tw f s : same_flowing s (with_tw f s).
Proof. untouched. Qed.
Lemma same_refl s : same_flowing s s.
Proof. untouched. Qed.

Lemma same_write_textContent v s : same_flowing s (write_textContent v s).
Proof. unfold write_textContent. destruct (typewriterElement (tw s)); untouched. Qed.

Lemma same_start_interval d s : same_flowing s (start_interval d s).
Proof. untouched. Qed.

Lemma same_startTypewriterAnimation s : same_flowing s (startTypewriterAnimation s).
Proof.
  unfold startTypewriterAnimation. simpl.
  destruct (hero_title (doc s)); [destruct (typewriterInterval (tw s))|]; untouched.
Qed.

Lemma same_afterTypePause s : same_flowing s (afterTypePause s).
Proof. untouched. Qed.

Lemma same_afterDeletePause s : same_flowing s (afterDeletePause s).
Proof. untouched. Qed.

Lemma same_typewriterTick s : same_flowing s (typewriterTick s).
Proof.
  unfold typewriterTick, clear_typewriterInterval, write_textContent.
  repeat case_match; untouched.
Qed.

Lemma same_stopTypewriterAnimation s : same_flowing s (stopTypewriterAnimation s).
Proof.
  unfold stopTypewriterAnimation, write_textContent.
  repeat case_match; untouched.
Qed.

Lemma consistent_cancel id s : consistent s → consistent (cancelAnimationFrame id s).
Proof.
  intros [H1 H2 H3 H4]. split; simpl; try assumption.
  intros j r [_ Hj]%lookup_delete_Some. eauto.
Qed.

Lemma consistent_update_run r f s :
  (∀ x, rafId (f x) = rafId x) → (∀ x, r_container (f x) = r_container x) →
  (∀ x, running (f x) = running x) →
  consistent s → consistent (update_run r f s).
Proof.
  intros Hraf Hcont Hrun [H1 H2 H3 H4].
  assert (∀ r' x (P : run → Prop),
            (∀ y, P y → P (f y)) → runs (fl s) !! r' = Some x → P x →
            ∃ x', alter f r (runs (fl s)) !! r' = Some x' ∧ P x') as Halt.
  { intros r' x P HP Hx HPx. destruct (decide (r = r')) as [->|Hne].
    - exists (f x). by rewrite lookup_alter_eq, Hx; auto.
    - exists x. by rewrite lookup_alter_ne. }
  split; simpl.
  - intros id r' Hid. destruct (H1 _ _ Hid) as (x & Hx & Hx').
    eapply (Halt r' x (λ y, rafId y = id ∧ running y = true));
      [intros y; by rewrite Hraf, Hrun|eauto..].
  - intros r' x' [(-> & y & Hy & _)|[_ Hx]]%lookup_alter_Some; eauto.
  - intros r' Hin. destruct (H3 _ Hin) as (x & Hx & Hx').
    eapply (Halt r' x (λ y, running y = true));
      [intros y; by rewrite Hrun|eauto..].
  - intros c o r' Ho Hin. destruct (H4 _ _ _ Ho Hin) as (x & Hx & Hx').
    eapply (Halt r' x (λ y, r_container y = c ∧ running y = true));
      [intros y; by rewrite Hcont, Hrun|eauto..].
Qed.

Lemma consistent_update_container c f s :
  (∀ o r, r ∈ mousemove_listeners (f o) → r ∈ mousemove_listeners o) →
  consistent s → consistent (update_container c f s).
Proof.
  intros Hf [H1 H2 H3 H4]. split; simpl; try assumption.
  intros c' o' r [(-> & o & Ho & ->)|[_ Ho]]%lookup_alter_Some Hin; eauto.
Qed.

Lemma consistent_request_tick r s :
  (∃ x, runs (fl s) !! r = Some x ∧ running x = true) →
  (∀ id, frames (br s) !! id ≠ Some r) →
  consistent s → consistent (request_tick r s).
Proof.
  intros (x & Hx & Hrun) Hnone [H1 H2 H3 H4].
  assert (∀ r' y (P : run → Prop),
            (∀ y, P y → P (set_rafId (next_frame (br s)) y)) →
            runs (fl s) !! r' = Some y → P y →
            ∃ y', alter (set_rafId (next_frame (br s))) r (runs (fl s)) !! r' = Some y' ∧ P y')
    as Halt.
  { intros r' y P HP Hy HPy. destruct (decide (r = r')) as [->|Hne].
    - eexists. rewrite lookup_alter_eq, Hy. eauto.
    - exists y. by rewrite lookup_alter_ne. }
  split; simpl.
  - intros id r' [[<- <-]|[Hne Hid]]%lookup_insert_Some.
    + eexists. rewrite lookup_alter_eq, Hx. simpl. eauto.
    + destruct (H1 _ _ Hid) as (y & Hy & Hy1 & Hy2).
      destruct (decide (r = r')) as [->|Hne']; [by destruct (Hnone id)|].
      exists y. by rewrite lookup_alter_ne.
  - intros r' x' [(-> & y & Hy & _)|[_ Hx']]%lookup_alter_Some; eauto.
  - intros r' Hin. destruct (H3 _ Hin) as (y & Hy & Hy').
    eapply (Halt r' y (λ y, running y = true)); eauto.
  - intros c o r' Ho Hin. destruct (H4 _ _ _ Ho Hin) as (y & Hy & Hy').
    eapply (Halt r' y (λ y, r_container y = c ∧ running y = true)); eauto.
Qed.

Lemma consistent_cleanup r s : consistent s → consistent (cleanup r s).
Proof.
  intros Hs. unfold cleanup. destruct (runs (fl s) !! r) as [x|] eqn:Hx; [|done].
  apply consistent_update_container; [intros o r'; done|].
  apply consistent_update_container; [intros o r'; done|].
  destruct Hs as [H1 H2 H3 H4].
  assert (∀ r' y, r' ≠ r → runs (fl s) !! r' = Some y →
            alter (set_running false) r (runs (fl s)) !! r' = Some y) as Hother.
  { intros r' y Hne Hy. by rewrite lookup_alter_ne. }
  split; simpl.
  - intros id r' [Hne Hid]%lookup_delete_Some.
    destruct (H1 _ _ Hid) as (y & Hy & Hy1 & Hy2).
    exists y. split; [|done]. apply Hother; [|done].
    intros ->. congruence.
  - intros r' x' [(-> & y & Hy & _)|[_ Hx']]%lookup_alter_Some; eauto.
  - intros r' [Hne Hin]%list_elem_of_filter.
    destruct (H3 _ Hin) as (y & Hy & Hy'). eauto.
  - intros c o r' Ho Hin.
    apply lookup_alter_Some in Ho as [(Hc & o' & Ho' & ->)|[Hne Ho]].
    + subst c. simpl in Hin. apply list_elem_of_filter in Hin as [Hne Hin].
      destruct (H4 _ _ _ Ho' Hin) as (y & Hy & Hy'). eauto.
    + destruct (H4 _ _ _ Ho Hin) as (y & Hy & Hy1 & Hy2).
      exists y. split; [|done]. apply Hother; [|done].
      intros ->. congruence.
Qed.

Lemma consistent_resize_run r s : consistent s → consistent (resize_run r s).
Proof.
  intros Hs. unfold resize_run.
  destruct (runs (fl s) !! r) as [x|]; [|done].
  destruct (containers (doc s) !! r_container x); [|done].
  by apply consistent_update_run.
Qed.

Lemma no_frames_after_cancel r x s :
  consistent s → runs (fl s) !! r = Some x →
  ∀ id, frames (br (cancelAnimationFrame (rafId x) s)) !! id ≠ Some r.
Proof.
  intros [H1 _ _ _] Hx id Hid. simpl in Hid.
  apply lookup_delete_Some in Hid as [Hne Hid].
  destruct (H1 _ _ Hid) as (y & Hy & Hy' & _). congruence.
Qed.

Lemma consistent_fire_frame id s : consistent s → consistent (fire_frame id s).
Proof.
  intros Hs. unfold fire_frame.
  destruct (frames (br s) !! id) as [r|] eqn:Hid; [|done].
  destruct (co_frames _ Hs _ _ Hid) as (x & Hx & Hraf & Hrun).
  unfold tick. simpl. rewrite Hx, Hrun.
  apply consistent_request_tick.
  - simpl. eexists. rewrite lookup_alter_eq, Hx. eauto.
  - simpl. rewrite <- Hraf. apply (no_frames_after_cancel r x s Hs Hx).
  - apply consistent_update_run; try done.
    by apply consistent_cancel.
Qed.

Lemma consistent_debounced r s : consistent s → consistent (debounced r s).
Proof.
  intros Hs. unfold debounced.
  destruct (runs (fl s) !! r) as [x|] eqn:Hx; [|done].
  pose proof (no_frames_after_cancel r x s Hs Hx) as Hnone.
  assert (consistent (resize_run r (cancelAnimationFrame (rafId x) s))) as Hc
    by by apply consistent_resize_run, consistent_cancel.
  destruct (running x) eqn:Hrun; [|done].
  apply consistent_request_tick; [| |done].
  - unfold resize_run. simpl. rewrite Hx.
    destruct (containers (doc s) !! r_container x); simpl.
    + eexists. rewrite lookup_alter_eq, Hx. simpl. eauto.
    + eauto.
  - intros id. unfold resize_run. simpl. rewrite Hx.
    destruct (containers (doc s) !! r_container x); apply Hnone.
Qed.

Lemma consistent_onResize r s : consistent s → consistent (onResize r s).
Proof.
  intros Hs. unfold onResize.
  destruct (runs (fl s) !! r) as [x|]; [|done].
  apply consistent_update_run; try done.
  eapply consistent_same; [|exact Hs].
  eapply same_flowing_trans; [apply same_clearTimer | apply same_schedule].
Qed.

Lemma live_update_run r c r' f s :
  (∀ x, r_container (f x) = r_container x) → (∀ x, running (f x) = running x) →
  live_run r c s → live_run r c (update_run r' f s).
Proof.
  intros Hc Hr (x & Hx & Hx1 & Hx2). unfold live_run. simpl.
  destruct (decide (r' = r)) as [->|Hne].
  - exists (f x). rewrite lookup_alter_eq, Hx, Hc, Hr. done.
  - exists x. by rewrite lookup_alter_ne.
Qed.

Lemma live_resize_run r c r' s : live_run r c s → live_run r c (resize_run r' s).
Proof.
  intros H. unfold resize_run.
  destruct (runs (fl s) !! r') as [x|]; [|done].
  destruct (containers (doc s) !! r_container x); [|done].
  by apply live_update_run.
Qed.

Lemma live_request_tick r c r' s : live_run r c s → live_run r c (request_tick r' s).
Proof. intros H. unfold request_tick. simpl. by apply (live_update_run r c r' _ s). Qed.

Lemma consistent_new_run c s :
  consistent s →
  consistent (with_fl (λ g, set_runs (S (next_run (fl s)))
                              (<[next_run (fl s) := new_run c]> (runs g)) g) s).
Proof.
  intros [H1 H2 H3 H4].
  assert (∀ r x, runs (fl s) !! r = Some x →
            <[next_run (fl s) := new_run c]> (runs (fl s)) !! r = Some x) as Hold.
  { intros r x Hx. rewrite lookup_insert_ne; [done|]. apply H2 in Hx. lia. }
  split; simpl.
  - intros id r Hid. destruct (H1 _ _ Hid) as (x & Hx & ?). eauto.
  - intros r x [[<- _]|[_ Hx]]%lookup_insert_Some; [lia|]. apply H2 in Hx. lia.
  - intros r Hin. destruct (H3 _ Hin) as (x & Hx & ?). eauto.
  - intros c' o r Ho Hin. destruct (H4 _ _ _ Ho Hin) as (x & Hx & ?). eauto.
Qed.

Lemma consistent_add_resize r c s :
  live_run r c s → consistent s →
  consistent (with_br (λ b, set_resize_listeners (add_listener r (resize_listeners b)) b) s).
Proof.
  intros (x & Hx & _ & Hrun) [H1 H2 H3 H4]. split; simpl; try assumption.
  intros r'. unfold add_listener. case_decide; [apply H3|].
  intros [Hin| ->%list_elem_of_singleton]%elem_of_app; eauto.
Qed.

Lemma consistent_add_mousemove r c s :
  live_run r c s → consistent s →
  consistent (update_container c
                (λ o, set_mousemove_listeners (add_listener r (mousemove_listeners o)) o) s).
Proof.
  intros Hlive [H1 H2 H3 H4]. split; simpl; try assumption.
  intros c' o' r' [(Hc & o & Ho & ->)|[_ Ho]]%lookup_alter_Some Hin; [|eauto].
  subst c'. simpl in Hin. unfold add_listener in Hin. case_decide; [eauto|].
  apply elem_of_app in Hin as [Hin| ->%list_elem_of_singleton]; eauto.
Qed.

Lemma consistent_startAnimation s : consistent s → consistent (startAnimation s).
Proof.
  intros Hs. unfold startAnimation.
  destruct (container (doc s)) as [c|].
  - cbv zeta.
    set (s1 := with_fl (set_retryCount 0) s).
    set (s2 := match containers (doc s1) !! c with
               | Some o => match _flowingLightCleanup o with
                           | Some r0 => cleanup r0 s1
                           | None => s1
                           end
               | None => s1
               end).
    assert (consistent s2) as Hs2.
    { assert (consistent s1) as Hs1 by (eapply consistent_same; [|exact Hs]; untouched).
      unfold s2. repeat case_match; auto using consistent_cleanup. }
    clearbody s2. clear s1.
    set (r := next_run (fl s2)).
    set (s3 := update_container c (λ o, set_canvases (canvases o ++ [r]) o) s2).
    assert (consistent s3) as Hs3 by (apply consistent_update_container; done).
    assert (next_run (fl s3) = r) as Hr3 by reflexivity.
    clearbody s3.
    set (s4 := with_fl _ s3).
    assert (consistent s4) as Hs4.
    { unfold s4. rewrite <- Hr3. apply consistent_new_run, Hs3. }
    assert (live_run r c s4) as Hl4.
    { eexists. unfold s4. simpl. rewrite lookup_insert_eq. eauto. }
    assert (∀ id, frames (br s4) !! id ≠ Some r) as Hn4.
    { intros id Hid. destruct (co_frames _ Hs3 _ _ Hid) as (x & Hx & _).
      apply (co_runs _ Hs3) in Hx. lia. }
    clearbody s4.
    apply consistent_update_container; [done|].
    apply consistent_add_mousemove.
    { apply (live_request_tick r c r), live_resize_run, Hl4. }
    apply (consistent_add_resize r c).
    { apply (live_request_tick r c r), live_resize_run, Hl4. }
    apply consistent_request_tick.
    + destruct (live_resize_run r c r s4 Hl4) as (x & ? & ? & ?). eauto.
    + intros id. unfold resize_run.
      repeat case_match; apply Hn4.
    + by apply consistent_resize_run.
  - destruct (retryCount (fl s) <? MAX_RETRIES FLOWING_LIGHT_CONFIG); [|done].
    eapply consistent_same; [|exact Hs]. untouched.
Qed.

Lemma consistent_stopFlowingLight s : consistent s → consistent (stopFlowingLight s).
Proof.
  intros Hs. unfold stopFlowingLight. repeat case_match; auto using consistent_cleanup.
Qed.

Lemma consistent_start_both s : consistent s → consistent (start_both s).
Proof.
  intros Hs. unfold start_both.
  eapply consistent_same; [apply same_startTypewriterAnimation|].
  by apply consistent_startAnimation.
Qed.

Lemma consistent_attach_container c s : consistent s → consistent (attach_container c s).
Proof.
  intros Hs. unfold attach_container.
  destruct c as [i|]; simpl; [|eapply consistent_same; [|exact Hs]; untouched].
  destruct (containers (doc s) !! i) eqn:Hi;
    [eapply consistent_same; [|exact Hs]; untouched|].
  destruct Hs as [H1 H2 H3 H4]. split; simpl; try assumption.
  intros c o r [[<- <-]|[_ Ho]]%lookup_insert_Some Hin; [|eauto].
  by apply elem_of_nil in Hin.
Qed.

Lemma consistent_run_callback cb s : consistent s → consistent (run_callback cb s).
Proof.
  intros Hs. destruct cb; simpl;
    auto using consistent_startAnimation, consistent_debounced, consistent_start_both.
  - eapply consistent_same; [apply same_typewriterTick|done].
  - eapply consistent_same; [apply same_startTypewriterAnimation|done].
  - eapply consistent_same; [apply same_afterTypePause|done].
  - eapply consistent_same; [apply same_afterDeletePause|done].
Qed.

Lemma consistent_fire_timer id s : consistent s → consistent (fire_timer id s).
Proof.
  intros Hs. unfold fire_timer.
  destruct (timers (br s) !! id) as [tm|]; [|done].
  apply consistent_run_callback.
  eapply consistent_same; [|exact Hs]. destruct (t_kind tm); untouched.
Qed.

Lemma consistent_handle e s : consistent s → consistent (handle e s).
Proof.
  intros Hs. destruct e; simpl.
  - by apply consistent_fire_timer.
  - by apply consistent_fire_frame.
  - generalize (resize_listeners (br s)). intros l. revert s Hs.
    induction l as [|r l IH]; intros s Hs; simpl; [done|].
    apply IH, consistent_onResize, Hs.
  - destruct (dcl_listener (br s)); [|done].
    apply consistent_start_both. eapply consistent_same; [|exact Hs]. untouched.
  - unfold urlObserver, containerObserver.
    assert (consistent (if scan_mutations ms then start_both s else s)) as Hs'
      by (destruct (scan_mutations ms); auto using consistent_start_both).
    destruct (String.eqb _ _); [done|].
    apply consistent_start_both. eapply consistent_same; [|exact Hs']. untouched.
  - eapply consistent_same; [apply same_startTypewriterAnimation|done].
  - eapply consistent_same; [apply same_stopTypewriterAnimation|done].
  - by apply consistent_startAnimation.
  - by apply consistent_stopFlowingLight.
  - eapply consistent_same; [|exact Hs]. untouched.
  - by apply consistent_attach_container.
  - by apply consistent_update_container.
Qed.

Lemma consistent_step s te : consistent s → consistent (step s te).
Proof.
  intros Hs. unfold step. apply consistent_handle.
  eapply consistent_same; [|exact Hs]. untouched.
Qed.

Lemma consistent_run_events tes s : consistent s → consistent (run_events s tes).
Proof.
  revert s. induction tes as [|te tes IH]; intros s Hs; simpl; [done|].
  apply IH, consistent_step, Hs.
Qed.

Lemma consistent_script_loaded rs hero cont href :
  consistent (script_loaded rs hero cont href).
Proof.
  assert (consistent (initial_state hero cont href)) as H0.
  { split; simpl; try (intros; by simplify_map_eq).
    - intros r Hin. by apply elem_of_nil in Hin.
    - intros c o r Ho Hin. destruct cont as [[c' [w h]]|]; simplify_map_eq.
      by apply elem_of_nil in Hin. }
  unfold script_loaded, boot.
  eapply consistent_same; [eapply same_flowing_trans; apply same_schedule|].
  destruct rs.
  - eapply consistent_same; [|exact H0]. untouched.
  - by apply consistent_start_both.
  - by apply consistent_start_both.
Qed.

Lemma reachable_consistent s : reachable s → consistent s.
Proof.
  intros (rs & hero & cont & href & tes & ->).
  apply consistent_run_events, consistent_script_loaded.
Qed.

Lemma inert_refl r s : inert_on r s s.
Proof. intros x Hx Hr. eauto. Qed.

Lemma inert_trans r s1 s2 s3 : inert_on r s1 s2 → inert_on r s2 s3 → inert_on r s1 s3.
Proof.
  intros H12 H23 x Hx Hr.
  destruct (H12 x Hx Hr) as (x' & Hx' & Hr' & Hd').
  destruct (H23 x' Hx' Hr') as (x'' & ? & ? & ?).
  exists x''. repeat split; congruence.
Qed.

Lemma inert_runs_eq r s s' : runs (fl s') = runs (fl s) → inert_on r s s'.
Proof. intros Hr x Hx ?. rewrite Hr. eauto. Qed.

Lemma inert_same r s s' : same_flowing s s' → inert_on r s s'.
Proof. intros (_ & _ & Hr & _). by apply inert_runs_eq. Qed.

Lemma inert_update_run r r' f s :
  (r' ≠ r ∨ ∀ x, running x = false → running (f x) = false ∧ drawn (f x) = drawn x) →
  inert_on r s (update_run r' f s).
Proof.
  intros Hf x Hx Hr. simpl.
  destruct (decide (r' = r)) as [->|Hne].
  - destruct Hf as [?|Hf]; [done|]. destruct (Hf x Hr).
    exists (f x). by rewrite lookup_alter_eq, Hx.
  - exists x. by rewrite lookup_alter_ne.
Qed.

Lemma inert_cancel r id s : inert_on r s (cancelAnimationFrame id s).
Proof. by apply inert_runs_eq. Qed.

Lemma inert_update_container r c f s : inert_on r s (update_container c f s).
Proof. by apply inert_runs_eq. Qed.

Lemma inert_request_tick r r' s : inert_on r s (request_tick r' s).
Proof.
  unfold request_tick. simpl.
  apply (inert_update_run r r' (set_rafId (next_frame (br s))) s). right. done.
Qed.

Lemma inert_resize_run r r' s : inert_on r s (resize_run r' s).
Proof.
  unfold resize_run. repeat case_match; try apply inert_refl.
  apply inert_update_run. right. done.
Qed.

Lemma inert_cleanup r r' s : inert_on r s (cleanup r' s).
Proof.
  unfold cleanup. destruct (runs (fl s) !! r') as [x'|]; [|apply inert_refl].
  intros x Hx Hr. simpl.
  destruct (inert_update_run r r' (set_running false) s (or_intror (λ _ _, conj eq_refl eq_refl))
              x Hx Hr) as (y & Hy & ?). eauto.
Qed.

Lemma inert_tick r r' s : inert_on r s (tick r' s).
Proof.
  unfold tick. destruct (runs (fl s) !! r') as [x'|] eqn:Hx'; [|apply inert_refl].
  destruct (running x') eqn:Hr'; [|apply inert_refl].
  destruct (decide (r' = r)) as [->|Hne]; [intros x Hx Hr; congruence|].
  eapply inert_trans; [|apply inert_request_tick].
  apply inert_update_run. by left.
Qed.

Lemma inert_fire_frame r id s : inert_on r s (fire_frame id s).
Proof.
  unfold fire_frame. destruct (frames (br s) !! id); [|apply inert_refl].
  eapply inert_trans; [apply inert_cancel | apply inert_tick].
Qed.

Lemma inert_onResize r r' s : inert_on r s (onResize r' s).
Proof.
  unfold onResize. destruct (runs (fl s) !! r'); [|apply inert_refl].
  eapply inert_trans; [|apply inert_update_run; by right].
  apply inert_same.
  eapply same_flowing_trans; [apply same_clearTimer | apply same_schedule].
Qed.

Lemma inert_debounced r r' s : inert_on r s (debounced r' s).
Proof.
  unfold debounced. destruct (runs (fl s) !! r') as [x'|] eqn:Hx'; [|apply inert_refl].
  eapply inert_trans; [apply inert_cancel|].
  destruct (running x'); [|apply inert_resize_run].
  eapply inert_trans; [apply inert_resize_run | apply inert_request_tick].
Qed.

Lemma inert_new_run r c s :
  consistent s →
  inert_on r s (with_fl (λ g, set_runs (S (next_run (fl s)))
                               (<[next_run (fl s) := new_run c]> (runs g)) g) s).
Proof.
  intros Hs x Hx Hr. simpl. exists x.
  rewrite lookup_insert_ne; [done|]. apply (co_runs _ Hs) in Hx. lia.
Qed.

Lemma inert_startAnimation r s : consistent s → inert_on r s (startAnimation s).
Proof.
  intros Hs. unfold startAnimation.
  destruct (container (doc s)) as [c|].
  - cbv zeta.
    set (s1 := with_fl (set_retryCount 0) s).
    set (s2 := match containers (doc s1) !! c with
               | Some o => match _flowingLightCleanup o with
                           | Some r0 => cleanup r0 s1
                           | None => s1
                           end
               | None => s1
               end).
    assert (consistent s1) as Hs1 by (eapply consistent_same; [|exact Hs]; untouched).
    assert (consistent s2) as Hs2
      by (unfold s2; repeat case_match; auto using consistent_cleanup).
    assert (inert_on r s s2) as Hi2.
    { apply (inert_trans r s s1); [by apply inert_runs_eq|].
      unfold s2. repeat case_match; auto using inert_cleanup, inert_refl. }
    clearbody s2. clear s1 Hs1.
    set (q := next_run (fl s2)).
    set (s3 := update_container c (λ o, set_canvases (canvases o ++ [q]) o) s2).
    assert (consistent s3) as Hs3 by (apply consistent_update_container; done).
    assert (inert_on r s s3) as Hi3
      by (eapply inert_trans; [exact Hi2 | apply inert_update_container]).
    assert (next_run (fl s3) = q) as Hq3 by reflexivity.
    clearbody s3.
    set (s4 := with_fl _ s3).
    assert (inert_on r s s4) as Hi4.
    { eapply inert_trans; [exact Hi3|]. unfold s4. rewrite <- Hq3.
      by apply inert_new_run. }
    clearbody s4.
    eapply inert_trans; [exact Hi4|].
    eapply inert_trans; [apply inert_resize_run|].
    eapply inert_trans; [apply inert_request_tick|].
    by apply inert_runs_eq.
  - destruct (retryCount (fl s) <? MAX_RETRIES FLOWING_LIGHT_CONFIG);
      [by apply inert_runs_eq | apply inert_refl].
Qed.

Lemma inert_start_both r s : consistent s → inert_on r s (start_both s).
Proof.
  intros Hs. unfold start_both.
  eapply inert_trans; [by apply inert_startAnimation|].
  apply inert_same, same_startTypewriterAnimation.
Qed.

Lemma inert_run_callback r cb s : consistent s → inert_on r s (run_callback cb s).
Proof.
  intros Hs. destruct cb; simpl;
    auto using inert_startAnimation, inert_debounced, inert_start_both;
    apply inert_same;
    auto using same_typewriterTick, same_startTypewriterAnimation,
               same_afterTypePause, same_afterDeletePause.
Qed.

Lemma inert_fire_timer r id s : consistent s → inert_on r s (fire_timer id s).
Proof.
  intros Hs. unfold fire_timer.
  destruct (timers (br s) !! id) as [tm|]; [|apply inert_refl].
  assert (same_flowing s
            match t_kind tm with
            | OneShot => clearTimer id s
            | Repeating =>
              with_br (λ b, set_timers (next_timer b)
                 (<[id := Timer Repeating (t_delay tm) (now (br s) + t_delay tm) (t_cb tm)]>
                    (timers b)) b) s
            end) as Hsame by (destruct (t_kind tm); untouched).
  eapply inert_trans; [apply inert_same, Hsame|].
  apply inert_run_callback. eapply consistent_same; [exact Hsame | exact Hs].
Qed.

Lemma inert_handle r e s : consistent s → inert_on r s (handle e s).
Proof.
  intros Hs. destruct e; simpl.
  - by apply inert_fire_timer.
  - apply inert_fire_frame.
  - generalize (resize_listeners (br s)). intros l. generalize s.
    induction l as [|r' l IH]; intros s'; simpl; [apply inert_refl|].
    eapply inert_trans; [apply inert_onResize | apply IH].
  - destruct (dcl_listener (br s)); [|apply inert_refl].
    eapply inert_trans; [|apply inert_start_both].
    + by apply inert_runs_eq.
    + eapply consistent_same; [|exact Hs]. untouched.
  - unfold urlObserver, containerObserver.
    assert (consistent (if scan_mutations ms then start_both s else s)) as Hs'
      by (destruct (scan_mutations ms); auto using consistent_start_both).
    assert (inert_on r s (if scan_mutations ms then start_both s else s)) as Hi'
      by (destruct (scan_mutations ms); auto using inert_start_both, inert_refl).
    destruct (String.eqb _ _); [done|].
    eapply inert_trans; [exact Hi'|].
    eapply inert_trans; [|apply inert_start_both].
    + by apply inert_runs_eq.
    + eapply consistent_same; [|exact Hs']. untouched.
  - apply inert_same, same_startTypewriterAnimation.
  - apply inert_same, same_stopTypewriterAnimation.
  - by apply inert_startAnimation.
  - unfold stopFlowingLight. repeat case_match; auto using inert_cleanup, inert_refl.
  - by apply inert_runs_eq.
  - unfold attach_container. repeat case_match; by apply inert_runs_eq.
  - apply inert_update_container.
Qed.

Lemma inert_step r s te : consistent s → inert_on r s (step s te).
Proof.
  intros Hs. unfold step.
  eapply inert_trans; [|apply inert_handle].
  - by apply inert_runs_eq.
  - eapply consistent_same; [|exact Hs]. untouched.
Qed.

Lemma inert_run_events r tes s : consistent s → inert_on r s (run_events s tes).
Proof.
  revert s. induction tes as [|te tes IH]; intros s Hs; simpl; [apply inert_refl|].
  eapply inert_trans; [by apply inert_step|].
  apply IH, consistent_step, Hs.
Qed.

(** In a consistent state a run that is not running has nothing left in
    the browser. *)
Lemma stopped_is_shut_down r x s :
  consistent s → runs (fl s) !! r = Some x → running x = false → shut_down r s.
Proof.
  intros [H1 H2 H3 H4] Hx Hr. split.
  - eauto.
  - intros id Hid. destruct (H1 _ _ Hid) as (y & ? & _ & ?). congruence.
  - intros Hin. destruct (H3 _ Hin) as (y & ? & ?). congruence.
  - intros (c & o & Ho & Hin). destruct (H4 _ _ _ Ho Hin) as (y & ? & _ & ?). congruence.
Qed.

Lemma cleanup_stops r x s :
  runs (fl s) !! r = Some x →
  ∃ x', runs (fl (cleanup r s)) !! r = Some x' ∧ running x' = false ∧ drawn x' = drawn x.
Proof.
  intros Hx. unfold cleanup. rewrite Hx. simpl.
  eexists. rewrite lookup_alter_eq, Hx. simpl. eauto.
Qed.

(** C4, as amended.  In any reachable state, once the cleanup of a
    flowing-light run has run, that run is not running and no frame
    request, resize listener or mousemove listener of it is left, and
    this stays so whatever happens next (a debounce timeout that was
    pending still fires, but requests no frame), so the run never
    paints again.  After [stopTypewriterAnimation], [typewriterInterval]
    is [null] and the interval it held is cleared. *)
Theorem stop_releases_tracked_resources :
  (∀ s r tes,
     reachable s → is_Some (runs (fl s) !! r) →
     let s' := run_events (cleanup r s) tes in
     shut_down r s' ∧ drawn_by r s' = drawn_by r s) ∧
  (∀ s,
     typewriterInterval (tw (stopTypewriterAnimation s)) = None ∧
     ∀ id, typewriterInterval (tw s) = Some id →
           timers (br (stopTypewriterAnimation s)) !! id = None).
Proof.
  split.
  - intros s r tes Hreach [x Hx] s'.
    apply reachable_consistent in Hreach.
    assert (consistent (cleanup r s)) as Hc by by apply consistent_cleanup.
    destruct (cleanup_stops r x s Hx) as (x1 & Hx1 & Hr1 & Hd1).
    destruct (inert_run_events r tes _ Hc x1 Hx1 Hr1) as (x2 & Hx2 & Hr2 & Hd2).
    split.
    + eapply stopped_is_shut_down; eauto. by apply consistent_run_events.
    + unfold drawn_by, s'. rewrite Hx2, Hx. congruence.
  - intros s. unfold stopTypewriterAnimation, write_textContent.
    split.
    + repeat case_match; simpl in *; congruence.
    + intros id Hid. rewrite Hid. simpl.
      destruct (typewriterElement (tw s)); simpl; apply lookup_delete_eq.
Qed.

Lemma stop_releases_tracked_resources_witness :
  let s := run_events home_page (first_half_second ++ [(1000, WindowResize)]) in
  (reachable s ∧ is_Some (runs (fl s) !! 3%nat)) ∧
  shut_down 3 (run_events (cleanup 3 s) [(1150, TimerFires 4%nat)]) ∧
  typewriterInterval (tw (stopTypewriterAnimation s)) = None.
Proof.
  intros s.
  assert (reachable s) as Hreach.
  { exists Complete, (Some 7%nat), (Some (3%nat, (50 # 1, 30 # 1)%Q)), home,
      (first_half_second ++ [(1000, WindowResize)]). reflexivity. }
  assert (is_Some (runs (fl s) !! 3%nat)) as Hrun by (vm_compute; eauto).
  split; [split; assumption|]. split.
  - exact (proj1 (proj1 stop_releases_tracked_resources s 3%nat
                    [(1150, TimerFires 4%nat)] Hreach Hrun)).
  - exact (proj1 (proj2 stop_releases_tracked_resources s)).
Defined.

(** C4 as stated fails.  The debounce timeout of a run is still
    scheduled after its cleanup; and a typewriter stopped while the
    title is held keeps the timeout of the hold, which installs a new
    interval that goes on to change the title. *)
Lemma stop_leaves_timeouts_scheduled :
  let s1 := run_events home_page stop_flowing_in_debounce in
  let s2 := run_events home_page stop_typewriter_in_pause in
  let s3 := run_events home_page after_stopped_typewriter in
  all_on_time home_page after_stopped_typewriter = true ∧
  (shut_down 3 s1 ∧ debounce_pending 3 s1) ∧
  (typewriterInterval (tw s2) = None ∧ pause_pending s2 ∧
   textContent (doc s2) !! 7%nat = Some "HIFI DOCS"%string) ∧
  (typewriter_intervals s3 = [6%nat] ∧
   textContent (doc s3) !! 7%nat = Some "HIFI DOC"%string).
Proof.
  intros s1 s2 s3. split; [by vm_compute|]. split; [|split].
  - split.
    + eapply (stopped_is_shut_down 3).
      * apply reachable_consistent.
        exists Complete, (Some 7%nat), (Some (3%nat, (50 # 1, 30 # 1)%Q)), home,
          stop_flowing_in_debounce. reflexivity.
      * by vm_compute.
      * reflexivity.
    + exists 4%nat, (Timer OneShot 150 1150 (CbDebounce 3)). split; by vm_compute.
  - split; [by vm_compute|]. split; [|by vm_compute].
    exists 5%nat, (Timer OneShot 5000 6500 CbAfterType). split; [by vm_compute|by left].
  - split; by vm_compute.
Qed.

(** ** Canvas size and painted position *)




Section Shimmer.
#[local] Open Scope R_scope.

Lemma dir_unit (d side : R) : - side <= d <= side -> -1 <= dir d side <= 1.
Proof.
  intros Hd. unfold dir.
  assert (0 < Rmax 1 side) as Hpos by (pose proof (Rmax_l 1 side); lra).
  assert (side <= Rmax 1 side) as Hge by apply Rmax_r.
  assert (d / Rmax 1 side * Rmax 1 side = d) as Hmul by (field; lra).
  split; apply Rmult_le_reg_r with (r := Rmax 1 side); try done; lra.
Qed.

(** X4.  While the cursor is over the canvas, a dot whose lattice point
    lies inside the canvas is painted by [tick] at most 5 px from that
    point in each direction: 3 px of wave and 2 px of pull towards the
    cursor. *)
Theorem shimmer_stays_within_five_pixels (time mouseX mouseY x0 y0 width height : R) :
  0 <= mouseX <= width -> 0 <= x0 <= width ->
  0 <= mouseY <= height -> 0 <= y0 <= height ->
  Rabs (painted_x time mouseX mouseY x0 y0 width - x0) <= 5 /\
  Rabs (painted_y time mouseX mouseY x0 y0 height - y0) <= 5.
Proof.
  intros Hmx Hx Hmy Hy. unfold painted_x, painted_y, offsetX, offsetY.
  pose proof (dir_unit (mouseX - x0) width ltac:(lra)) as Hdx.
  pose proof (dir_unit (mouseY - y0) height ltac:(lra)) as Hdy.
  set (dist := dot_dist mouseX mouseY x0 y0).
  pose proof (SIN_bound (time * 0.6 - dist * 0.005)).
  pose proof (COS_bound (time * 0.5 - dist * 0.005)).
  split; apply Rabs_le; lra.
Qed.

Lemma shimmer_stays_within_five_pixels_witness :
  Rabs (painted_x 0 400 300 25 50 800 - 25) <= 5 /\
  Rabs (painted_y 0 400 300 25 50 600 - 50) <= 5.
Proof.
  apply (shimmer_stays_within_five_pixels 0 400 300 25 50 800 600); lra.
Defined.

(** X5.  The proximity boost of [tick] lies between 0 and 0.4; within
    PROX_RADIUS of the cursor it is (1 - dist / PROX_RADIUS) * 0.4, from
    PROX_RADIUS on it is 0 and the final intensity is the wave intensity
    alone; and it never grows with the distance. *)
Theorem proximity_boost_profile (time mouseX mouseY x0 y0 : R) :
  let dist := dot_dist mouseX mouseY x0 y0 in
  0 <= proxBoost dist <= 0.4 /\
  (150 <= dist -> proxBoost dist = 0 /\ finalIntensity time dist = intensity time dist) /\
  (dist <= 150 -> proxBoost dist = (1 - dist / 150) * 0.4) /\
  (forall d1 d2, d1 <= d2 -> proxBoost d2 <= proxBoost d1).
Proof.
  intros dist.
  assert (0 <= dist) as Hpos by apply dot_dist_nonneg.
  assert (forall d, proxBoost d = Rmax 0 (1 - d / 150) * 0.4) as Heq by apply proxBoost_eq.
  split; [|split; [|split]].
  - rewrite Heq. unfold Rmax. destruct (Rle_dec 0 (1 - dist / 150)); lra.
  - intros Hfar.
    assert (proxBoost dist = 0) as Hz
      by (rewrite Heq; unfold Rmax; destruct (Rle_dec 0 (1 - dist / 150)); lra).
    split; [exact Hz|]. unfold finalIntensity. rewrite Hz.
    pose proof (intensity_unit time dist). rewrite Rmin_right; lra.
  - intros Hnear. rewrite Heq. rewrite Rmax_right; lra.
  - intros d1 d2 Hle. rewrite !Heq. unfold Rmax.
    destruct (Rle_dec 0 (1 - d1 / 150)), (Rle_dec 0 (1 - d2 / 150)); lra.
Qed.
End Shimmer.

(** ** More on the grid *)

Lemma Qtruncate_nonneg (q : Q) : (0 <= q)%Q → Qtruncate q = Qfloor q ∧ 0 ≤ Qfloor q.
Proof.
  destruct q as [n d]. unfold Qle, Qtruncate, Qfloor. simpl. intros Hn.
  assert (0 ≤ n) by lia.
  rewrite Z.quot_div_nonneg by lia. split; [done|]. apply Z.div_pos; lia.
Qed.

Lemma to_int32_in_range (q : Q) :
  (0 <= q)%Q → Qfloor q < 2 ^ 31 → to_int32 q = Qfloor q.
Proof.
  intros Hq Hlt. destruct (Qtruncate_nonneg q Hq) as [Heq Hpos].
  unfold to_int32. rewrite Heq, Z.mod_small; lia.
Qed.

(** X6.  For a rectangle with non-negative sides below 2^31, [resize]
    sets [width] and [height] to the sides rounded down, but at least 1;
    a collapsed container (both sides below 1 px) gets a 1 by 1 canvas
    with one dot, at the origin. *)
Theorem resize_clamps_sides (rect_w rect_h : Q) (x : run) :
  (0 <= rect_w)%Q → (0 <= rect_h)%Q →
  Qfloor rect_w < 2 ^ 31 → Qfloor rect_h < 2 ^ 31 →
  let x' := resize rect_w rect_h x in
  width x' = Z.max 1 (Qfloor rect_w) ∧
  height x' = Z.max 1 (Qfloor rect_h) ∧
  ((rect_w < 1)%Q → (rect_h < 1)%Q →
   width x' = 1 ∧ height x' = 1 ∧ cols x' = 1 ∧ rows x' = 1 ∧ dots x' = [0; 0]).
Proof.
  intros Hw Hh Hwl Hhl x'.
  assert (width x' = Z.max 1 (Qfloor rect_w)) as Hwidth
    by (unfold x'; rewrite resize_width, to_int32_in_range; done).
  assert (height x' = Z.max 1 (Qfloor rect_h)) as Hheight
    by (unfold x'; rewrite resize_height, to_int32_in_range; done).
  split; [done|]. split; [done|].
  intros Hw1 Hh1.
  assert (∀ q, (0 <= q)%Q → (q < 1)%Q → Qfloor q = 0) as Hsmall.
  { intros q Hq0 Hq1.
    assert (0 ≤ Qfloor q) by (rewrite <- (Qfloor_Z 0); by apply Qfloor_resp_le).
    assert (Qfloor q < 1); [|lia].
    rewrite Zlt_Qlt. eapply Qle_lt_trans; [apply Qfloor_le|exact Hq1]. }
  rewrite (Hsmall _ Hw Hw1) in Hwidth. rewrite (Hsmall _ Hh Hh1) in Hheight.
  change (Z.max 1 0) with 1 in Hwidth, Hheight.
  assert (cols x' = 1) as Hc
    by (change (cols x') with (ceil_div (width x') 25); by rewrite Hwidth).
  assert (rows x' = 1) as Hr
    by (change (rows x') with (ceil_div (height x') 25); by rewrite Hheight).
  repeat (split; [done|]).
  change (dots x') with
    (snd (fill_grid (rows x') (cols x') (Float32Array (cols x' * rows x' * 2)))).
  by rewrite Hc, Hr.
Qed.

Lemma resize_clamps_sides_witness :
  let x' := resize (1280 # 1) (1 # 2) (new_run 0) in
  width x' = 1280 ∧ height x' = 1.
Proof.
  intros x'.
  destruct (resize_clamps_sides (1280 # 1) (1 # 2) (new_run 0)) as (Hw & Hh & _);
    [discriminate | discriminate | reflexivity | reflexivity |].
  split; [exact Hw | exact Hh].
Defined.

(** X7.  For a canvas of at most 2^24 px a side, every dot stored by
    [resize] lies inside the canvas, and every pixel of the canvas lies
    in the GRID_SIZE by GRID_SIZE cell of a stored dot: the grid covers
    the canvas and nothing more. *)
Theorem grid_inside_and_covering (rect_w rect_h : Q) (x : run) :
  let x' := resize rect_w rect_h x in
  let g := GRID_SIZE FLOWING_LIGHT_CONFIG in
  width x' ≤ 2 ^ 24 → height x' ≤ 2 ^ 24 →
  (∀ r c, 0 ≤ r < rows x' → 0 ≤ c < cols x' →
     ∃ px py,
       dots x' !! Z.to_nat (2 * (r * cols x' + c)) = Some px ∧
       dots x' !! Z.to_nat (2 * (r * cols x' + c) + 1) = Some py ∧
       0 ≤ px < width x' ∧ 0 ≤ py < height x') ∧
  (∀ u v, 0 ≤ u < width x' → 0 ≤ v < height x' →
     ∃ r c,
       (0 ≤ r < rows x' ∧ 0 ≤ c < cols x') ∧
       dots x' !! Z.to_nat (2 * (r * cols x' + c)) = Some (c * g) ∧
       dots x' !! Z.to_nat (2 * (r * cols x' + c) + 1) = Some (r * g) ∧
       c * g ≤ u < c * g + g ∧ r * g ≤ v < r * g + g).
Proof.
  intros x' g Hw Hh. unfold g. simpl (GRID_SIZE _).
  pose proof (ceil_div_25_bounds (width x')) as Hcw.
  pose proof (ceil_div_25_bounds (height x')) as Hch.
  change (ceil_div (width x') 25) with (cols x') in Hcw.
  change (ceil_div (height x') 25) with (rows x') in Hch.
  assert (∀ r c, 0 ≤ r < rows x' → 0 ≤ c < cols x' →
            dots x' !! Z.to_nat (2 * (r * cols x' + c)) = Some (c * 25) ∧
            dots x' !! Z.to_nat (2 * (r * cols x' + c) + 1) = Some (r * 25)) as Hat.
  { intros r c Hr Hc.
    destruct (resize_dots_lookup rect_w rect_h x r c Hr Hc) as [H1 H2].
    fold x' in H1, H2.
    rewrite fround_small in H1 by lia. rewrite fround_small in H2 by lia. done. }
  split.
  - intros r c Hr Hc. destruct (Hat r c Hr Hc) as [H1 H2].
    exists (c * 25), (r * 25). repeat split; try done; lia.
  - intros u v Hu Hv.
    pose proof (Z.div_mod u 25 ltac:(lia)). pose proof (Z.mod_pos_bound u 25 ltac:(lia)).
    pose proof (Z.div_mod v 25 ltac:(lia)). pose proof (Z.mod_pos_bound v 25 ltac:(lia)).
    assert (0 ≤ v / 25 < rows x') as Hr by (split; [apply Z.div_pos; lia|nia]).
    assert (0 ≤ u / 25 < cols x') as Hc by (split; [apply Z.div_pos; lia|nia]).
    exists (v / 25), (u / 25). destruct (Hat _ _ Hr Hc) as [Hx Hy].
    repeat split; try done; lia.
Qed.

Lemma grid_inside_and_covering_witness :
  let x' := resize (50 # 1) (30 # 1) (new_run 0) in
  ∃ r c, (0 ≤ r < rows x' ∧ 0 ≤ c < cols x') ∧
         dots x' !! Z.to_nat (2 * (r * cols x' + c)) = Some (c * 25) ∧
         dots x' !! Z.to_nat (2 * (r * cols x' + c) + 1) = Some (r * 25) ∧
         c * 25 ≤ 37 < c * 25 + 25 ∧ r * 25 ≤ 12 < r * 25 + 25.
Proof.
  intros x'.
  assert (width x' ≤ 2 ^ 24) as Hw by (vm_compute; discriminate).
  assert (height x' ≤ 2 ^ 24) as Hh by (vm_compute; discriminate).
  apply (proj2 (grid_inside_and_covering (50 # 1) (30 # 1) (new_run 0) Hw Hh) 37 12);
    vm_compute; split; congruence.
Defined.

(** ** When the observers stay quiet *)

Lemma node_children_ind (P : node → Prop) :
  (∀ i ch, Forall P ch → P (ElementNode i ch)) →
  (∀ d, P (TextNode d)) → (∀ d, P (CommentNode d)) →
  ∀ n, P n.
Proof.
  intros HE HT HC. fix IH 1. intros [i ch|d|d]; [|apply HT|apply HC].
  apply HE. induction ch as [|c ch IHch]; constructor; [apply IH|apply IHch].
Qed.

Lemma querySelector_id_sound i n m :
  querySelector_id i n = Some m → descendant m n ∧ node_id m = Some i.
Proof.
  revert m. induction n as [j ch IH|d|d] using node_children_ind;
    intros m Hq; [|discriminate..].
  induction ch as [|c ch IHch]; [discriminate|].
  rewrite querySelector_id_cons in Hq.
  apply Forall_cons in IH as [IHc IHrest].
  destruct c as [ci cch|d|d].
  - destruct (String.eqb_spec ci i) as [->|Hne].
    + injection Hq as <-. split; [|done]. apply desc_child, list_elem_of_here.
    + destruct (querySelector_id i (ElementNode ci cch)) as [m'|] eqn:Hc.
      * injection Hq as <-. destruct (IHc _ eq_refl) as [Hd Hid].
        split; [|done]. eapply desc_deeper; [apply list_elem_of_here|done].
      * destruct (IHch IHrest Hq) as [Hd Hid]. split; [|done].
        inversion Hd; subst.
        -- apply desc_child. by apply list_elem_of_further.
        -- eapply desc_deeper; [apply list_elem_of_further|]; done.
  - destruct (IHch IHrest Hq) as [Hd Hid]. split; [|done].
    inversion Hd; subst.
    + apply desc_child. by apply list_elem_of_further.
    + eapply desc_deeper; [apply list_elem_of_further|]; done.
  - destruct (IHch IHrest Hq) as [Hd Hid]. split; [|done].
    inversion Hd; subst.
    + apply desc_child. by apply list_elem_of_further.
    + eapply desc_deeper; [apply list_elem_of_further|]; done.
Qed.

Lemma adds_container_sound n :
  adds_container n = true → is_or_contains_container n.
Proof.
  unfold adds_container, is_or_contains_container.
  intros H. apply andb_true_iff in H as [Hty H]. apply Z.eqb_eq in Hty.
  split; [done|]. apply orb_true_iff in H as [H|H].
  - left. destruct (node_id n) as [i|]; [|discriminate].
    by apply String.eqb_eq in H as ->.
  - right. apply bool_decide_eq_true_1 in H as [m Hm].
    exists m. by apply querySelector_id_sound.
Qed.

Lemma scan_nodes_sound ns :
  scan_nodes ns = true → ∃ n, n ∈ ns ∧ is_or_contains_container n.
Proof.
  induction ns as [|n ns IH]; [discriminate|]. simpl.
  destruct (adds_container n) eqn:Hn.
  - intros _. exists n. split; [apply list_elem_of_here|by apply adds_container_sound].
  - intros H. destruct (IH H) as (n' & Hin & Hc). exists n'.
    split; [by apply list_elem_of_further|done].
Qed.

Lemma scan_mutations_sound ms :
  scan_mutations ms = true →
  ∃ m n, m ∈ ms ∧ m_type m = ChildList ∧ n ∈ addedNodes m ∧ is_or_contains_container n.
Proof.
  induction ms as [|m ms IH]; [discriminate|]. simpl.
  assert (scan_mutations ms = true →
          ∃ m' n, m' ∈ m :: ms ∧ m_type m' = ChildList ∧ n ∈ addedNodes m' ∧
                  is_or_contains_container n) as Hrest.
  { intros H. destruct (IH H) as (m' & n & Hin & Hty & Hn & Hc).
    exists m', n. split; [by apply list_elem_of_further|done]. }
  destruct (m_type m) eqn:Hty; [|done..].
  destruct (scan_nodes (addedNodes m)) eqn:Hs; [|done].
  intros _. destruct (scan_nodes_sound _ Hs) as (n & Hn & Hc).
  exists m, n. split; [apply list_elem_of_here|done].
Qed.

(** X8.  When no element added by a child-list mutation of the batch
    is the flowing-light container or contains it, the container
    observer does nothing; if the URL is unchanged as well, the whole
    batch leaves the state as it was. *)
Theorem observers_quiet_without_container_or_url_change (ms : list mutation) (s : state) :
  (∀ m n, m ∈ ms → m_type m = ChildList → n ∈ addedNodes m →
          ¬ is_or_contains_container n) →
  containerObserver ms s = s ∧
  handle (Mutations ms (lastUrl s)) s = s ∧
  (∀ href, handle (Mutations ms href) s = urlObserver href s).
Proof.
  intros Hnone.
  assert (scan_mutations ms = false) as Hscan.
  { destruct (scan_mutations ms) eqn:Hs; [|done].
    destruct (scan_mutations_sound _ Hs) as (m & n & Hm & Hty & Hn & Hc).
    destruct (Hnone m n Hm Hty Hn Hc). }
  assert (containerObserver ms s = s) as Hco by (unfold containerObserver; by rewrite Hscan).
  split; [done|]. simpl. rewrite Hco. split; [|done].
  unfold urlObserver. by rewrite String.eqb_refl.
Qed.

Lemma observers_quiet_without_container_or_url_change_witness :
  let s := script_loaded Complete (Some 7%nat) (Some (3%nat, (800 # 1, 600 # 1))%Q) home in
  containerObserver unrelated_mutations s = s ∧
  handle (Mutations unrelated_mutations (lastUrl s)) s = s.
Proof.
  intros s.
  destruct (observers_quiet_without_container_or_url_change unrelated_mutations s)
    as (H1 & H2 & _); [|split; [exact H1|exact H2]].
  intros m n Hm Hty Hn Hc. apply adds_container_complete in Hc.
  unfold unrelated_mutations in Hm.
  repeat (apply elem_of_cons in Hm as [->|Hm]).
  - simpl in Hn. repeat (apply elem_of_cons in Hn as [->|Hn]); try discriminate.
    by apply elem_of_nil in Hn.
  - discriminate.
  - simpl in Hn. repeat (apply elem_of_cons in Hn as [->|Hn]); try discriminate.
    by apply elem_of_nil in Hn.
  - by apply elem_of_nil in Hm.
Defined.

(** ** The animation loop *)

Ltac staged := intros; repeat split; reflexivity.

Lemma same_stage_refl s : same_stage s s.
Proof. staged. Qed.

Lemma same_stage_trans s1 s2 s3 : same_stage s1 s2 → same_stage s2 s3 → same_stage s1 s3.
Proof. intros (?&?&?&?&?&?) (?&?&?&?&?&?). repeat split; congruence. Qed.

Lemma stage_schedule k cb d s : same_stage s (snd (schedule k cb d s)).
Proof. staged. Qed.
Lemma stage_clearTimer id s : same_stage s (clearTimer id s).
Proof. staged. Qed.

Lemma stage_startTypewriterAnimation s : same_stage s (startTypewriterAnimation s).
Proof.
  unfold startTypewriterAnimation. simpl.
  destruct (hero_title (doc s)); [destruct (typewriterInterval (tw s))|]; staged.
Qed.

Lemma stage_typewriterTick s : same_stage s (typewriterTick s).
Proof.
  unfold typewriterTick, clear_typewriterInterval, write_textContent.
  repeat case_match; staged.
Qed.

Lemma stage_stopTypewriterAnimation s : same_stage s (stopTypewriterAnimation s).
Proof.
  unfold stopTypewriterAnimation, write_textContent.
  repeat case_match; staged.
Qed.


























(** ** Runs and their containers *)

Lemma live_eq r c s s' : runs (fl s') = runs (fl s) → live_run r c s → live_run r c s'.
Proof. intros Hr (x & Hx & ?). exists x. by rewrite Hr. Qed.

Lemma housed_eq s s' :
  resize_listeners (br s') = resize_listeners (br s) → runs (fl s') = runs (fl s) →
  containers (doc s') = containers (doc s) → container (doc s') = container (doc s) →
  housed s → housed s'.
Proof.
  intros Hl Hr Hc Hp [H1 H2 H3 H4 H5].
  split; rewrite ?Hl, ?Hr, ?Hc, ?Hp; try assumption.
  intros c o Ho. specialize (H5 c o Ho).
  destruct (_flowingLightCleanup o); [|done].
  destruct H5 as (? & ? & ?). eauto using live_eq.
Qed.

Lemma housed_same s s' : same_stage s s' → housed s → housed s'.
Proof. intros (_ & _ & Hl & Hfl & Hc & Hp). apply housed_eq; congruence. Qed.

Lemma housed_update_run r f s :
  (∀ x, r_container (f x) = r_container x) → (∀ x, running (f x) = running x) →
  housed s → housed (update_run r f s).
Proof.
  intros Hcont Hrun [H1 H2 H3 H4 H5]. split; simpl; try assumption.
  - intros r' x' [(-> & y & Hy & ->)|[_ Hx]]%lookup_alter_Some; [rewrite Hrun|]; eauto.
  - intros r' x' [(-> & y & Hy & ->)|[_ Hx]]%lookup_alter_Some;
      [rewrite Hrun, Hcont|]; eauto.
  - intros c o Ho. specialize (H5 c o Ho).
    destruct (_flowingLightCleanup o); [|done].
    destruct H5 as (? & ? & ?). eauto using live_update_run.
Qed.

Lemma housed_resize_run r s : housed s → housed (resize_run r s).
Proof.
  intros H. unfold resize_run.
  destruct (runs (fl s) !! r) as [x|]; [|done].
  destruct (containers (doc s) !! r_container x); [|done].
  by apply housed_update_run.
Qed.

Lemma housed_cancel id s : housed s → housed (cancelAnimationFrame id s).
Proof. apply housed_eq; reflexivity. Qed.

Lemma housed_request_tick r s : housed s → housed (request_tick r s).
Proof.
  intros H. unfold request_tick. simpl.
  apply (housed_update_run r (set_rafId (next_frame (br s)))
           (with_br (set_frames (S (next_frame (br s)))
                       (<[next_frame (br s) := r]> (frames (br s)))) s)); [done..|].
  eapply housed_eq; [..|exact H]; reflexivity.
Qed.

Lemma housed_tick r s : housed s → housed (tick r s).
Proof.
  intros H. unfold tick.
  destruct (runs (fl s) !! r) as [x|]; [|done].
  destruct (running x); [|done].
  by apply housed_request_tick, housed_update_run.
Qed.

Lemma housed_fire_frame id s : housed s → housed (fire_frame id s).
Proof.
  intros H. unfold fire_frame.
  destruct (frames (br s) !! id); [|done].
  by apply housed_tick, housed_cancel.
Qed.

Lemma housed_debounced r s : housed s → housed (debounced r s).
Proof.
  intros H. unfold debounced.
  destruct (runs (fl s) !! r) as [x|]; [|done].
  destruct (running x); [apply housed_request_tick|];
    by apply housed_resize_run, housed_cancel.
Qed.

Lemma housed_onResize r s : housed s → housed (onResize r s).
Proof.
  intros H. unfold onResize.
  destruct (runs (fl s) !! r) as [x|]; [|done].
  apply housed_update_run; [done..|].
  eapply housed_eq; [..|exact H]; reflexivity.
Qed.

Lemma housed_update_container c f s :
  (∀ o, _flowingLightCleanup (f o) = _flowingLightCleanup o) →
  (∀ o, canvases (f o) = canvases o) →
  (∀ o, mousemove_listeners (f o) = mousemove_listeners o) →
  housed s → housed (update_container c f s).
Proof.
  intros Hh Hcv Hmm [H1 H2 H3 H4 H5]. split; simpl; try assumption.
  - intros c' Hc'. apply lookup_alter_is_Some. auto.
  - intros r x Hx Hrun. destruct (H4 r x Hx Hrun) as (o & Ho & Hr).
    destruct (decide (c = r_container x)) as [->|Hne].
    + exists (f o). rewrite lookup_alter_eq, Ho, Hh. done.
    + exists o. by rewrite lookup_alter_ne.
  - intros c' o' [(-> & o & Ho & ->)|[_ Ho]]%lookup_alter_Some.
    + rewrite Hh, Hcv, Hmm. apply (H5 _ _ Ho).
    + apply (H5 _ _ Ho).
Qed.

Lemma remove_listener_single (r : nat) : remove_listener r [r] = [].
Proof. unfold remove_listener. by rewrite filter_cons_False by auto. Qed.

(** [cleanup], called through the handle a container holds. *)
Lemma housed_cleanup c o r0 s :
  housed s → containers (doc s) !! c = Some o → _flowingLightCleanup o = Some r0 →
  housed (cleanup r0 s) ∧
  ∃ o', containers (doc (cleanup r0 s)) !! c = Some o' ∧ _flowingLightCleanup o' = None.
Proof.
  intros [H1 H2 H3 H4 H5] Ho Hr0.
  pose proof (H5 c o Ho) as Hco. rewrite Hr0 in Hco.
  destruct Hco as (Hcv & Hmm & x & Hx & Hxc & Hxr).
  unfold cleanup. rewrite Hx, Hxc. split.
  - split; simpl.
    + intros c' Hc'. rewrite !lookup_alter_is_Some. auto.
    + by apply NoDup_filter.
    + intros r x' [(-> & y & Hy & ->)|[Hne Hx']]%lookup_alter_Some Hrun; [done|].
      apply list_elem_of_filter. eauto.
    + intros r x' [(-> & y & Hy & ->)|[Hne Hx']]%lookup_alter_Some Hrun; [done|].
      destruct (H4 r x' Hx' Hrun) as (o' & Ho' & Hr').
      destruct (decide (r_container x' = c)) as [Heq|Hnc].
      * rewrite Heq in Ho'. congruence.
      * exists o'. by rewrite !lookup_alter_ne.
    + intros c' o'. destruct (decide (c' = c)) as [->|Hnc].
      * rewrite !lookup_alter_eq, Ho. simpl. intros [= <-]. simpl.
        by rewrite Hcv, Hmm, remove_listener_single.
      * rewrite !lookup_alter_ne by done. intros Ho'. specialize (H5 c' o' Ho').
        destruct (_flowingLightCleanup o') as [r|]; [|done].
        destruct H5 as (? & ? & y & Hy & Hyc & Hyr). repeat (split; [done|]).
        exists y. simpl. rewrite lookup_alter_ne; [done|]. intros <-. congruence.
  - simpl. rewrite !lookup_alter_eq, Ho. simpl. eauto.
Qed.

Lemma housed_stopFlowingLight s : housed s → housed (stopFlowingLight s).
Proof.
  intros H. unfold stopFlowingLight.
  destruct (container (doc s)) as [c|]; [|done].
  destruct (containers (doc s) !! c) as [o|] eqn:Ho; [|done].
  destruct (_flowingLightCleanup o) as [r|] eqn:Hr; [|done].
  by apply (housed_cleanup c o r s).
Qed.

Lemma NoDup_add_listener (r : nat) l : NoDup l → NoDup (add_listener r l).
Proof.
  intros H. unfold add_listener. case_decide; [done|].
  apply NoDup_app. split; [done|]. split; [|apply NoDup_singleton].
  intros x Hx ->%list_elem_of_singleton. done.
Qed.

Lemma elem_of_add_listener (r r' : nat) l :
  r' ∈ add_listener r l ↔ r' = r ∨ r' ∈ l.
Proof.
  unfold add_listener. case_decide.
  - split; [auto|]. by intros [->|?].
  - rewrite elem_of_app, list_elem_of_singleton. tauto.
Qed.

(** What [startAnimation] does once the container is free: a canvas, a
    new run, its first frame, its two listeners and its handle. *)
Lemma housed_install c o s :
  consistent s → housed s →
  containers (doc s) !! c = Some o → _flowingLightCleanup o = None →
  let r := next_run (fl s) in
  let s := update_container c (λ o, set_canvases (canvases o ++ [r]) o) s in
  let s := with_fl (λ g, set_runs (S r) (<[r := new_run c]> (runs g)) g) s in
  let s := resize_run r s in
  let s := request_tick r s in
  let s := with_br (λ b, set_resize_listeners (add_listener r (resize_listeners b)) b) s in
  let s := update_container c
             (λ o, set_mousemove_listeners (add_listener r (mousemove_listeners o)) o) s in
  housed (update_container c (set_cleanup (Some r)) s).
Proof.
  intros Hc [H1 H2 H3 H4 H5] Ho Hnone. cbv zeta.
  pose proof (H5 c o Ho) as Hco. rewrite Hnone in Hco. destruct Hco as [Hcv Hmm].
  unfold resize_run. simpl. rewrite lookup_insert_eq. simpl.
  rewrite lookup_alter_eq, Ho. simpl.
  set (r := next_run (fl s)).
  assert (∀ r' x', runs (fl s) !! r' = Some x' → r' ≠ r) as Hfresh.
  { intros r' x' Hx'. apply (co_runs _ Hc) in Hx'. unfold r. lia. }
  split; simpl.
  - intros c' Hc'. rewrite !lookup_alter_is_Some. auto.
  - by apply NoDup_add_listener.
  - intros r' x'. rewrite elem_of_add_listener.
    destruct (decide (r' = r)) as [->|Hne]; [auto|].
    rewrite !lookup_alter_ne, lookup_insert_ne by done. eauto.
  - intros r' x'. destruct (decide (r' = r)) as [->|Hne].
    + rewrite !lookup_alter_eq, lookup_insert_eq. simpl. intros [= <-] _. simpl.
      rewrite !lookup_alter_eq, Ho. simpl. eauto.
    + rewrite !lookup_alter_ne, lookup_insert_ne by done. intros Hx' Hrun.
      destruct (H4 r' x' Hx' Hrun) as (o' & Ho' & Hr').
      destruct (decide (r_container x' = c)) as [Heq|Hnc].
      * rewrite Heq in Ho'. congruence.
      * exists o'. by rewrite !lookup_alter_ne.
  - intros c' o'. destruct (decide (c' = c)) as [->|Hnc].
    + rewrite !lookup_alter_eq, Ho. simpl. intros [= <-]. simpl.
      rewrite Hcv, Hmm. split; [done|]. split; [done|].
      eexists. simpl. rewrite !lookup_alter_eq, lookup_insert_eq. simpl. eauto.
    + rewrite !lookup_alter_ne by done. intros Ho'. specialize (H5 c' o' Ho').
      destruct (_flowingLightCleanup o') as [r'|]; [|done].
      destruct H5 as (? & ? & y & Hy & Hyc & Hyr). repeat (split; [done|]).
      exists y. simpl. pose proof (Hfresh _ _ Hy).
      by rewrite !lookup_alter_ne, lookup_insert_ne.
Qed.

Lemma housed_startAnimation s : consistent s → housed s → housed (startAnimation s).
Proof.
  intros Hc H. unfold startAnimation.
  destruct (container (doc s)) as [c|] eqn:Hptr.
  - cbv zeta.
    set (s1 := with_fl (set_retryCount 0) s).
    set (s2 := match containers (doc s1) !! c with
               | Some o => match _flowingLightCleanup o with
                           | Some r0 => cleanup r0 s1
                           | None => s1
                           end
               | None => s1
               end).
    assert (consistent s1) as Hc1 by (eapply consistent_same; [|exact Hc]; untouched).
    assert (housed s1) as H1 by (eapply housed_eq; [..|exact H]; reflexivity).
    destruct (ho_container _ H c Hptr) as [o Ho].
    assert (consistent s2 ∧ housed s2 ∧
            ∃ o', containers (doc s2) !! c = Some o' ∧ _flowingLightCleanup o' = None)
      as (Hc2 & H2 & o' & Ho' & Hnone).
    { unfold s2. change (containers (doc s1)) with (containers (doc s)). rewrite Ho.
      destruct (_flowingLightCleanup o) as [r0|] eqn:Hr0.
      - split; [by apply consistent_cleanup|]. by apply (housed_cleanup c o r0 s1).
      - eauto. }
    clearbody s2. clear s1 Hc1 H1.
    apply (housed_install c o' s2 Hc2 H2 Ho' Hnone).
  - destruct (retryCount (fl s) <? MAX_RETRIES FLOWING_LIGHT_CONFIG); [|done].
    eapply housed_eq; [..|exact H]; reflexivity.
Qed.

Lemma housed_start_both s : consistent s → housed s → housed (start_both s).
Proof.
  intros Hc H. unfold start_both.
  eapply housed_same; [apply stage_startTypewriterAnimation|].
  by apply housed_startAnimation.
Qed.

Lemma housed_run_callback cb s : consistent s → housed s → housed (run_callback cb s).
Proof.
  intros Hc H. destruct cb; simpl;
    auto using housed_startAnimation, housed_debounced, housed_start_both.
  - eapply housed_same; [apply stage_typewriterTick|done].
  - eapply housed_same; [apply stage_startTypewriterAnimation|done].
  - eapply housed_same; [|exact H]. staged.
  - eapply housed_same; [|exact H]. staged.
Qed.

Lemma housed_fire_timer id s : consistent s → housed s → housed (fire_timer id s).
Proof.
  intros Hc H. unfold fire_timer.
  destruct (timers (br s) !! id) as [tm|]; [|done].
  apply housed_run_callback.
  - eapply consistent_same; [|exact Hc]. destruct (t_kind tm); untouched.
  - eapply housed_same; [|exact H]. destruct (t_kind tm); staged.
Qed.

Lemma housed_attach_container c s : housed s → housed (attach_container c s).
Proof.
  intros H. unfold attach_container.
  destruct c as [i|]; simpl.
  - destruct (containers (doc s) !! i) as [o|] eqn:Hi.
    + destruct H as [H1 H2 H3 H4 H5]. split; simpl; try assumption.
      intros c [= <-]. eauto.
    + destruct H as [H1 H2 H3 H4 H5]. split; simpl; try assumption.
      * intros c [= <-]. rewrite lookup_insert_eq. eauto.
      * intros r x Hx Hrun. destruct (H4 r x Hx Hrun) as (o & Ho & Hr).
        exists o. rewrite lookup_insert_ne; [done|].
        intros Heq. rewrite Heq in Hi. congruence.
      * intros c o [[<- <-]|[_ Ho]]%lookup_insert_Some; [done|].
        apply (H5 _ _ Ho).
  - destruct H as [H1 H2 H3 H4 H5]. split; simpl; try assumption. done.
Qed.

Lemma housed_handle e s : consistent s → housed s → housed (handle e s).
Proof.
  intros Hc H. destruct e; simpl.
  - by apply housed_fire_timer.
  - by apply housed_fire_frame.
  - generalize (resize_listeners (br s)). intros l. revert s Hc H.
    induction l as [|r l IH]; intros s Hc H; simpl; [done|].
    apply IH; [by apply consistent_onResize|by apply housed_onResize].
  - destruct (dcl_listener (br s)); [|done].
    apply housed_start_both.
    + eapply consistent_same; [|exact Hc]. untouched.
    + eapply housed_same; [|exact H]. staged.
  - unfold urlObserver, containerObserver.
    assert (consistent (if scan_mutations ms then start_both s else s) ∧
            housed (if scan_mutations ms then start_both s else s)) as [Hc' H']
      by (destruct (scan_mutations ms); auto using consistent_start_both, housed_start_both).
    destruct (String.eqb _ _); [done|].
    apply housed_start_both.
    + eapply consistent_same; [|exact Hc']. untouched.
    + eapply housed_same; [|exact H']. staged.
  - eapply housed_same; [apply stage_startTypewriterAnimation|done].
  - eapply housed_same; [apply stage_stopTypewriterAnimation|done].
  - by apply housed_startAnimation.
  - by apply housed_stopFlowingLight.
  - eapply housed_same; [|exact H]. staged.
  - by apply housed_attach_container.
  - by apply housed_update_container.
Qed.

Lemma housed_step s te : consistent s → housed s → housed (step s te).
Proof.
  intros Hc H. unfold step. apply housed_handle.
  - eapply consistent_same; [|exact Hc]. untouched.
  - eapply housed_same; [|exact H]. staged.
Qed.

Lemma housed_run_events tes : ∀ s, consistent s → housed s → housed (run_events s tes).
Proof.
  induction tes as [|te tes IH]; intros s Hc H; simpl; [done|].
  apply IH; [by apply consistent_step|by apply housed_step].
Qed.

Lemma housed_script_loaded rs hero cont href : housed (script_loaded rs hero cont href).
Proof.
  assert (consistent (initial_state hero cont href)) as Hc0.
  { pose proof (consistent_script_loaded Loading hero cont href) as Hc.
    eapply consistent_same; [|exact Hc]. untouched. }
  assert (housed (initial_state hero cont href)) as H0.
  { split; simpl.
    - intros c Hc. destruct cont as [[c' [w h]]|]; simplify_eq/=.
      rewrite lookup_singleton_eq. eauto.
    - apply NoDup_nil_2.
    - intros; simplify_map_eq.
    - intros; simplify_map_eq.
    - intros c o Ho. destruct cont as [[c' [w h]]|]; simplify_map_eq. done. }
  unfold script_loaded, boot.
  eapply housed_same; [eapply same_stage_trans; apply stage_schedule|].
  destruct rs.
  - eapply housed_same; [|exact H0]. staged.
  - by apply housed_start_both.
  - by apply housed_start_both.
Qed.

Lemma reachable_housed s : reachable s → housed s.
Proof.
  intros (rs & hero & cont & href & tes & ->).
  apply housed_run_events; [apply consistent_script_loaded|apply housed_script_loaded].
Qed.

(** ** What the invariants say about reachable states *)







(** ** Starting and stopping the particle field *)








(** ** The retry budget of [startAnimation] *)

Lemma retryCount_cleanup r s : retryCount (fl (cleanup r s)) = retryCount (fl s).
Proof. unfold cleanup. by destruct (runs (fl s) !! r). Qed.

Lemma retryCount_resize_run r s : retryCount (fl (resize_run r s)) = retryCount (fl s).
Proof. unfold resize_run. by repeat case_match. Qed.

Lemma retryCount_tick r s : retryCount (fl (tick r s)) = retryCount (fl s).
Proof. unfold tick. by repeat case_match. Qed.

Lemma retryCount_fire_frame id s : retryCount (fl (fire_frame id s)) = retryCount (fl s).
Proof. unfold fire_frame. case_match; [|done]. by rewrite retryCount_tick. Qed.

Lemma retryCount_debounced r s : retryCount (fl (debounced r s)) = retryCount (fl s).
Proof.
  unfold debounced. destruct (runs (fl s) !! r) as [x|]; [|done].
  destruct (running x); [unfold request_tick; simpl|]; by rewrite retryCount_resize_run.
Qed.

Lemma retryCount_onResize r s : retryCount (fl (onResize r s)) = retryCount (fl s).
Proof. unfold onResize. by case_match. Qed.

Lemma retryCount_startAnimation s :
  retryCount (fl (startAnimation s)) =
  match container (doc s) with
  | Some _ => 0
  | None => if retryCount (fl s) <? MAX_RETRIES FLOWING_LIGHT_CONFIG
            then retryCount (fl s) + 1 else retryCount (fl s)
  end.
Proof.
  unfold startAnimation. destruct (container (doc s)) as [c|].
  - cbv zeta. unfold request_tick. simpl. rewrite retryCount_resize_run. simpl.
    repeat case_match; by rewrite ?retryCount_cleanup.
  - by destruct (retryCount (fl s) <? MAX_RETRIES FLOWING_LIGHT_CONFIG).
Qed.

Lemma budget_startAnimation s : retry_in_budget s → retry_in_budget (startAnimation s).
Proof.
  unfold retry_in_budget. rewrite retryCount_startAnimation. simpl. intros H.
  destruct (container (doc s)); [lia|].
  destruct (Z.ltb_spec (retryCount (fl s)) 20); lia.
Qed.

Lemma budget_same s s' : same_stage s s' → retry_in_budget s → retry_in_budget s'.
Proof. intros (_ & _ & _ & Hfl & _). unfold retry_in_budget. by rewrite Hfl. Qed.

Lemma budget_start_both s : retry_in_budget s → retry_in_budget (start_both s).
Proof.
  intros H. eapply budget_same; [apply stage_startTypewriterAnimation|].
  by apply budget_startAnimation.
Qed.

Lemma budget_handle e s : retry_in_budget s → retry_in_budget (handle e s).
Proof.
  intros H. destruct e; simpl.
  - unfold fire_timer. destruct (timers (br s) !! id) as [tm|]; [|done].
    assert (retry_in_budget
              (match t_kind tm with
               | OneShot => clearTimer id s
               | Repeating =>
                 with_br (λ b, set_timers (next_timer b)
                    (<[id := Timer Repeating (t_delay tm) (now (br s) + t_delay tm)
                               (t_cb tm)]> (timers b)) b) s
               end)) as H' by (by destruct (t_kind tm)).
    revert H'. generalize (match t_kind tm with
               | OneShot => clearTimer id s
               | Repeating =>
                 with_br (λ b, set_timers (next_timer b)
                    (<[id := Timer Repeating (t_delay tm) (now (br s) + t_delay tm)
                               (t_cb tm)]> (timers b)) b) s
               end). intros t Ht.
    destruct (t_cb tm); simpl; auto using budget_startAnimation, budget_start_both.
    + eapply budget_same; [apply stage_typewriterTick|done].
    + eapply budget_same; [apply stage_startTypewriterAnimation|done].
    + unfold retry_in_budget. by rewrite retryCount_debounced.
  - unfold retry_in_budget. by rewrite retryCount_fire_frame.
  - generalize (resize_listeners (br s)). intros l. revert s H.
    induction l as [|r l IH]; intros s H; simpl; [done|].
    apply IH. unfold retry_in_budget. by rewrite retryCount_onResize.
  - destruct (dcl_listener (br s)); [|done]. by apply budget_start_both.
  - unfold urlObserver, containerObserver.
    assert (retry_in_budget (if scan_mutations ms then start_both s else s)) as H'
      by (destruct (scan_mutations ms); auto using budget_start_both).
    destruct (String.eqb _ _); [done|]. by apply budget_start_both.
  - eapply budget_same; [apply stage_startTypewriterAnimation|done].
  - eapply budget_same; [apply stage_stopTypewriterAnimation|done].
  - by apply budget_startAnimation.
  - unfold stopFlowingLight, retry_in_budget.
    repeat case_match; by rewrite ?retryCount_cleanup.
  - done.
  - unfold attach_container. by repeat case_match.
  - done.
Qed.

Lemma budget_run_events tes : ∀ s, retry_in_budget s → retry_in_budget (run_events s tes).
Proof.
  induction tes as [|te tes IH]; intros s H; simpl; [done|].
  apply IH. unfold step. by apply budget_handle.
Qed.

Lemma budget_script_loaded rs hero cont href :
  retry_in_budget (script_loaded rs hero cont href).
Proof.
  assert (retry_in_budget (initial_state hero cont href)) as H0 by done.
  unfold script_loaded, boot.
  eapply budget_same; [eapply same_stage_trans; apply stage_schedule|].
  destruct rs; [done|by apply budget_start_both..].
Qed.

(** X14.  In every reachable state [retryCount] lies between 0 and
    MAX_RETRIES; a start with the container present resets it to 0, and
    a start without container when the budget is spent does nothing. *)
Theorem retry_count_stays_within_budget (s : state) :
  reachable s →
  0 ≤ retryCount (fl s) ≤ MAX_RETRIES FLOWING_LIGHT_CONFIG ∧
  (is_Some (container (doc s)) → retryCount (fl (startAnimation s)) = 0) ∧
  (container (doc s) = None → retryCount (fl s) = MAX_RETRIES FLOWING_LIGHT_CONFIG →
   startAnimation s = s).
Proof.
  intros (rs & hero & cont & href & tes & ->).
  split; [apply budget_run_events, budget_script_loaded|]. split.
  - intros [c Hc]. by rewrite retryCount_startAnimation, Hc.
  - intros Hc Hmax. unfold startAnimation. rewrite Hc, Hmax. reflexivity.
Qed.

Lemma retry_count_stays_within_budget_witness :
  let s := run_events other_page
             [(50, TimerFires 1%nat); (100, TimerFires 2%nat); (150, TimerFires 5%nat)] in
  retryCount (fl s) = 3 ∧ 0 ≤ retryCount (fl s) ≤ 20.
Proof.
  intros s. split; [vm_compute; reflexivity|].
  refine (proj1 (retry_count_stays_within_budget s _)).
  exists Complete, None, None, home,
    [(50, TimerFires 1%nat); (100, TimerFires 2%nat); (150, TimerFires 5%nat)].
  reflexivity.
Defined.

(** ** One cycle of the typewriter *)

Lemma substring_snoc u : ∀ k c,
  String.get k u = Some c →
  substring 0 k u +:+ String c EmptyString = substring 0 (S k) u.
Proof.
  induction u as [|a u IH]; intros k c Hget; [by destruct k|].
  destruct k as [|k]; simpl in *.
  - injection Hget as ->. by destruct u.
  - change (String a (substring 0 k u +:+ String c EmptyString) =
            String a (substring 0 (S k) u)).
    f_equal. by apply IH.
Qed.

Lemma substring_length u : ∀ k, (k ≤ String.length u)%nat →
  String.length (substring 0 k u) = k.
Proof.
  induction u as [|a u IH]; intros k Hk; destruct k as [|k]; simpl in *; try done; try lia.
  f_equal. apply IH. lia.
Qed.

Lemma substring_substring u : ∀ j k, (j ≤ k)%nat →
  substring 0 j (substring 0 k u) = substring 0 j u.
Proof.
  induction u as [|a u IH]; intros j k Hjk; destruct j as [|j], k as [|k];
    simpl; try done; try lia.
  f_equal. apply IH. lia.
Qed.

Lemma substring_all u : substring 0 (String.length u) u = u.
Proof. induction u as [|a u IH]; simpl; [done|]. by f_equal. Qed.

Lemma append_char_at_substring u k :
  (k < String.length u)%nat →
  append_char_at (substring 0 k u) u k = substring 0 (S k) u.
Proof.
  intros Hk. unfold append_char_at.
  destruct (get_in_range u k Hk) as [c Hc]. rewrite Hc. by apply substring_snoc.
Qed.

Lemma slice_drop_last_substring u k :
  (k ≤ String.length u)%nat →
  slice_drop_last (substring 0 k u) = substring 0 (k - 1) u.
Proof.
  intros Hk. unfold slice_drop_last.
  rewrite substring_length by done. apply substring_substring. lia.
Qed.

Lemma run_events_app s l1 l2 :
  run_events s (l1 ++ l2) = run_events (run_events s l1) l2.
Proof. apply foldl_app. Qed.

Lemma ticks_S i t p n :
  ticks i t p (S n) = (t, TimerFires i) :: ticks i (t + p) p n.
Proof.
  unfold ticks. simpl. f_equal; [f_equal; lia|].
  rewrite <- fmap_S_seq, <- list_fmap_compose. apply list_fmap_ext.
  intros k j _. simpl. f_equal. lia.
Qed.

Lemma ticks_snoc i t p n :
  ticks i t p (S n) = ticks i t p n ++ [(t + p * Z.of_nat n, TimerFires i)].
Proof. unfold ticks. by rewrite seq_S, fmap_app. Qed.

(** An interval of the typewriter fires: it stays scheduled and
    [typewriterTick] runs. *)
Lemma interval_fires s i tm t :
  timers (br s) !! i = Some tm → t_kind tm = Repeating → t_cb tm = CbTypewriterTick →
  step s (t, TimerFires i) =
  typewriterTick
    (with_br (λ b, set_timers (next_timer b)
                     (<[i := Timer Repeating (t_delay tm) (t + t_delay tm)
                               CbTypewriterTick]> (timers b)) b)
       (with_br (set_now t) s)).
Proof.
  intros Hi Hk Hcb. unfold step, handle, fire_timer. simpl.
  by rewrite Hi, Hk, Hcb.
Qed.

(** A timeout fires: it leaves the pool and its callback runs. *)
Lemma timeout_fires s i tm t :
  timers (br s) !! i = Some tm → t_kind tm = OneShot →
  step s (t, TimerFires i) =
  run_callback (t_cb tm) (clearTimer i (with_br (set_now t) s)).
Proof.
  intros Hi Hk. unfold step, handle, fire_timer. simpl.
  by rewrite Hi, Hk.
Qed.

Lemma typing_tick_fires s i e del k next t :
  at_work i e true del (substring 0 k (text TYPEWRITER_CONFIG)) k next s →
  (k < String.length (text TYPEWRITER_CONFIG))%nat →
  let s' := step s (t, TimerFires i) in
  at_work i e true del (substring 0 (S k) (text TYPEWRITER_CONFIG)) (S k) next s' ∧
  textContent (doc s') !! e = Some (substring 0 (S k) (text TYPEWRITER_CONFIG)).
Proof.
  intros [Htw (tm & Hi & Hk & Hcb) Hn] Hlt s'.
  unfold s'. rewrite (interval_fires s i tm t Hi Hk Hcb).
  destruct s as [b d w f u]. cbn [tw br] in Htw, Hi, Hn. subst w.
  apply Nat.ltb_lt in Hlt as Hltb.
  unfold typewriterTick, write_textContent.
  cbn -[append_char_at substring String.length text Nat.ltb].
  rewrite Hltb.
  cbn -[append_char_at substring String.length text Nat.ltb].
  rewrite (append_char_at_substring _ k Hlt).
  split; [split|].
  - reflexivity.
  - eexists. cbn. rewrite lookup_insert_eq. eauto.
  - exact Hn.
  - apply lookup_insert_eq.
Qed.

Lemma typing_phase n : ∀ s i e del k next t p,
  at_work i e true del (substring 0 k (text TYPEWRITER_CONFIG)) k next s →
  (k + n ≤ String.length (text TYPEWRITER_CONFIG))%nat →
  let s' := run_events s (ticks i t p n) in
  at_work i e true del (substring 0 (k + n) (text TYPEWRITER_CONFIG)) (k + n) next s' ∧
  ((0 < n)%nat →
   textContent (doc s') !! e = Some (substring 0 (k + n) (text TYPEWRITER_CONFIG))).
Proof.
  induction n as [|n IH]; intros s i e del k next t p Hw Hle.
  - simpl. rewrite Nat.add_0_r. split; [done|lia].
  - rewrite ticks_snoc, run_events_app.
    destruct (IH s i e del k next t p Hw ltac:(lia)) as [Hw' _].
    destruct (typing_tick_fires _ i e del (k + n) next (t + p * Z.of_nat n) Hw'
                ltac:(lia)) as [Hw'' Htxt].
    cbv zeta. simpl (run_events _ [_]). rewrite Nat.add_succ_r. by split.
Qed.

Lemma typing_done_fires s i e del txt k next t :
  at_work i e true del txt k next s →
  ¬ (k < String.length (text TYPEWRITER_CONFIG))%nat →
  let s' := step s (t, TimerFires i) in
  tw s' = Typewriter None (Some e) false del txt k ∧
  timers (br s') !! next = Some (Timer OneShot 5000 (t + 5000) CbAfterType) ∧
  next_timer (br s') = S next ∧
  textContent (doc s') = textContent (doc s).
Proof.
  intros [Htw (tm & Hi & Hk & Hcb) Hn] Hlt s'.
  unfold s'. rewrite (interval_fires s i tm t Hi Hk Hcb).
  destruct s as [b d w f u]. cbn [tw br] in Htw, Hi, Hn. subst w.
  apply Nat.ltb_nlt in Hlt as Hltb.
  unfold typewriterTick, clear_typewriterInterval.
  cbn -[String.length text Nat.ltb].
  rewrite Hltb. cbn. rewrite Hn.
  repeat split. apply lookup_insert_eq.
Qed.

Lemma hold_ends s e del txt k id tm t :
  tw s = Typewriter None (Some e) false del txt k →
  timers (br s) !! id = Some tm → t_kind tm = OneShot → t_cb tm = CbAfterType →
  let s' := step s (t, TimerFires id) in
  at_work (next_timer (br s)) e false true txt k (S (next_timer (br s))) s' ∧
  timers (br s') !! next_timer (br s) = Some (Timer Repeating 50 (t + 50) CbTypewriterTick) ∧
  textContent (doc s') = textContent (doc s).
Proof.
  intros Htw Hi Hk Hcb s'.
  unfold s'. rewrite (timeout_fires s id tm t Hi Hk), Hcb.
  destruct s as [b d w f u]. cbn [tw br] in Htw, Hi. subst w. cbn.
  split; [split|]; cbn.
  - reflexivity.
  - eexists. rewrite lookup_insert_eq. eauto.
  - reflexivity.
  - split; [apply lookup_insert_eq|reflexivity].
Qed.

Lemma deleting_tick_fires s i e txt k next t :
  at_work i e false true txt k next s →
  (0 < String.length txt)%nat →
  let s' := step s (t, TimerFires i) in
  at_work i e false true (slice_drop_last txt) k next s' ∧
  textContent (doc s') !! e = Some (slice_drop_last txt).
Proof.
  intros [Htw (tm & Hi & Hk & Hcb) Hn] Hlt s'.
  unfold s'. rewrite (interval_fires s i tm t Hi Hk Hcb).
  destruct s as [b d w f u]. cbn [tw br] in Htw, Hi, Hn. subst w.
  apply Nat.ltb_lt in Hlt as Hltb.
  unfold typewriterTick, write_textContent.
  cbn -[slice_drop_last String.length Nat.ltb].
  rewrite Hltb.
  cbn -[slice_drop_last String.length Nat.ltb].
  split; [split|].
  - reflexivity.
  - eexists. cbn. rewrite lookup_insert_eq. eauto.
  - exact Hn.
  - apply lookup_insert_eq.
Qed.

Lemma deleting_phase u n : ∀ s i e k m next t p,
  at_work i e false true (substring 0 m u) k next s →
  (n ≤ m ≤ String.length u)%nat →
  let s' := run_events s (ticks i t p n) in
  at_work i e false true (substring 0 (m - n) u) k next s' ∧
  ((0 < n)%nat → textContent (doc s') !! e = Some (substring 0 (m - n) u)).
Proof.
  induction n as [|n IH]; intros s i e k m next t p Hw Hle.
  - simpl. rewrite Nat.sub_0_r. split; [done|lia].
  - rewrite ticks_snoc, run_events_app.
    destruct (IH s i e k m next t p Hw ltac:(lia)) as [Hw' _].
    destruct (deleting_tick_fires _ i e _ k next (t + p * Z.of_nat n) Hw')
      as [Hw'' Htxt].
    { rewrite substring_length; lia. }
    rewrite slice_drop_last_substring in Hw'', Htxt by lia.
    cbv zeta. simpl (run_events _ [_]).
    replace (m - S n)%nat with (m - n - 1)%nat by lia. by split.
Qed.

Lemma deleting_done_fires s i e k next t :
  at_work i e false true EmptyString k next s →
  let s' := step s (t, TimerFires i) in
  tw s' = Typewriter None (Some e) false false EmptyString k ∧
  timers (br s') !! next = Some (Timer OneShot 500 (t + 500) CbAfterDelete) ∧
  next_timer (br s') = S next ∧
  textContent (doc s') = textContent (doc s).
Proof.
  intros [Htw (tm & Hi & Hk & Hcb) Hn] s'.
  unfold s'. rewrite (interval_fires s i tm t Hi Hk Hcb).
  destruct s as [b d w f u]. cbn [tw br] in Htw, Hi, Hn. subst w.
  unfold typewriterTick, clear_typewriterInterval. cbn. rewrite Hn.
  repeat split. apply lookup_insert_eq.
Qed.

Lemma pause_ends s e del txt k id tm t :
  tw s = Typewriter None (Some e) false del txt k →
  timers (br s) !! id = Some tm → t_kind tm = OneShot → t_cb tm = CbAfterDelete →
  let s' := step s (t, TimerFires id) in
  at_work (next_timer (br s)) e true del txt 0 (S (next_timer (br s))) s' ∧
  timers (br s') !! next_timer (br s) =
    Some (Timer Repeating 150 (t + 150) CbTypewriterTick) ∧
  textContent (doc s') = textContent (doc s).
Proof.
  intros Htw Hi Hk Hcb s'.
  unfold s'. rewrite (timeout_fires s id tm t Hi Hk), Hcb.
  destruct s as [b d w f u]. cbn [tw br] in Htw, Hi. subst w. cbn.
  split; [split|]; cbn.
  - reflexivity.
  - eexists. rewrite lookup_insert_eq. eauto.
  - reflexivity.
  - split; [apply lookup_insert_eq|reflexivity].
Qed.

Lemma start_begins s e t :
  hero_title (doc s) = Some e → typewriterInterval (tw s) = None →
  let s' := step s (t, CallStartTypewriter) in
  at_work (next_timer (br s)) e true false EmptyString 0 (S (next_timer (br s))) s' ∧
  timers (br s') !! next_timer (br s) =
    Some (Timer Repeating 150 (t + 150) CbTypewriterTick) ∧
  textContent (doc s') = textContent (doc s).
Proof.
  intros Hh Hi s'. unfold s', step, handle, startTypewriterAnimation.
  cbn. rewrite Hh, Hi. cbn.
  split; [split|]; cbn.
  - reflexivity.
  - eexists. rewrite lookup_insert_eq. eauto.
  - reflexivity.
  - split; [apply lookup_insert_eq|reflexivity].
Qed.

(** X15.  From any state with the title element present and no
    interval held, a start at [t0] followed by the timers firing when
    due types the title one character per 150 ms tick, holds it from
    [t0 + 1500] for 5000 ms, deletes it one character per 50 ms tick,
    pauses from [t0 + 7000] for 500 ms, and at [t0 + 7500] is back where
    the start left it, four timer handles on: empty text, position 0,
    typing, the next tick due 150 ms later. *)
Theorem typewriter_completes_a_cycle (s : state) (e : nat) (t0 : Z) :
  hero_title (doc s) = Some e → typewriterInterval (tw s) = None →
  let i := next_timer (br s) in
  let target := text TYPEWRITER_CONFIG in
  let started := step s (t0, CallStartTypewriter) in
  let hold := [(t0 + 6500, TimerFires (S i))] in
  (tw started = Typewriter (Some i) (Some e) true false EmptyString 0 ∧
   timers (br started) !! i = Some (Timer Repeating 150 (t0 + 150) CbTypewriterTick)) ∧
  (∀ n, (1 ≤ n ≤ 9)%nat →
     textContent (doc (run_events started (typing_ticks i t0 n))) !! e =
       Some (substring 0 n target)) ∧
  (let held := run_events started (typing_ticks i t0 10) in
   typewriterInterval (tw held) = None ∧
   textContent (doc held) !! e = Some target ∧
   timers (br held) !! S i = Some (Timer OneShot 5000 (t0 + 6500) CbAfterType)) ∧
  (∀ n, (1 ≤ n ≤ 9)%nat →
     textContent (doc (run_events started
                         (typing_ticks i t0 10 ++ hold ++ deleting_ticks i t0 n))) !! e =
       Some (substring 0 (9 - n) target)) ∧
  (let paused := run_events started
                   (typing_ticks i t0 10 ++ hold ++ deleting_ticks i t0 10) in
   typewriterInterval (tw paused) = None ∧
   textContent (doc paused) !! e = Some EmptyString ∧
   timers (br paused) !! S (S (S i)) =
     Some (Timer OneShot 500 (t0 + 7500) CbAfterDelete)) ∧
  (let again := run_events started (one_cycle i t0) in
   tw again = Typewriter (Some (S (S (S (S i))))) (Some e) true false EmptyString 0 ∧
   timers (br again) !! S (S (S (S i))) =
     Some (Timer Repeating 150 (t0 + 7650) CbTypewriterTick) ∧
   textContent (doc again) !! e = Some EmptyString).
Proof.
  intros Hh Hi i target started hold.
  destruct (start_begins s e t0 Hh Hi) as (W0 & T0 & _).
  fold started i in W0, T0.
  (* typing *)
  assert (∀ n, (n ≤ 9)%nat →
            let s' := run_events started (typing_ticks i t0 n) in
            at_work i e true false (substring 0 n target) n (S i) s' ∧
            ((0 < n)%nat → textContent (doc s') !! e = Some (substring 0 n target)))
    as Htyping.
  { intros n Hn. apply (typing_phase n started i e false 0 (S i) (t0 + 150) 150 W0).
    simpl. lia. }
  (* the tenth tick ends the typing *)
  set (typed := run_events started (typing_ticks i t0 9)).
  destruct (Htyping 9%nat ltac:(lia)) as [W9 C9]. fold typed in W9, C9.
  set (held := run_events started (typing_ticks i t0 10)).
  assert (held = step typed (t0 + 150 + 150 * 9, TimerFires i)) as Hheld
    by (unfold held, typing_ticks; by rewrite ticks_snoc, run_events_app).
  destruct (typing_done_fires typed i e false _ 9 (S i) (t0 + 150 + 150 * 9) W9)
    as (Wh & Th & Nh & Ch); [simpl; lia|].
  rewrite <- Hheld in Wh, Th, Nh, Ch.
  replace (t0 + 150 + 150 * 9 + 5000) with (t0 + 6500) in Th by lia.
  (* the hold ends *)
  set (erasing := run_events started (typing_ticks i t0 10 ++ hold)).
  assert (erasing = step held (t0 + 6500, TimerFires (S i))) as Herasing
    by (unfold erasing, hold; by rewrite run_events_app).
  destruct (hold_ends held e false _ 9 (S i) _ (t0 + 6500) Wh Th eq_refl eq_refl)
    as (We & _ & Ce).
  rewrite <- Herasing in We, Ce. rewrite Nh in We.
  (* deleting *)
  assert (∀ n, (n ≤ 9)%nat →
            let s' := run_events started
                        (typing_ticks i t0 10 ++ hold ++ deleting_ticks i t0 n) in
            at_work (S (S i)) e false true (substring 0 (9 - n) target) 9
              (S (S (S i))) s' ∧
            ((0 < n)%nat → textContent (doc s') !! e = Some (substring 0 (9 - n) target)))
    as Hdeleting.
  { intros n Hn. rewrite app_assoc, run_events_app. fold erasing.
    apply (deleting_phase target n erasing (S (S i)) e 9 9 (S (S (S i))) (t0 + 6550) 50 We).
    simpl. lia. }
  set (erased := run_events started
                   (typing_ticks i t0 10 ++ hold ++ deleting_ticks i t0 9)).
  destruct (Hdeleting 9%nat ltac:(lia)) as [Wd Cd]. fold erased in Wd, Cd.
  set (paused := run_events started
                   (typing_ticks i t0 10 ++ hold ++ deleting_ticks i t0 10)).
  assert (paused = step erased (t0 + 6550 + 50 * 9, TimerFires (S (S i)))) as Hpaused.
  { unfold paused, erased, deleting_ticks.
    by rewrite ticks_snoc, !app_assoc, run_events_app. }
  destruct (deleting_done_fires erased (S (S i)) e 9 (S (S (S i)))
              (t0 + 6550 + 50 * 9) Wd) as (Wp & Tp & Np & Cp).
  rewrite <- Hpaused in Wp, Tp, Np, Cp.
  replace (t0 + 6550 + 50 * 9 + 500) with (t0 + 7500) in Tp by lia.
  (* the pause ends *)
  set (again := run_events started (one_cycle i t0)).
  assert (again = step paused (t0 + 7500, TimerFires (S (S (S i))))) as Hagain.
  { unfold again, paused, one_cycle, hold. by rewrite !app_assoc, run_events_app. }
  destruct (pause_ends paused e false _ 9 (S (S (S i))) _ (t0 + 7500) Wp Tp eq_refl eq_refl)
    as (Wa & Ta & Ca).
  rewrite <- Hagain in Wa, Ta, Ca. rewrite Np in Wa, Ta.
  replace (t0 + 7500 + 150) with (t0 + 7650) in Ta by lia.
  (* putting it together *)
  split; [split; [apply (aw_tw _ _ _ _ _ _ _ _ W0)|exact T0]|].
  split; [intros n Hn; apply (Htyping n); lia|].
  split; [cbv zeta; rewrite Wh, Ch; split; [done|]; split; [apply C9; lia|done]|].
  split; [intros n Hn; apply (Hdeleting n); lia|].
  split; [cbv zeta; rewrite Wp, Cp; split; [done|]; split; [apply Cd; lia|done]|].
  cbv zeta. split; [apply (aw_tw _ _ _ _ _ _ _ _ Wa)|]. split; [exact Ta|].
  rewrite Ca, Cp. apply Cd. lia.
Qed.

Lemma typewriter_completes_a_cycle_witness :
  let s := initial_state (Some 7%nat) None home in
  let again := run_events (step s (0, CallStartTypewriter)) (one_cycle 1 0) in
  tw again = Typewriter (Some 5%nat) (Some 7%nat) true false EmptyString 0 ∧
  timers (br again) !! 5%nat = Some (Timer Repeating 150 7650 CbTypewriterTick).
Proof.
  intros s again.
  destruct (typewriter_completes_a_cycle s 7%nat 0 eq_refl eq_refl)
    as (_ & _ & _ & _ & _ & H1 & H2 & _).
  split; [exact H1|exact H2].
Defined.

(** ** Stopping and starting the typewriter *)

Lemma state_ext (s s' : state) :
  br s = br s' → doc s = doc s' → tw s = tw s' → fl s = fl s' → lastUrl s = lastUrl s' →
  s = s'.
Proof. destruct s, s'. simpl. by intros -> -> -> -> ->. Qed.

(** X16.  With the title element present, [stopTypewriterAnimation]
    followed by [startTypewriterAnimation] leaves the machine typing
    from the empty string on a fresh interval, the interval held before
    cleared, whatever state it was in; stopping twice is stopping once,
    and a further start changes nothing. *)
Theorem stop_then_start_types_from_scratch (s : state) (e : nat) :
  hero_title (doc s) = Some e →
  let stopped := stopTypewriterAnimation s in
  let started := startTypewriterAnimation stopped in
  stopTypewriterAnimation stopped = stopped ∧
  tw started =
    Typewriter (Some (next_timer (br s))) (Some e) true false EmptyString 0 ∧
  timers (br started) =
    <[next_timer (br s) :=
        Timer Repeating 150 (now (br s) + 150) CbTypewriterTick]>
      (match typewriterInterval (tw s) with
       | Some id => delete id (timers (br s))
       | None => timers (br s)
       end) ∧
  startTypewriterAnimation started = started.
Proof.
  intros Hh stopped started.
  assert (hero_title (doc stopped) = Some e ∧ typewriterInterval (tw stopped) = None ∧
          next_timer (br stopped) = next_timer (br s) ∧ now (br stopped) = now (br s) ∧
          timers (br stopped) = match typewriterInterval (tw s) with
                                | Some id => delete id (timers (br s))
                                | None => timers (br s)
                                end) as (Hh1 & Hi1 & Hn1 & Hnow1 & Ht1).
  { unfold stopped, stopTypewriterAnimation, write_textContent.
    destruct (typewriterInterval (tw s)) as [id|] eqn:Hi; simpl;
      destruct (typewriterElement (tw s)); simpl; done. }
  split; [|split; [|split]].
  - unfold stopTypewriterAnimation at 1. rewrite Hi1.
    unfold stopped, stopTypewriterAnimation, write_textContent.
    destruct (typewriterInterval (tw s)) as [id|]; simpl;
      destruct (typewriterElement (tw s)) as [e'|] eqn:He; simpl; rewrite ?He; simpl;
      try reflexivity; apply state_ext; simpl; rewrite ?insert_insert_eq; reflexivity.
  - unfold started, startTypewriterAnimation. simpl. rewrite Hh1, Hi1. simpl.
    by rewrite Hn1.
  - unfold started, startTypewriterAnimation. simpl. rewrite Hh1, Hi1. simpl.
    by rewrite Hn1, Hnow1, Ht1.
  - assert (hero_title (doc started) = Some e ∧ typewriterElement (tw started) = Some e ∧
            typewriterInterval (tw started) = Some (next_timer (br s))) as (Hh2 & He2 & Hi2).
    { unfold started, startTypewriterAnimation. simpl. rewrite Hh1, Hi1. simpl.
      by rewrite Hn1. }
    by apply (start_while_interval_held started e (next_timer (br s))).
Qed.

Lemma stop_then_start_types_from_scratch_witness :
  let s := run_events home_page first_half_second in
  let started := startTypewriterAnimation (stopTypewriterAnimation s) in
  currentText (tw s) = "HIF"%string ∧
  tw started = Typewriter (Some 4%nat) (Some 7%nat) true false EmptyString 0.
Proof.
  intros s started. split; [vm_compute; reflexivity|].
  exact (proj1 (proj2 (stop_then_start_types_from_scratch s 7%nat eq_refl))).
Defined.

(** X17.  With the title element present, a second
    [startTypewriterAnimation] right after the first changes nothing,
    and a start while an interval is held only refreshes
    [typewriterElement]. *)
Theorem start_twice_is_start_once (s : state) (e : nat) :
  hero_title (doc s) = Some e →
  startTypewriterAnimation (startTypewriterAnimation s) = startTypewriterAnimation s ∧
  (∀ id, typewriterInterval (tw s) = Some id →
         startTypewriterAnimation s = with_tw (set_typewriterElement (Some e)) s).
Proof.
  intros Hh.
  assert (∀ id, typewriterInterval (tw s) = Some id →
            startTypewriterAnimation s = with_tw (set_typewriterElement (Some e)) s)
    as Hheld.
  { intros id Hi. unfold startTypewriterAnimation. simpl. by rewrite Hh, Hi. }
  split; [|exact Hheld].
  assert (hero_title (doc (startTypewriterAnimation s)) = Some e ∧
          typewriterElement (tw (startTypewriterAnimation s)) = Some e ∧
          is_Some (typewriterInterval (tw (startTypewriterAnimation s))))
    as (Hh1 & He1 & [id Hi1]).
  { unfold startTypewriterAnimation. simpl. rewrite Hh.
    destruct (typewriterInterval (tw s)) as [id|] eqn:Hi; simpl; rewrite ?Hi; eauto. }
  by apply (start_while_interval_held _ e id).
Qed.

Lemma start_twice_is_start_once_witness :
  let s := initial_state (Some 7%nat) None home in
  startTypewriterAnimation (startTypewriterAnimation s) = startTypewriterAnimation s.
Proof.
  intros s. exact (proj1 (start_twice_is_start_once s 7%nat eq_refl)).
Defined.

(** ** The typing position *)

Lemma tw_cleanup r s : tw (cleanup r s) = tw s.
Proof. unfold cleanup. by destruct (runs (fl s) !! r). Qed.

Lemma tw_resize_run r s : tw (resize_run r s) = tw s.
Proof. unfold resize_run. by repeat case_match. Qed.

Lemma tw_tick r s : tw (tick r s) = tw s.
Proof. unfold tick. by repeat case_match. Qed.

Lemma tw_fire_frame id s : tw (fire_frame id s) = tw s.
Proof. unfold fire_frame. case_match; [|done]. by rewrite tw_tick. Qed.

Lemma tw_debounced r s : tw (debounced r s) = tw s.
Proof.
  unfold debounced. destruct (runs (fl s) !! r) as [x|]; [|done].
  destruct (running x); [unfold request_tick; simpl|]; by rewrite tw_resize_run.
Qed.

Lemma tw_onResize r s : tw (onResize r s) = tw s.
Proof. unfold onResize. by case_match. Qed.

Lemma tw_startAnimation s : tw (startAnimation s) = tw s.
Proof.
  unfold startAnimation. destruct (container (doc s)) as [c|].
  - cbv zeta. unfold request_tick. simpl. rewrite tw_resize_run. simpl.
    repeat case_match; by rewrite ?tw_cleanup.
  - by destruct (retryCount (fl s) <? MAX_RETRIES FLOWING_LIGHT_CONFIG).
Qed.

Lemma index_eq s s' : tw s' = tw s → index_in_range s → index_in_range s'.
Proof. unfold index_in_range. by intros ->. Qed.

Lemma index_startTypewriterAnimation s :
  index_in_range s → index_in_range (startTypewriterAnimation s).
Proof.
  unfold index_in_range, startTypewriterAnimation. intros H. simpl.
  destruct (hero_title (doc s)); [destruct (typewriterInterval (tw s))|]; simpl;
    first [exact H | lia].
Qed.

Lemma index_typewriterTick s : index_in_range s → index_in_range (typewriterTick s).
Proof.
  unfold index_in_range. intros H.
  destruct (isTyping (tw s)) eqn:Hty.
  - destruct (Nat.ltb_spec (currentIndex (tw s)) (String.length (text TYPEWRITER_CONFIG)))
      as [Hlt|Hge].
    + destruct (typing_appends_next_character s Hty Hlt) as (_ & -> & _). lia.
    + unfold typewriterTick, clear_typewriterInterval. rewrite Hty.
      apply Nat.ltb_ge in Hge. rewrite Hge. simpl.
      destruct (typewriterInterval (tw s)); exact H.
  - destruct (isDeleting (tw s)) eqn:Hdel.
    + destruct (Nat.ltb_spec 0 (String.length (currentText (tw s)))) as [Hlt|Hge].
      * by destruct (deleting_removes_last_character s Hty Hdel Hlt) as (_ & -> & _).
      * unfold typewriterTick, clear_typewriterInterval. rewrite Hty, Hdel.
        apply Nat.ltb_ge in Hge. rewrite Hge. simpl.
        destruct (typewriterInterval (tw s)); exact H.
    + unfold typewriterTick. by rewrite Hty, Hdel.
Qed.

Lemma index_stopTypewriterAnimation s :
  index_in_range s → index_in_range (stopTypewriterAnimation s).
Proof.
  unfold index_in_range, stopTypewriterAnimation, write_textContent. intros H.
  destruct (typewriterInterval (tw s)); cbn -[String.length text];
    destruct (typewriterElement (tw s)); exact H.
Qed.

Lemma index_start_both s : index_in_range s → index_in_range (start_both s).
Proof.
  intros H. apply index_startTypewriterAnimation.
  eapply index_eq; [apply tw_startAnimation|done].
Qed.

Lemma index_run_callback cb s : index_in_range s → index_in_range (run_callback cb s).
Proof.
  intros H. destruct cb; simpl.
  - by apply index_typewriterTick.
  - by apply index_startTypewriterAnimation.
  - exact H.
  - unfold index_in_range. simpl. lia.
  - eapply index_eq; [apply tw_startAnimation|done].
  - eapply index_eq; [apply tw_debounced|done].
  - by apply index_start_both.
Qed.

Lemma index_handle e s : index_in_range s → index_in_range (handle e s).
Proof.
  intros H. destruct e; simpl.
  - unfold fire_timer. destruct (timers (br s) !! id) as [tm|]; [|done].
    apply index_run_callback. by destruct (t_kind tm).
  - eapply index_eq; [apply tw_fire_frame|done].
  - generalize (resize_listeners (br s)). intros l. revert s H.
    induction l as [|r l IH]; intros s H; simpl; [done|].
    apply IH. eapply index_eq; [apply tw_onResize|done].
  - destruct (dcl_listener (br s)); [|done]. by apply index_start_both.
  - unfold urlObserver, containerObserver.
    assert (index_in_range (if scan_mutations ms then start_both s else s)) as H'
      by (destruct (scan_mutations ms); auto using index_start_both).
    destruct (String.eqb _ _); [done|]. by apply index_start_both.
  - by apply index_startTypewriterAnimation.
  - by apply index_stopTypewriterAnimation.
  - eapply index_eq; [apply tw_startAnimation|done].
  - unfold stopFlowingLight. repeat case_match; try done.
    eapply index_eq; [apply tw_cleanup|done].
  - done.
  - unfold attach_container. by repeat case_match.
  - done.
Qed.

Lemma index_run_events tes : ∀ s, index_in_range s → index_in_range (run_events s tes).
Proof.
  induction tes as [|te tes IH]; intros s H; simpl; [done|].
  apply IH. unfold step. by apply index_handle.
Qed.

Lemma index_script_loaded rs hero cont href :
  index_in_range (script_loaded rs hero cont href).
Proof.
  assert (index_in_range (initial_state hero cont href)) as H0
    by (unfold index_in_range; cbn; lia).
  unfold script_loaded, boot. cbn [setTimeout schedule snd with_br tw].
  destruct rs; [done|by apply index_start_both..].
Qed.

(** X18.  In every reachable state, also when the typewriter is out of
    step, [currentIndex] is at most the length of the title: a typing
    tick appends a character of the title, never the text "undefined",
    and a tick at the end of the title appends nothing and ends the
    typing. *)
Theorem typing_position_stays_within_the_title (s : state) :
  reachable s →
  (currentIndex (tw s) ≤ String.length (text TYPEWRITER_CONFIG))%nat ∧
  (isTyping (tw s) = true →
   (currentIndex (tw s) < String.length (text TYPEWRITER_CONFIG))%nat →
   ∃ c, String.get (currentIndex (tw s)) (text TYPEWRITER_CONFIG) = Some c ∧
        currentText (tw (typewriterTick s)) = currentText (tw s) +:+ String c EmptyString) ∧
  (isTyping (tw s) = true →
   currentIndex (tw s) = String.length (text TYPEWRITER_CONFIG) →
   currentText (tw (typewriterTick s)) = currentText (tw s) ∧
   isTyping (tw (typewriterTick s)) = false).
Proof.
  intros (rs & hero & cont & href & tes & ->).
  set (s := run_events _ tes).
  split; [apply index_run_events, index_script_loaded|]. split.
  - intros Hty Hlt.
    destruct (get_in_range _ _ Hlt) as [c Hc]. exists c. split; [done|].
    destruct (typing_appends_next_character s Hty Hlt) as (-> & _).
    unfold append_char_at. by rewrite Hc.
  - intros Hty Heq. unfold typewriterTick, clear_typewriterInterval.
    rewrite Hty, Heq, Nat.ltb_irrefl. simpl.
    destruct (typewriterInterval (tw s)); done.
Qed.

Lemma typing_position_stays_within_the_title_witness :
  let s := run_events home_page restart_in_delete_pause_typed_out in
  (String.length (currentText (tw s)) = 12 ∧ currentIndex (tw s) = 9)%nat ∧
  (currentIndex (tw s) ≤ String.length (text TYPEWRITER_CONFIG))%nat.
Proof.
  intros s. split; [vm_compute; split; reflexivity|].
  refine (proj1 (typing_position_stays_within_the_title s _)).
  exists Complete, (Some 7%nat), (Some (3%nat, (50 # 1, 30 # 1)%Q)), home,
    restart_in_delete_pause_typed_out.
  reflexivity.
Defined.

(** ** Boot *)

Lemma dcl_cleanup r s : dcl_listener (br (cleanup r s)) = dcl_listener (br s).
Proof. unfold cleanup. by destruct (runs (fl s) !! r). Qed.

Lemma dcl_resize_run r s : dcl_listener (br (resize_run r s)) = dcl_listener (br s).
Proof. unfold resize_run. by repeat case_match. Qed.

Lemma dcl_startAnimation s : dcl_listener (br (startAnimation s)) = dcl_listener (br s).
Proof.
  unfold startAnimation. destruct (container (doc s)) as [c|].
  - cbv zeta. unfold request_tick. simpl. rewrite dcl_resize_run. simpl.
    repeat case_match; by rewrite ?dcl_cleanup.
  - by destruct (retryCount (fl s) <? MAX_RETRIES FLOWING_LIGHT_CONFIG).
Qed.

Lemma dcl_startTypewriterAnimation s :
  dcl_listener (br (startTypewriterAnimation s)) = dcl_listener (br s).
Proof.
  unfold startTypewriterAnimation. simpl.
  destruct (hero_title (doc s)); [destruct (typewriterInterval (tw s))|]; reflexivity.
Qed.

Lemma dcl_start_both s : dcl_listener (br (start_both s)) = dcl_listener (br s).
Proof. unfold start_both. by rewrite dcl_startTypewriterAnimation, dcl_startAnimation. Qed.

Lemma now_cleanup r s : now (br (cleanup r s)) = now (br s).
Proof. unfold cleanup. by destruct (runs (fl s) !! r). Qed.

Lemma now_resize_run r s : now (br (resize_run r s)) = now (br s).
Proof. unfold resize_run. by repeat case_match. Qed.

Lemma now_startAnimation s : now (br (startAnimation s)) = now (br s).
Proof.
  unfold startAnimation. destruct (container (doc s)) as [c|].
  - cbv zeta. unfold request_tick. simpl. rewrite now_resize_run. simpl.
    repeat case_match; by rewrite ?now_cleanup.
  - by destruct (retryCount (fl s) <? MAX_RETRIES FLOWING_LIGHT_CONFIG).
Qed.

Lemma now_startTypewriterAnimation s :
  now (br (startTypewriterAnimation s)) = now (br s).
Proof.
  unfold startTypewriterAnimation. simpl.
  destruct (hero_title (doc s)); [destruct (typewriterInterval (tw s))|]; reflexivity.
Qed.

Lemma now_start_both s : now (br (start_both s)) = now (br s).
Proof. unfold start_both. by rewrite now_startTypewriterAnimation, now_startAnimation. Qed.

(** X19.  Loaded while the document is still loading, the script
    starts nothing: it only registers the DOMContentLoaded listener and
    the two fallback timeouts.  The listener starts both effects once
    and is gone.  Loaded later, the script registers no listener, and
    the two fallbacks are scheduled for 100 ms and 500 ms. *)
Theorem boot_waits_for_the_dom (hero : option nat) (cont : option (nat * (Q * Q)))
    (href : string) :
  let s := script_loaded Loading hero cont href in
  (runs (fl s) = ∅ ∧ frames (br s) = ∅ ∧ typewriterInterval (tw s) = None ∧
   timers (br s) = {[ 1%nat := Timer OneShot 100 100 CbBootFallback;
                      2%nat := Timer OneShot 500 500 CbBootFallback ]}) ∧
  (let s1 := handle DOMContentLoaded s in
   s1 = start_both (with_br (set_dcl_listener false) s) ∧
   handle DOMContentLoaded s1 = s1) ∧
  (∀ rs, rs ≠ Loading →
     let s' := script_loaded rs hero cont href in
     handle DOMContentLoaded s' = s' ∧
     ∃ id, timers (br s') !! id = Some (Timer OneShot 100 100 CbBootFallback) ∧
           timers (br s') !! S id = Some (Timer OneShot 500 500 CbBootFallback)).
Proof.
  intros s. split; [|split].
  - repeat split.
  - cbv zeta. split; [reflexivity|].
    change (handle DOMContentLoaded s)
      with (start_both (with_br (set_dcl_listener false) s)).
    cbn [handle]. by rewrite dcl_start_both.
  - intros rs Hrs s'.
    assert (dcl_listener (br s') = false) as Hdcl.
    { unfold s', script_loaded, boot. destruct rs; [done|..]; cbn; by rewrite dcl_start_both. }
    split; [cbn [handle]; by rewrite Hdcl|].
    unfold s', script_loaded, boot.
    destruct rs; [done|..]; cbv zeta;
      exists (next_timer (br (start_both (initial_state hero cont href))));
      simpl; rewrite now_start_both; simpl;
      (split; [rewrite lookup_insert_ne by lia|]; apply lookup_insert_eq).
Qed.

(** ** A start request while both effects run *)












(** ** The debounced resize *)

Lemma debouncing_same s s' : same_timing s s' → debouncing s → debouncing s'.
Proof.
  intros (Ht & Hn & Hr) [H1 H2]. split; rewrite ?Ht, ?Hr; assumption.
Qed.

Lemma debouncing_schedule k cb d s :
  not_debounce cb → hygienic s → debouncing s → debouncing (snd (schedule k cb d s)).
Proof.
  intros Hcb Hy [H1 H2]. split; simpl.
  - intros id tm r [[<- <-]|[_ Hid]]%lookup_insert_Some Hr; [by destruct (Hcb r)|eauto].
  - intros r x tm Hx. pose proof (hy_handle _ Hy _ _ Hx).
    rewrite lookup_insert_ne by lia. eauto.
Qed.

Lemma debouncing_clearTimer id s : debouncing s → debouncing (clearTimer id s).
Proof.
  intros [H1 H2]. split; simpl.
  - intros j tm r [_ Hj]%lookup_delete_Some. eauto.
  - intros r x tm Hx [_ Hj]%lookup_delete_Some. eauto.
Qed.

Lemma debouncing_update_run r f s :
  (∀ x, resizeTimer (f x) = resizeTimer x) →
  debouncing s → debouncing (update_run r f s).
Proof.
  intros Hf [H1 H2]. split; simpl.
  - intros id tm r' Hid Hcb. destruct (H1 _ _ _ Hid Hcb) as (Hk & Hd & x & Hx & Hrt).
    repeat (split; [done|]). destruct (decide (r = r')) as [->|Hne].
    + exists (f x). by rewrite lookup_alter_eq, Hx, Hf.
    + exists x. by rewrite lookup_alter_ne.
  - intros r' x' tm [(-> & y & Hy & ->)|[_ Hx]]%lookup_alter_Some; rewrite ?Hf; eauto.
Qed.

Lemma debouncing_start_interval d s :
  hygienic s → debouncing s → debouncing (start_interval d s).
Proof.
  intros Hy Hs.
  eapply debouncing_same;
    [|apply (debouncing_schedule Repeating CbTypewriterTick d); [done|exact Hy|exact Hs]].
  same_timers.
Qed.

Lemma debouncing_with_tw f s : debouncing s → debouncing (with_tw f s).
Proof. apply debouncing_same. same_timers. Qed.

Lemma debouncing_write_textContent v s : debouncing s → debouncing (write_textContent v s).
Proof.
  unfold write_textContent. destruct (typewriterElement (tw s)); [|done].
  apply debouncing_same. same_timers.
Qed.

Lemma debouncing_clear_typewriterInterval s :
  debouncing s → debouncing (clear_typewriterInterval s).
Proof.
  unfold clear_typewriterInterval.
  destruct (typewriterInterval (tw s)); auto using debouncing_clearTimer.
Qed.

Lemma debouncing_startTypewriterAnimation s :
  hygienic s → debouncing s → debouncing (startTypewriterAnimation s).
Proof.
  intros Hy Hs. unfold startTypewriterAnimation. cbv zeta.
  set (s0 := with_tw (set_typewriterElement (hero_title (doc s))) s).
  assert (hygienic s0) as Hy0 by by apply hygienic_with_tw.
  assert (debouncing s0) as Hs0 by by apply debouncing_with_tw.
  clearbody s0.
  destruct (typewriterElement (tw s0)).
  - destruct (typewriterInterval (tw s0)); [done|].
    apply debouncing_start_interval.
    + by repeat apply hygienic_with_tw.
    + by repeat apply debouncing_with_tw.
  - by apply debouncing_schedule.
Qed.

Lemma debouncing_afterTypePause s :
  hygienic s → debouncing s → debouncing (afterTypePause s).
Proof.
  intros Hy Hs. unfold afterTypePause.
  apply debouncing_start_interval; [by apply hygienic_with_tw|by apply debouncing_with_tw].
Qed.

Lemma debouncing_afterDeletePause s :
  hygienic s → debouncing s → debouncing (afterDeletePause s).
Proof.
  intros Hy Hs. unfold afterDeletePause. case_match; [|done].
  apply debouncing_start_interval;
    [by repeat apply hygienic_with_tw|by repeat apply debouncing_with_tw].
Qed.

Lemma debouncing_typewriterTick s :
  hygienic s → debouncing s → debouncing (typewriterTick s).
Proof.
  intros Hy Hs. unfold typewriterTick.
  assert (∀ cb d f, not_debounce cb →
            debouncing
              (snd (setTimeout cb d
                      (with_tw (set_typewriterInterval None)
                         (clear_typewriterInterval (with_tw f s)))))) as Hend.
  { intros cb d f Hcb. apply debouncing_schedule; [done| |].
    - by apply hygienic_with_tw, hygienic_clear_typewriterInterval, hygienic_with_tw.
    - by apply debouncing_with_tw, debouncing_clear_typewriterInterval, debouncing_with_tw. }
  repeat case_match; try done.
  - apply debouncing_write_textContent. by repeat apply debouncing_with_tw.
  - by apply Hend.
  - apply debouncing_write_textContent. by repeat apply debouncing_with_tw.
  - by apply Hend.
Qed.

Lemma debouncing_stopTypewriterAnimation s :
  debouncing s → debouncing (stopTypewriterAnimation s).
Proof.
  intros Hs. unfold stopTypewriterAnimation.
  apply debouncing_write_textContent.
  destruct (typewriterInterval (tw s)); [|done].
  by apply debouncing_with_tw, debouncing_clearTimer.
Qed.

Lemma debouncing_request_tick r s : debouncing s → debouncing (request_tick r s).
Proof.
  intros Hs. unfold request_tick. simpl.
  apply (debouncing_update_run r (set_rafId (next_frame (br s)))); [done|].
  eapply debouncing_same; [|exact Hs]. same_timers.
Qed.

Lemma debouncing_cancel id s : debouncing s → debouncing (cancelAnimationFrame id s).
Proof. apply debouncing_same. same_timers. Qed.

Lemma debouncing_update_container c f s :
  debouncing s → debouncing (update_container c f s).
Proof. apply debouncing_same. same_timers. Qed.

Lemma debouncing_resize_run r s : debouncing s → debouncing (resize_run r s).
Proof.
  intros Hs. unfold resize_run. repeat case_match; try done.
  by apply debouncing_update_run.
Qed.

Lemma debouncing_tick r s : debouncing s → debouncing (tick r s).
Proof.
  intros Hs. unfold tick. repeat case_match; try done.
  by apply debouncing_request_tick, debouncing_update_run.
Qed.

Lemma debouncing_fire_frame id s : debouncing s → debouncing (fire_frame id s).
Proof.
  intros Hs. unfold fire_frame. case_match; [|done].
  by apply debouncing_tick, debouncing_cancel.
Qed.

Lemma debouncing_cleanup r s : debouncing s → debouncing (cleanup r s).
Proof.
  intros Hs. unfold cleanup. destruct (runs (fl s) !! r) as [x|]; [|done].
  repeat apply debouncing_update_container.
  assert (debouncing (cancelAnimationFrame (rafId x) (update_run r (set_running false) s)))
    as Hc by by apply debouncing_cancel, debouncing_update_run.
  eapply debouncing_same; [|exact Hc]. same_timers.
Qed.

Lemma debouncing_debounced r s : debouncing s → debouncing (debounced r s).
Proof.
  intros Hs. unfold debounced. case_match; [|done].
  case_match; [apply debouncing_request_tick|];
    by apply debouncing_resize_run, debouncing_cancel.
Qed.

(** [onResize] of a run: its pending timeout, if any, is replaced. *)
Lemma debouncing_onResize r s :
  hygienic s → debouncing s →
  debouncing (onResize r s) ∧
  (is_Some (runs (fl s) !! r) →
   debounce_due r (next_timer (br s)) (now (br s) + 150) (onResize r s)) ∧
  (∀ r' id due, r' ≠ r → debounce_due r' id due s → debounce_due r' id due (onResize r s)).
Proof.
  intros Hy [H1 H2]. unfold onResize.
  destruct (runs (fl s) !! r) as [x|] eqn:Hx.
  2:{ split; [done|]. split; [by intros [? ?]|done]. }
  split; [split|split]; simpl.
  - intros id tm r' [[<- <-]|[Hne [Hne' Hid]%lookup_delete_Some]]%lookup_insert_Some Hcb.
    + simpl in Hcb. injection Hcb as <-. repeat (split; [done|]).
      eexists. rewrite lookup_alter_eq, Hx. simpl. eauto.
    + destruct (H1 _ _ _ Hid Hcb) as (Hk & Hd & y & Hy' & Hrt).
      repeat (split; [done|]). exists y. split; [|done].
      rewrite lookup_alter_ne; [done|]. intros <-. congruence.
  - intros r' x' tm [(-> & y & Hy' & ->)|[Hne Hx']]%lookup_alter_Some; simpl.
    + rewrite lookup_insert_eq. by intros [= <-].
    + pose proof (hy_handle _ Hy _ _ Hx').
      rewrite lookup_insert_ne by lia. intros [_ Hid]%lookup_delete_Some. eauto.
  - intros _. unfold debounce_due. simpl.
    eexists. rewrite lookup_alter_eq, Hx. simpl.
    split; [done|]. split; [done|]. apply lookup_insert_eq.
  - intros r' id due Hne (y & Hy' & Hrt & Ht). exists y. simpl.
    rewrite lookup_alter_ne by done. split; [done|]. split; [done|].
    pose proof (hy_handle _ Hy _ _ Hy'). rewrite Hrt in *.
    rewrite lookup_insert_ne by lia. apply lookup_delete_Some. split; [|done].
    intros Heq. rewrite <- Heq in Ht.
    pose proof (H2 _ _ _ Hx Ht) as Hcb. simpl in Hcb. congruence.
Qed.

Lemma debouncing_new_run c s :
  consistent s → hygienic s → debouncing s →
  debouncing (with_fl (λ g, set_runs (S (next_run (fl s)))
                              (<[next_run (fl s) := new_run c]> (runs g)) g) s).
Proof.
  intros Hc Hy [H1 H2]. split; simpl.
  - intros id tm r Hid Hcb. destruct (H1 _ _ _ Hid Hcb) as (Hk & Hd & x & Hx & Hrt).
    repeat (split; [done|]). exists x. split; [|done].
    rewrite lookup_insert_ne; [done|]. apply (co_runs _ Hc) in Hx. lia.
  - intros r x tm [[_ <-]|[_ Hx]]%lookup_insert_Some; simpl; [|eauto].
    rewrite (hy_zero _ Hy). done.
Qed.

Lemma debouncing_startAnimation s :
  consistent s → hygienic s → debouncing s → debouncing (startAnimation s).
Proof.
  intros Hc Hy Hs. unfold startAnimation.
  destruct (container (doc s)) as [c|].
  - cbv zeta.
    set (s1 := with_fl (set_retryCount 0) s).
    set (s2 := match containers (doc s1) !! c with
               | Some o => match _flowingLightCleanup o with
                           | Some r0 => cleanup r0 s1
                           | None => s1
                           end
               | None => s1
               end).
    assert (consistent s2 ∧ hygienic s2 ∧ debouncing s2) as (Hc2 & Hy2 & Hs2).
    { assert (consistent s1) as Hc1 by (eapply consistent_same; [|exact Hc]; untouched).
      assert (hygienic s1) as Hy1 by (eapply hygienic_same; [|exact Hy]; same_timers).
      assert (debouncing s1) as Hs1 by (eapply debouncing_same; [|exact Hs]; same_timers).
      unfold s2.
      repeat case_match;
        auto using consistent_cleanup, hygienic_cleanup, debouncing_cleanup. }
    clearbody s2. clear s1.
    set (q := next_run (fl s2)).
    set (s3 := update_container c (λ o, set_canvases (canvases o ++ [q]) o) s2).
    assert (consistent s3) as Hc3 by (apply consistent_update_container; done).
    assert (hygienic s3) as Hy3 by by apply hygienic_update_container.
    assert (debouncing s3) as Hs3 by by apply debouncing_update_container.
    assert (next_run (fl s3) = q) as Hq3 by reflexivity.
    clearbody s3.
    set (s4 := with_fl _ s3).
    assert (debouncing s4) as Hs4.
    { unfold s4. rewrite <- Hq3. by apply debouncing_new_run. }
    clearbody s4.
    repeat apply debouncing_update_container.
    eapply debouncing_same; [|apply debouncing_request_tick, debouncing_resize_run, Hs4].
    same_timers.
  - case_match; [|done].
    apply debouncing_schedule; [done| |].
    + eapply hygienic_same; [|exact Hy]. same_timers.
    + eapply debouncing_same; [|exact Hs]. same_timers.
Qed.

Lemma debouncing_start_both s :
  consistent s → hygienic s → debouncing s → debouncing (start_both s).
Proof.
  intros Hc Hy Hs. unfold start_both.
  apply debouncing_startTypewriterAnimation;
    [by apply hygienic_startAnimation|by apply debouncing_startAnimation].
Qed.

Lemma debouncing_run_callback cb s :
  consistent s → hygienic s → debouncing s → debouncing (run_callback cb s).
Proof.
  intros Hc Hy Hs. destruct cb; simpl;
    auto using debouncing_typewriterTick, debouncing_startTypewriterAnimation,
      debouncing_afterTypePause, debouncing_afterDeletePause, debouncing_startAnimation,
      debouncing_debounced, debouncing_start_both.
Qed.

Lemma debouncing_reschedule id tm due s :
  timers (br s) !! id = Some tm → t_kind tm = Repeating →
  debouncing s →
  debouncing (with_br (λ b, set_timers (next_timer b)
                (<[id := Timer Repeating (t_delay tm) due (t_cb tm)]> (timers b)) b) s).
Proof.
  intros Hid Hk [H1 H2]. split; simpl.
  - intros j tm' r [[<- <-]|[_ Hj]]%lookup_insert_Some Hcb; [|eauto].
    simpl in Hcb. destruct (H1 _ _ _ Hid Hcb) as (Hk' & _). congruence.
  - intros r x tm' Hx [[Heq <-]|[_ Hj]]%lookup_insert_Some; [|eauto].
    simpl. rewrite Heq in Hid. eauto.
Qed.

Lemma debouncing_fire_timer id s :
  consistent s → hygienic s → debouncing s → debouncing (fire_timer id s).
Proof.
  intros Hc Hy Hs. unfold fire_timer.
  destruct (timers (br s) !! id) as [tm|] eqn:Hid; [|done].
  apply debouncing_run_callback.
  - eapply consistent_same; [|exact Hc]. destruct (t_kind tm); untouched.
  - destruct (t_kind tm); [by apply hygienic_clearTimer | by apply hygienic_reschedule].
  - destruct (t_kind tm) eqn:Hk;
      [by apply debouncing_clearTimer | by apply debouncing_reschedule].
Qed.

Lemma debouncing_resize_all l : ∀ s,
  consistent s → hygienic s → debouncing s →
  let s' := foldl (λ s r, onResize r s) s l in
  consistent s' ∧ hygienic s' ∧ debouncing s'.
Proof.
  induction l as [|r l IH]; intros s Hc Hy Hs; simpl; [done|].
  apply IH; [by apply consistent_onResize|by apply hygienic_onResize|].
  by apply debouncing_onResize.
Qed.

Lemma debouncing_handle e s :
  consistent s → hygienic s → debouncing s → debouncing (handle e s).
Proof.
  intros Hc Hy Hs. destruct e; simpl.
  - by apply debouncing_fire_timer.
  - by apply debouncing_fire_frame.
  - by apply debouncing_resize_all.
  - destruct (dcl_listener (br s)); [|done].
    apply debouncing_start_both.
    + eapply consistent_same; [|exact Hc]. untouched.
    + eapply hygienic_same; [|exact Hy]. same_timers.
    + eapply debouncing_same; [|exact Hs]. same_timers.
  - unfold urlObserver, containerObserver.
    assert (consistent (if scan_mutations ms then start_both s else s) ∧
            hygienic (if scan_mutations ms then start_both s else s) ∧
            debouncing (if scan_mutations ms then start_both s else s))
      as (Hc' & Hy' & Hs')
      by (destruct (scan_mutations ms);
          auto using consistent_start_both, hygienic_start_both, debouncing_start_both).
    destruct (String.eqb _ _); [done|].
    apply debouncing_start_both.
    + eapply consistent_same; [|exact Hc']. untouched.
    + eapply hygienic_same; [|exact Hy']. same_timers.
    + eapply debouncing_same; [|exact Hs']. same_timers.
  - by apply debouncing_startTypewriterAnimation.
  - by apply debouncing_stopTypewriterAnimation.
  - by apply debouncing_startAnimation.
  - unfold stopFlowingLight. repeat case_match; auto using debouncing_cleanup.
  - eapply debouncing_same; [|exact Hs]. same_timers.
  - unfold attach_container. repeat case_match;
      (eapply debouncing_same; [|exact Hs]; same_timers).
  - by apply debouncing_update_container.
Qed.

Lemma debouncing_run_events tes : ∀ s,
  consistent s → hygienic s → debouncing s →
  hygienic (run_events s tes) ∧ debouncing (run_events s tes).
Proof.
  induction tes as [|te tes IH]; intros s Hc Hy Hs; simpl; [done|].
  apply IH; [by apply consistent_step|by apply hygienic_step|].
  unfold step. apply debouncing_handle.
  - eapply consistent_same; [|exact Hc]. untouched.
  - eapply hygienic_same; [|exact Hy]. same_timers.
  - eapply debouncing_same; [|exact Hs]. same_timers.
Qed.

Lemma debouncing_script_loaded rs hero cont href :
  debouncing (script_loaded rs hero cont href).
Proof.
  assert (consistent (initial_state hero cont href)) as Hc0.
  { pose proof (consistent_script_loaded Loading hero cont href) as Hc.
    eapply consistent_same; [|exact Hc]. untouched. }
  assert (hygienic (initial_state hero cont href)) as Hy0.
  { split; simpl; try done; try lia; intros; simplify_map_eq. }
  assert (debouncing (initial_state hero cont href)) as H0.
  { split; simpl; intros; simplify_map_eq. }
  assert (∀ s, hygienic s → debouncing s →
            debouncing (snd (setTimeout CbBootFallback 500
                               (snd (setTimeout CbBootFallback 100 s))))) as Hrest.
  { intros s Hy Hs. apply debouncing_schedule; [done|by apply hygienic_schedule|].
    by apply debouncing_schedule. }
  unfold script_loaded, boot.
  destruct rs; apply Hrest.
  - eapply hygienic_same; [|exact Hy0]. same_timers.
  - eapply debouncing_same; [|exact H0]. same_timers.
  - by apply hygienic_start_both.
  - by apply debouncing_start_both.
  - by apply hygienic_start_both.
  - by apply debouncing_start_both.
Qed.

Lemma reachable_debouncing s : reachable s → hygienic s ∧ debouncing s.
Proof.
  intros (rs & hero & cont & href & tes & ->).
  apply debouncing_run_events;
    [apply consistent_script_loaded|apply hygienic_script_loaded
    |apply debouncing_script_loaded].
Qed.

Lemma now_onResize r s : now (br (onResize r s)) = now (br s).
Proof. unfold onResize. by case_match. Qed.

Lemma next_timer_onResize r s :
  (next_timer (br s) ≤ next_timer (br (onResize r s)))%nat.
Proof. unfold onResize. case_match; simpl; lia. Qed.

Lemma runs_onResize r r' s :
  is_Some (runs (fl s) !! r') → is_Some (runs (fl (onResize r s)) !! r').
Proof.
  unfold onResize. destruct (runs (fl s) !! r) as [x|]; [|done]. simpl.
  intros H. by apply lookup_alter_is_Some.
Qed.

Lemma resize_rest r id due l : ∀ s,
  r ∉ l → hygienic s → debouncing s → debounce_due r id due s →
  debounce_due r id due (foldl (λ s r, onResize r s) s l).
Proof.
  induction l as [|r0 l IH]; intros s Hnotin Hy Hs Hdue; simpl; [done|].
  apply not_elem_of_cons in Hnotin as [Hne Hnotin].
  destruct (debouncing_onResize r0 s Hy Hs) as (Hs' & _ & Hkeep).
  apply IH; auto using hygienic_onResize.
Qed.

Lemma resize_all_due r l : ∀ s,
  NoDup l → r ∈ l → is_Some (runs (fl s) !! r) → hygienic s → debouncing s →
  ∃ id, (next_timer (br s) ≤ id)%nat ∧
        debounce_due r id (now (br s) + 150) (foldl (λ s r, onResize r s) s l).
Proof.
  induction l as [|r0 l IH]; intros s Hnd Hin Hrun Hy Hs; [by apply elem_of_nil in Hin|].
  apply NoDup_cons in Hnd as [Hnotin Hnd]. simpl.
  destruct (debouncing_onResize r0 s Hy Hs) as (Hs' & Hdue & _).
  apply elem_of_cons in Hin as [->|Hin].
  - exists (next_timer (br s)). split; [done|].
    apply resize_rest; auto using hygienic_onResize.
  - destruct (IH (onResize r0 s)) as (id & Hid & Hd);
      auto using hygienic_onResize, runs_onResize.
    exists id. pose proof (next_timer_onResize r0 s).
    rewrite now_onResize in Hd. split; [lia|done].
Qed.

(** X21.  In every reachable state a pending debounce timeout is a
    one-shot timer of RESIZE_DEBOUNCE_MS whose handle its run holds in
    [resizeTimer]; so a run has at most one pending. *)
Theorem pending_debounce_is_the_one_its_run_remembers
    (s : state) (id : nat) (tm : timer) (r : nat) :
  reachable s → timers (br s) !! id = Some tm → t_cb tm = CbDebounce r →
  t_kind tm = OneShot ∧
  t_delay tm = RESIZE_DEBOUNCE_MS FLOWING_LIGHT_CONFIG ∧
  (∃ x, runs (fl s) !! r = Some x ∧ resizeTimer x = id) ∧
  (∀ id' tm', timers (br s) !! id' = Some tm' → t_cb tm' = CbDebounce r → id' = id).
Proof.
  intros Hreach Hid Hcb.
  destruct (reachable_debouncing s Hreach) as [_ Hs].
  destruct (de_owner _ Hs _ _ _ Hid Hcb) as (Hk & Hd & x & Hx & Hrt).
  repeat (split; [done|]). split; [eauto|].
  intros id' tm' Hid' Hcb'.
  destruct (de_owner _ Hs _ _ _ Hid' Hcb') as (_ & _ & x' & Hx' & Hrt'). congruence.
Qed.

Lemma pending_debounce_is_the_one_its_run_remembers_witness :
  let s := run_events home_page
             (first_half_second ++ [(1000, WindowResize); (1040, WindowResize)]) in
  timers (br s) !! 5%nat = Some (Timer OneShot 150 1190 (CbDebounce 3)) ∧
  (∃ x, runs (fl s) !! 3%nat = Some x ∧ resizeTimer x = 5%nat) ∧
  (∀ id' tm', timers (br s) !! id' = Some tm' → t_cb tm' = CbDebounce 3 → id' = 5%nat).
Proof.
  intros s.
  assert (reachable s) as Hreach.
  { exists Complete, (Some 7%nat), (Some (3%nat, (50 # 1, 30 # 1)%Q)), home,
      (first_half_second ++ [(1000, WindowResize); (1040, WindowResize)]). reflexivity. }
  assert (timers (br s) !! 5%nat = Some (Timer OneShot 150 1190 (CbDebounce 3))) as Hid
    by (vm_compute; reflexivity).
  split; [exact Hid|].
  exact (proj2 (proj2 (pending_debounce_is_the_one_its_run_remembers
                         s 5%nat _ 3%nat Hreach Hid eq_refl))).
Defined.

(** X22.  After a resize event every run that listens has a debounce
    timeout pending, created by that event and due RESIZE_DEBOUNCE_MS
    after it, and no other: a timeout that was pending before is
    gone. *)
Theorem window_resize_restarts_the_debounce (s : state) (t : Z) (r : nat) :
  reachable s → r ∈ resize_listeners (br s) →
  let s' := step s (t, WindowResize) in
  ∃ x, runs (fl s') !! r = Some x ∧
       timers (br s') !! resizeTimer x =
         Some (Timer OneShot (RESIZE_DEBOUNCE_MS FLOWING_LIGHT_CONFIG)
                 (t + RESIZE_DEBOUNCE_MS FLOWING_LIGHT_CONFIG) (CbDebounce r)) ∧
       (next_timer (br s) ≤ resizeTimer x)%nat ∧
       ∀ id tm, timers (br s') !! id = Some tm → t_cb tm = CbDebounce r →
                id = resizeTimer x.
Proof.
  intros Hreach Hin s'.
  pose proof (reachable_consistent s Hreach) as Hc.
  pose proof (reachable_housed s Hreach) as Hh.
  destruct (reachable_debouncing s Hreach) as [Hy Hs].
  set (s0 := with_br (set_now t) s).
  assert (consistent s0) as Hc0 by (eapply consistent_same; [|exact Hc]; untouched).
  assert (hygienic s0) as Hy0 by (eapply hygienic_same; [|exact Hy]; same_timers).
  assert (debouncing s0) as Hs0 by (eapply debouncing_same; [|exact Hs]; same_timers).
  assert (is_Some (runs (fl s0) !! r)) as Hrun
    by (destruct (co_resize _ Hc r Hin) as (x & Hx & _); eauto).
  destruct (resize_all_due r (resize_listeners (br s)) s0 (ho_nodup _ Hh) Hin Hrun Hy0 Hs0)
    as (id0 & Hid0 & x & Hx & Hrt & Ht).
  destruct (debouncing_resize_all (resize_listeners (br s)) s0 Hc0 Hy0 Hs0)
    as (_ & _ & Hs1).
  change (foldl (λ s r, onResize r s) s0 (resize_listeners (br s))) with s' in Hx, Ht, Hs1.
  exists x. rewrite Hrt. split; [done|]. split; [done|]. split; [done|].
  intros id tm Hid Hcb.
  destruct (de_owner _ Hs1 _ _ _ Hid Hcb) as (_ & _ & x' & Hx' & Hrt'). congruence.
Qed.

Lemma window_resize_restarts_the_debounce_witness :
  let s := run_events home_page (first_half_second ++ [(1000, WindowResize)]) in
  let s' := step s (1040, WindowResize) in
  timers (br s) !! 4%nat = Some (Timer OneShot 150 1150 (CbDebounce 3)) ∧
  timers (br s') !! 4%nat = None ∧
  ∃ x, runs (fl s') !! 3%nat = Some x ∧
       timers (br s') !! resizeTimer x = Some (Timer OneShot 150 1190 (CbDebounce 3)).
Proof.
  intros s s'.
  assert (reachable s) as Hreach.
  { exists Complete, (Some 7%nat), (Some (3%nat, (50 # 1, 30 # 1)%Q)), home,
      (first_half_second ++ [(1000, WindowResize)]). reflexivity. }
  assert (3%nat ∈ resize_listeners (br s)) as Hin by (vm_compute; apply list_elem_of_here).
  split; [vm_compute; reflexivity|]. split; [vm_compute; reflexivity|].
  destruct (window_resize_restarts_the_debounce s 1040 3%nat Hreach Hin)
    as (x & Hx & Ht & _).
  exists x. split; [exact Hx|exact Ht].
Defined.



(** ** A retry that finds its element *)

(** X24.  When the retry of [startTypewriterAnimation] fires after the
    title element has appeared, it starts the typing from the empty
    string on a new interval and schedules no further retry. *)
Theorem typewriter_retry_starts_typing_once_the_title_is_there
    (s : state) (id : nat) (tm : timer) (e : nat) (t : Z) :
  timers (br s) !! id = Some tm → t_kind tm = OneShot → t_cb tm = CbStartTypewriter →
  hero_title (doc s) = Some e → typewriterInterval (tw s) = None →
  let s' := step s (t, TimerFires id) in
  tw s' = Typewriter (Some (next_timer (br s))) (Some e) true false EmptyString 0 ∧
  timers (br s') =
    <[next_timer (br s) := Timer Repeating 150 (t + 150) CbTypewriterTick]>
      (delete id (timers (br s))).
Proof.
  intros Hid Hk Hcb Hh Hi s'.
  unfold s'. rewrite (timeout_fires s id tm t Hid Hk), Hcb.
  unfold run_callback, startTypewriterAnimation. simpl. by rewrite Hh, Hi.
Qed.

Lemma typewriter_retry_starts_typing_once_the_title_is_there_witness :
  let s := run_events other_page [(60, DomHeroTitle (Some 7%nat))] in
  let s' := step s (100, TimerFires 2%nat) in
  tw s' = Typewriter (Some 5%nat) (Some 7%nat) true false EmptyString 0.
Proof.
  intros s s'.
  exact (proj1 (typewriter_retry_starts_typing_once_the_title_is_there
                  s 2%nat (Timer OneShot 100 100 CbStartTypewriter) 7%nat 100
                  eq_refl eq_refl eq_refl eq_refl eq_refl)).
Defined.



(** ** A changed URL is seen once *)

Lemma lastUrl_start_both s : lastUrl (start_both s) = lastUrl s.
Proof.
  unfold start_both. by rewrite lastUrl_startTypewriterAnimation, lastUrl_startAnimation.
Qed.

(** X26.  After the observers have handled a batch of mutations,
    [lastUrl] is the URL they saw: the URL observer does not react to
    that URL again, and a further batch without added nodes at the same
    URL changes nothing. *)
Theorem url_change_restarts_once (ms : list mutation) (href : string) (s : state) :
  let s' := handle (Mutations ms href) s in
  lastUrl s' = href ∧
  urlObserver href s' = s' ∧
  handle (Mutations [] href) s' = s'.
Proof.
  intros s'.
  assert (lastUrl s' = href) as Hurl.
  { unfold s'. simpl. unfold urlObserver.
    destruct (String.eqb_spec href (lastUrl (containerObserver ms s))) as [Heq|Hne];
      [done|]. by rewrite lastUrl_start_both. }
  assert (urlObserver href s' = s') as Hquiet
    by (unfold urlObserver; by rewrite Hurl, String.eqb_refl).
  split; [done|]. split; [done|]. exact Hquiet.
Qed.

(** ** The particle field on its own *)
















